(** * alittlebitofmoney-mcp: a shallow embedding of the payment-aware tool server

    The development follows the TypeScript sources module by module:
    [Js] (the fragment of the JavaScript runtime the code relies on),
    [Utils] (utils.ts), [L402] (l402.ts), [Results] (results.ts),
    [Dedup] (dedup.ts), [HttpClient] (httpClient.ts), [Registry]
    (tools/registry.ts), [FakeServer] (the server that the test of the
    registry uses), [Normalizer] and [Manager] (catalog.ts),
    [Registration] (tools/registration.ts), [Uploads] (uploads.ts),
    [Config] (config.ts) and [Executor] (tools/executor.ts).

    Conventions.
    - A JavaScript string is a [string]: a sequence of code units, here the
      code units below 256.  HTTP header values are byte strings, so the
      model is exact for them.
    - A JavaScript number that is a count, a status code or a time stamp is
      a [Z] or a [nat]; a number that is divided or read from a JSON body
      is a binary64 [float], as in the runtime; the value of
      [Math.random()] and the delay computed from it are exact rationals.
    - [undefined] is [None]; a thrown exception is the error side of a sum.
    - A [Record<string, string>] is a [gmap string string]; a [Map], whose
      insertion order the code depends on, is an association list. *)

From Stdlib Require Import ZArith QArith Qround Lqa Ascii Floats Uint63 Lia.
From Stdlib Require DecimalString Sorted.
From stdpp Require Import base option list gmap strings.

Close Scope Q_scope.
Local Open Scope Z_scope.

(* ===================================================================== *)
(** ** The JavaScript fragment *)
(* ===================================================================== *)

Module Js.

(** *** Code units *)

Definition code (c : ascii) : N := N_of_ascii c.

Definition between (lo hi : N) (c : ascii) : bool :=
  ((lo <=? code c) && (code c <=? hi))%N.

(** The double quote, written by its code to keep literals readable. *)
Definition dquote : ascii := ascii_of_N 34.
Definition DQ : string := String dquote EmptyString.

Definition is_dquote (c : ascii) : bool := (code c =? 34)%N.
Definition is_comma (c : ascii) : bool := (code c =? 44)%N.
Definition is_colon (c : ascii) : bool := (code c =? 58)%N.
Definition is_slash (c : ascii) : bool := (code c =? 47)%N.
Definition is_underscore (c : ascii) : bool := (code c =? 95)%N.

(** [\s] of a regular expression: TAB, LF, VT, FF, CR, SPACE and NBSP are
    the white space code units below 256. *)
Definition is_space (c : ascii) : bool :=
  between 9 13 c || (code c =? 32)%N || (code c =? 160)%N.

Definition is_lower_az (c : ascii) : bool := between 97 122 c.
Definition is_digit (c : ascii) : bool := between 48 57 c.

(** [String.prototype.toLowerCase] on one code unit: A-Z, and the
    Latin-1 capitals U+00C0..U+00DE without the multiplication sign. *)
Definition lower_char (c : ascii) : ascii :=
  if between 65 90 c || (between 192 222 c && negb (code c =? 215)%N)
  then ascii_of_N (code c + 32)
  else c.

Fixpoint toLowerCase (s : string) : string :=
  match s with
  | EmptyString => EmptyString
  | String c s' => String (lower_char c) (toLowerCase s')
  end.

(** Two code units match under the [i] flag when they canonicalize to the
    same code unit; below 256 this is equality of the lower-case forms. *)
Definition ci_eq (a b : ascii) : bool :=
  bool_decide (lower_char a = lower_char b).

(** *** Strings *)

(** Truthiness of a string: every string but the empty one. *)
Definition truthy (s : string) : bool :=
  match s with EmptyString => false | String _ _ => true end.

(** Truthiness of [string | undefined]. *)
Definition truthy_opt (o : option string) : bool :=
  match o with Some s => truthy s | None => false end.

(** [a ?? b] *)
Definition nullish {A} (a : option A) (b : option A) : option A :=
  match a with Some x => Some x | None => b end.

Fixpoint startsWith (s p : string) : bool :=
  match p, s with
  | EmptyString, _ => true
  | String a p', String b s' => bool_decide (a = b) && startsWith s' p'
  | String _ _, EmptyString => false
  end.

Fixpoint rev_append (acc s : string) : string :=
  match acc with
  | EmptyString => s
  | String c acc' => rev_append acc' (String c s)
  end.

(** The last code unit of [s], and [s] without it. *)
Fixpoint unsnoc (s : string) : option (string * ascii) :=
  match s with
  | EmptyString => None
  | String c s' =>
      match unsnoc s' with
      | None => Some (EmptyString, c)
      | Some (init, l) => Some (String c init, l)
      end
  end.

(** [s.endsWith] of a colon *)
Definition endsWithColon (s : string) : bool :=
  match unsnoc s with
  | Some (_, c) => is_colon c
  | None => false
  end.

(** [s.slice(0, -1)] *)
Definition dropLast (s : string) : string :=
  match unsnoc s with
  | Some (init, _) => init
  | None => EmptyString
  end.

(** *** Regular expressions

    The code uses a handful of fixed patterns.  Each is embedded by a
    matcher at the current position, and [search] gives the position
    loop of [RegExp.prototype.exec]: the leftmost position at which the
    pattern matches wins, the end of the input included. *)

(** A literal under the [i] flag: the rest of the input after it. *)
Fixpoint literal_ci (p s : string) : option string :=
  match p, s with
  | EmptyString, _ => Some s
  | String a p', String b s' =>
      if ci_eq a b then literal_ci p' s' else None
  | String _ _, EmptyString => None
  end.

(** A greedy run of a character class: the run and what follows it. *)
Fixpoint span (cls : ascii -> bool) (s : string) : string * string :=
  match s with
  | EmptyString => (EmptyString, EmptyString)
  | String c s' =>
      if cls c
      then let '(run, rest) := span cls s' in (String c run, rest)
      else (EmptyString, s)
  end.

Fixpoint search {A} (at_pos : string -> option A) (s : string) : option A :=
  match at_pos s with
  | Some r => Some r
  | None =>
      match s with
      | EmptyString => None
      | String _ s' => search at_pos s'
      end
  end.

(** *** Sorting strings

    The order of [Array.prototype.sort] without a comparator, which is
    also the order in which a [Headers] object lists its names: strings by
    their code units. *)
Fixpoint code_lt (a b : string) : bool :=
  match a, b with
  | _, EmptyString => false
  | EmptyString, String _ _ => true
  | String x a', String y b' =>
      (code x <? code y)%N || ((code x =? code y)%N && code_lt a' b')
  end.

(** The sort is stable, as an insertion from the right is. *)
Fixpoint insert_string (s : string) (l : list string) : list string :=
  match l with
  | [] => [s]
  | s' :: l' => if code_lt s' s then s' :: insert_string s l' else s :: l
  end.

Definition sort_strings (l : list string) : list string :=
  foldr insert_string [] l.

(** *** Values of type [unknown]

    What [JSON.parse] returns, which is also what a response body is
    after it was read, and [undefined], which an object literal of the
    code can hold. *)
#[warnings="-register-all"]
Inductive value : Type :=
| VUndefined
| VNull
| VBool (b : bool)
| VNum (x : float)
| VStr (s : string)
| VArr (items : list value)
| VObj (fields : list (string * value)).

Fixpoint assoc {A} (k : string) (l : list (string * A)) : option A :=
  match l with
  | [] => None
  | (k', v) :: l' => if bool_decide (k' = k) then Some v else assoc k l'
  end.

(** [typeof v] is [object] and [v] is not [null]; an array is an object
    too. *)
Definition isRecord (v : value) : bool :=
  match v with
  | VArr _ | VObj _ => true
  | _ => false
  end.

(** [v[k]] for a record [v] and one of the property names the code reads
    ([invoice], [status], [code] and the like): an array has none of them. *)
Definition prop (v : value) (k : string) : option value :=
  match v with
  | VObj fields => assoc k fields
  | _ => None
  end.

(** [k in v] for the same property names. *)
Definition has_prop (v : value) (k : string) : bool :=
  match prop v k with Some _ => true | None => false end.

(** [Number.isFinite] *)
Definition isFinite (x : float) : bool :=
  negb (PrimFloat.is_nan x) && negb (PrimFloat.is_infinity x).

(** [Math.round] of a number that is not an integer of its own: the
    numbers it is applied to are sums of an integer and a fraction, kept
    as exact rationals. *)
Definition Math_round (x : Q) : Z := Qfloor (x + (1 # 2))%Q.

(** The helpers l402.ts and results.ts both declare; their argument is a
    property that may be absent. *)
Definition asString (v : option value) : option string :=
  match v with
  | Some (VStr s) => if truthy s then Some s else None
  | _ => None
  end.

Definition asNumber (v : option value) : option float :=
  match v with
  | Some (VNum x) => if isFinite x then Some x else None
  | _ => None
  end.

End Js.

(* ===================================================================== *)
(** ** utils.ts *)
(* ===================================================================== *)

Module Utils.
Import Js.

(** *** modelSetJaccard *)

(** [new Set(items)]: the distinct items in order of first occurrence. *)
Definition set_add (acc : list string) (x : string) : list string :=
  if bool_decide (x ∈ acc) then acc else acc ++ [x].

Definition newSet (items : list string) : list string :=
  foldl set_add [] items.

(** A count as a number. *)
Definition number_of_nat (n : nat) : float :=
  PrimFloat.of_uint63 (Uint63.of_Z (Z.of_nat n)).

Definition modelSetJaccard (a b : list string) : float :=
  let setA := newSet a in
  let setB := newSet b in
  if bool_decide (length setA = 0%nat) && bool_decide (length setB = 0%nat)
  then 1%float
  else
    let intersection :=
      foldl (fun n value => if bool_decide (value ∈ setB) then S n else n) 0%nat setA in
    let union := length (newSet (setA ++ setB)) in
    if bool_decide (union = 0%nat) then 0%float
    else PrimFloat.div (number_of_nat intersection) (number_of_nat union).

(** *** sanitizeToolName *)

(** The class [[a-z0-9_]]. *)
Definition name_char (c : ascii) : bool :=
  is_lower_az c || is_digit c || is_underscore c.

Definition underscore : ascii := ascii_of_N 95.

(** [replace(/[^a-z0-9_]+/g, "_")]: every maximal run of other code units
    becomes one underscore. [in_run] tells that the previous code unit
    belonged to such a run. *)
Fixpoint replace_other_runs (in_run : bool) (s : string) : string :=
  match s with
  | EmptyString => EmptyString
  | String c s' =>
      if name_char c then String c (replace_other_runs false s')
      else if in_run then replace_other_runs true s'
      else String underscore (replace_other_runs true s')
  end.

Fixpoint drop_leading_underscores (s : string) : string :=
  match s with
  | EmptyString => EmptyString
  | String c s' => if is_underscore c then drop_leading_underscores s' else s
  end.

Fixpoint drop_trailing_underscores (s : string) : string :=
  match s with
  | EmptyString => EmptyString
  | String c s' =>
      let r := drop_trailing_underscores s' in
      if is_underscore c && negb (truthy r) then EmptyString else String c r
  end.

(** [replace(/^_+|_+$/g, empty)]: the leading run of underscores and the
    trailing one are removed. *)
Definition strip_underscores (s : string) : string :=
  drop_trailing_underscores (drop_leading_underscores s).

(** [replace(/_{2,}/g, "_")]: a run of two or more underscores becomes
    one. [after_underscore] tells that the previous code unit was one. *)
Fixpoint collapse_underscores (after_underscore : bool) (s : string) : string :=
  match s with
  | EmptyString => EmptyString
  | String c s' =>
      if is_underscore c
      then if after_underscore then collapse_underscores true s'
           else String c (collapse_underscores true s')
      else String c (collapse_underscores false s')
  end.

Definition sanitizeToolName (input : string) : string :=
  collapse_underscores false
    (strip_underscores
       (replace_other_runs false (toLowerCase input))).

(** *** stableStringify and sha256Hex

    [JSON.stringify], [String.prototype.localeCompare] and SHA-256 belong
    to the runtime; the code below is parametric in them. *)

Section Stringify.
Variable JSON_stringify : value -> string.
Variable localeCompare : string -> string -> Z.

(** [Array.prototype.sort] with the comparator of [stableStringify]: the
    sort is stable, as an insertion from the right is. *)
Fixpoint insert_entry (e : string * value) (l : list (string * value))
  : list (string * value) :=
  match l with
  | [] => [e]
  | e' :: l' =>
      if 0 <? localeCompare e.1 e'.1 then e' :: insert_entry e l' else e :: l
  end.

Definition sort_entries (l : list (string * value)) : list (string * value) :=
  foldr insert_entry [] l.

(** The inner [normalize] of [stableStringify]. The values are normalized
    before the entries are sorted, and not after as in the code: the
    comparator reads the keys only, so the result is the same, and the
    recursion is structural this way. *)
Fixpoint normalize (input : value) : value :=
  match input with
  | VArr items => VArr (map normalize items)
  | VObj fields =>
      VObj (sort_entries (map (fun kv => match kv with (k, v) => (k, normalize v) end) fields))
  | other => other
  end.

Definition stableStringify (v : value) : string :=
  JSON_stringify (normalize v).

End Stringify.

End Utils.

(* ===================================================================== *)
(** ** l402.ts *)
(* ===================================================================== *)

Module L402.
Import Js.

Record L402Challenge : Type := mkChallenge {
  macaroon : string;
  invoice : string;
  paymentHash : string;
  amountSats : float
}.

(** [/^L402\s+/i.exec(wwwAuth)], giving [wwwAuth.slice(match[0].length)]. *)
Definition l402Scheme (wwwAuth : string) : option string :=
  match literal_ci "L402" wwwAuth with
  | Some rest =>
      let '(blanks, paramStr) := span is_space rest in
      if truthy blanks then Some paramStr else None
  | None => None
  end.

(** The quoted form of a parameter at the current position: [name], the
    equals sign, a double quote, the longest run without a double quote (the
    captured group) and a closing double quote. The
    parameter names the code passes are plain words, so [name] is a
    literal of the pattern. *)
Definition quoted_at (name : string) (s : string) : option string :=
  match literal_ci (name +:+ "=" +:+ DQ) s with
  | Some rest =>
      let '(group, after) := span (fun c => negb (is_dquote c)) rest in
      match after with
      | String _ _ => Some group
      | EmptyString => None
      end
  | None => None
  end.

(** The unquoted form at the current position: [name], the equals sign and
    the longest run, not empty, without comma or white space (the captured
    group). *)
Definition unquoted_at (name : string) (s : string) : option string :=
  match literal_ci (name +:+ "=") s with
  | Some rest =>
      let '(group, _) := span (fun c => negb (is_comma c || is_space c)) rest in
      if truthy group then Some group else None
  | None => None
  end.

Definition extractParam (paramStr name : string) : option string :=
  let m := search (quoted_at name) paramStr in
  if truthy_opt m then m
  else search (unquoted_at name) paramStr.

Definition parseL402Challenge
    (headers : gmap string string) (body : value) : option L402Challenge :=
  let wwwAuth := headers !! "www-authenticate" in
  if negb (truthy_opt wwwAuth) then None else
  match l402Scheme (default EmptyString wwwAuth) with
  | None => None
  | Some paramStr =>
      let macaroon := nullish (extractParam paramStr "macaroon")
                              (extractParam paramStr "token") in
      if negb (truthy_opt macaroon) then None else
      let macaroon := default EmptyString macaroon in
      let macaroon :=
        if endsWithColon macaroon then dropLast macaroon else macaroon in
      let bodyRecord := if isRecord body then body else VObj [] in
      let invoice := nullish (extractParam paramStr "invoice")
                             (asString (prop bodyRecord "invoice")) in
      let paymentHash := default EmptyString (asString (prop bodyRecord "payment_hash")) in
      let amountSats := default 0%float (asNumber (prop bodyRecord "amount_sats")) in
      if negb (truthy_opt invoice) then None else
      Some (mkChallenge macaroon (default EmptyString invoice) paymentHash amountSats)
  end.

Definition buildL402Authorization (macaroon preimage : string) : string :=
  "L402 " +:+ macaroon +:+ ":" +:+ preimage.

(** *** The token cache

    [entries] is a [Map]: keys are unique and iteration follows insertion
    order, which [set] relies on to find the oldest entry.  It is kept as
    an association list in insertion order. *)

Record L402CacheEntry : Type := mkEntry {
  entryMacaroon : string;
  entryInvoice : string;
  entryPaymentHash : string;
  entryAmountSats : float;
  expiresAt : Z
}.

(** [Map.prototype.get] *)
Definition map_get {V} (k : string) (m : list (string * V)) : option V :=
  assoc k m.

(** [Map.prototype.delete] *)
Definition map_delete {V} (k : string) (m : list (string * V)) : list (string * V) :=
  filter (fun kv => kv.1 ≠ k) m.

(** [Map.prototype.set]: a key that is present keeps its place in the
    iteration order and gets the new value, a new key goes last. *)
Fixpoint map_set {V} (k : string) (v : V) (m : list (string * V)) : list (string * V) :=
  match m with
  | [] => [(k, v)]
  | (k', v') :: m' =>
      if bool_decide (k' = k) then (k, v) :: m' else (k', v') :: map_set k v m'
  end.

(** [m.keys().next().value] *)
Definition map_first_key {V} (m : list (string * V)) : option string :=
  match m with
  | [] => None
  | (k, _) :: _ => Some k
  end.

Record L402TokenCache : Type := mkCache {
  entries : list (string * L402CacheEntry);
  maxEntries : Z;
  defaultTtlMs : Z
}.

(** The constructor; an option left out is [None]. *)
Definition newCache (optMaxEntries optDefaultTtlMs : option Z) : L402TokenCache :=
  mkCache [] (default 1000 optMaxEntries) (default 300000 optDefaultTtlMs).

Definition with_entries (c : L402TokenCache) (es : list (string * L402CacheEntry))
  : L402TokenCache :=
  mkCache es (maxEntries c) (defaultTtlMs c).

(** The [size] getter. *)
Definition size (c : L402TokenCache) : Z := Z.of_nat (length (entries c)).

Definition expired (now : Z) (e : L402CacheEntry) : bool := expiresAt e <? now.

(** [purgeExpired], with the reading of [Date.now()] it takes: the cache
    and the number of entries removed. *)
Definition purgeExpired (now : Z) (c : L402TokenCache) : L402TokenCache * Z :=
  let kept := filter (fun kv => expired now kv.2 = false) (entries c) in
  (with_entries c kept, Z.of_nat (length (entries c)) - Z.of_nat (length kept)).

(** [set].  [nowPurge] is the clock as [purgeExpired] reads it, [nowInsert]
    the clock read for the new entry's expiry. *)
Definition set (nowPurge nowInsert : Z) (challenge : L402Challenge)
    (ttlMs : option Z) (c : L402TokenCache) : L402TokenCache :=
  let c1 := if maxEntries c <=? size c then (purgeExpired nowPurge c).1 else c in
  let c2 :=
    if maxEntries c1 <=? size c1 then
      match map_first_key (entries c1) with
      | Some oldestKey => with_entries c1 (map_delete oldestKey (entries c1))
      | None => c1
      end
    else c1 in
  with_entries c2
    (map_set (paymentHash challenge)
       (mkEntry (macaroon challenge) (invoice challenge) (paymentHash challenge)
          (amountSats challenge) (nowInsert + default (defaultTtlMs c) ttlMs))
       (entries c2)).

(** [get]: the entry, if any, and the cache afterwards. *)
Definition get (now : Z) (key : string) (c : L402TokenCache)
  : option L402CacheEntry * L402TokenCache :=
  match map_get key (entries c) with
  | None => (None, c)
  | Some entry =>
      if expiresAt entry <? now
      then (None, with_entries c (map_delete key (entries c)))
      else (Some entry, c)
  end.

(** [dispose] clears the entries (and stops the timer). *)
Definition dispose (c : L402TokenCache) : L402TokenCache := with_entries c [].

(** The calls a client of the cache can make, each with the clock readings
    it takes, and a run of them. *)
Inductive cacheCall : Type :=
| CallSet (nowPurge nowInsert : Z) (challenge : L402Challenge) (ttlMs : option Z)
| CallGet (now : Z) (key : string)
| CallPurge (now : Z)
| CallDispose.

Definition call (c : L402TokenCache) (op : cacheCall) : L402TokenCache :=
  match op with
  | CallSet n1 n2 ch ttl => set n1 n2 ch ttl c
  | CallGet now k => (get now k c).2
  | CallPurge now => (purgeExpired now c).1
  | CallDispose => dispose c
  end.

Definition calls (c : L402TokenCache) (ops : list cacheCall) : L402TokenCache :=
  foldl call c ops.

End L402.

(* ===================================================================== *)
(** ** types.ts: the normalized response and the result envelope *)
(* ===================================================================== *)

Module Types.
Import Js.

Record NormalizedHttpResponse : Type := mkResponse {
  status : Z;
  headers : gmap string string;
  data : value
}.

(** [AlbomErrorPayload]: [code], [message] and the further keys spread
    into it, in the order in which they were set. *)
Record AlbomErrorPayload : Type := mkPayload {
  code : string;
  message : string;
  metadata : list (string * value)
}.

Record AlbomSuccess : Type := mkSuccess {
  successStatus : Z;
  successEndpoint : string;
  successModel : option string;
  price_sats : option float;
  successData : value
}.

Record AlbomError : Type := mkError {
  errorStatus : Z;
  errorEndpoint : string;
  errorModel : option string;
  error : AlbomErrorPayload
}.

(** [AlbomToolResult]; the constructor is the [ok] flag. *)
Inductive AlbomToolResult : Type :=
| Ok (r : AlbomSuccess)
| NotOk (e : AlbomError).

End Types.

(* ===================================================================== *)
(** ** results.ts *)
(* ===================================================================== *)

Module Results.
Import Js L402 Types.

(** A status in a template literal. *)
Definition string_of_status (n : Z) : string :=
  DecimalString.NilZero.string_of_int (Z.to_int n).

Definition is_string (v : option string) (s : string) : bool :=
  bool_decide (v = Some s).

(** [isRecord(data.error) ? data.error : undefined] *)
Definition nestedErrorOf (data : value) : option value :=
  match prop data "error" with
  | Some e => if isRecord e then Some e else None
  | None => None
  end.

(** [nestedError?.key] *)
Definition nested_prop (nestedError : option value) (k : string) : option value :=
  match nestedError with
  | Some e => prop e k
  | None => None
  end.

Definition pickMessage (data : value) (fallback : string) : string :=
  match data with
  | VStr s => if truthy s then s else fallback
  | _ =>
      if negb (isRecord data) then fallback else
      let nestedError := nestedErrorOf data in
      default fallback
        (nullish (asString (nested_prop nestedError "message"))
           (nullish (asString (prop data "message"))
              (asString (prop data "status"))))
  end.

Definition mapErrorCode (status : Z) (data : value) : string :=
  if isRecord data then
    let nestedError := nestedErrorOf data in
    let directStatus := asString (prop data "status") in
    if (status =? 402) && is_string directStatus "payment_required"
    then "payment_required"
    else if (status =? 402) && is_string directStatus "insufficient_balance"
    then "insufficient_balance"
    else
      default (if status =? 401 then "invalid_token" else "upstream_error")
        (nullish (asString (nested_prop nestedError "code"))
           (nullish (asString (prop data "code")) directStatus))
  else if status =? 401 then "invalid_token"
  else if status =? 402 then "payment_required"
  else if status =? 404 then "endpoint_not_found"
  else if status =? 413 then "request_too_large"
  else if status =? 429 then "rate_limited"
  else if 500 <=? status then "upstream_unavailable"
  else "upstream_error".

Definition first_some {A} (os : list (option A)) : option A :=
  foldr nullish None os.

Definition strip_colon (mac : string) : string :=
  if endsWithColon mac then dropLast mac else mac.

Definition extractL402Macaroon (wwwAuth : option string) : option string :=
  if negb (truthy_opt wwwAuth) then None else
  match l402Scheme (default EmptyString wwwAuth) with
  | None => None
  | Some paramStr =>
      let alternatives (at_pos : string -> string -> option string) (s : string) :=
        first_some [at_pos "macaroon" s; at_pos "token" s] in
      let quotedMacaroon := search (alternatives quoted_at) paramStr in
      if truthy_opt quotedMacaroon
      then Some (strip_colon (default EmptyString quotedMacaroon))
      else
        let unquotedMacaroon := search (alternatives unquoted_at) paramStr in
        if truthy_opt unquotedMacaroon
        then Some (strip_colon (default EmptyString unquotedMacaroon))
        else None
  end.

Definition paymentFields : list string :=
  ["amount_sats"; "invoice"; "payment_hash"; "expires_in"; "required_sats";
   "available_sats"].

Definition extractPaymentMetadata (data : value) (headers : gmap string string)
  : list (string * value) :=
  if negb (isRecord data) then [] else
  let topupHeader := headers !! "x-topup-url" in
  let metadata :=
    omap (fun field =>
            if has_prop data field
            then Some (field, default VUndefined (prop data field))
            else None) paymentFields in
  let metadata :=
    if truthy_opt topupHeader
    then metadata ++ [("topup_url", VStr (default EmptyString topupHeader))]
    else metadata in
  let macaroon := extractL402Macaroon (headers !! "www-authenticate") in
  if truthy_opt macaroon
  then metadata ++ [("macaroon", VStr (default EmptyString macaroon))]
  else metadata.

Definition buildSuccessResult (endpoint : string) (status : Z) (data : value)
    (model : option string) (priceSats : option float) : AlbomSuccess :=
  mkSuccess status endpoint model priceSats data.

Definition buildErrorResult (endpoint : string) (status : Z) (data : value)
    (headers : gmap string string) (model : option string) : AlbomError :=
  let code := mapErrorCode status data in
  let defaultMessage :=
    "Upstream request failed with status " +:+ string_of_status status in
  let message := pickMessage data defaultMessage in
  mkError status endpoint model
    (mkPayload code message (extractPaymentMetadata data headers)).

Definition fromHttpResponse (endpoint : string) (response : NormalizedHttpResponse)
    (model : option string) (priceSats : option float) : AlbomToolResult :=
  if (200 <=? status response) && (status response <? 300)
  then Ok (buildSuccessResult endpoint (status response) (data response) model priceSats)
  else NotOk (buildErrorResult endpoint (status response) (data response)
                (headers response) model).

End Results.

(* ===================================================================== *)
(** ** types.ts and config.ts: catalog, tools and configuration *)
(* ===================================================================== *)

Module Catalog.

Inductive ToolProfile : Type := compact | full.
Inductive EndpointContentType : Type := json | multipart.

(** [EndpointDescriptor], with the fields the tool synthesis reads. *)
Record EndpointDescriptor : Type := mkEndpoint {
  apiKey : string;
  apiName : string;
  path : string;
  method : string;
  description : string;
  contentType : EndpointContentType;
  models : list string;
  fileField : option string;
  family : string
}.

Record CatalogState : Type := mkCatalog {
  endpoints : list EndpointDescriptor
}.

(** [AlbomConfig], with the fields the tool synthesis reads. *)
Record AlbomConfig : Type := mkConfig {
  toolProfile : ToolProfile;
  includeModeration : bool;
  includeEmbeddings : bool;
  includeVideo : bool;
  allowRawTool : bool
}.

Inductive ToolKind : Type :=
| catalog_get | text_generate | image_generate | image_edit
| audio_transcribe | audio_speech | video_generate | safety_moderate
| embedding_create | full_endpoint | raw_call.

Record ToolAnnotations : Type := mkAnnotations {
  readOnlyHint : option bool;
  idempotentHint : option bool;
  destructiveHint : option bool;
  openWorldHint : option bool
}.

(** [PlannedTool]: the union of the tool interfaces, a field that a kind
    does not declare being [None]. *)
Record PlannedTool : Type := mkTool {
  kind : ToolKind;
  name : string;
  title : string;
  toolDescription : string;
  endpointPath : option string;
  translationEndpointPath : option string;
  toolContentType : option EndpointContentType;
  toolFileField : option string;
  annotations : ToolAnnotations
}.

Record ToolState : Type := mkToolState {
  profile : ToolProfile;
  tools : list PlannedTool;
  signature : string
}.

#[global] Instance ToolProfile_eq_dec : EqDecision ToolProfile.
Proof. solve_decision. Defined.
#[global] Instance EndpointContentType_eq_dec : EqDecision EndpointContentType.
Proof. solve_decision. Defined.
#[global] Instance ToolKind_eq_dec : EqDecision ToolKind.
Proof. solve_decision. Defined.

End Catalog.

(* ===================================================================== *)
(** ** dedup.ts *)
(* ===================================================================== *)

Module Dedup.
Import Js Utils Catalog.

Definition READ_ONLY_ANNOTATION : ToolAnnotations :=
  mkAnnotations (Some true) (Some true) (Some false) (Some false).

Definition DEFAULT_ANNOTATION : ToolAnnotations :=
  mkAnnotations None None (Some false) (Some true).

Definition isTextPath (path : string) : bool :=
  bool_decide (path = "/v1/responses") || startsWith path "/v1/chat/".

(** The literal [0.95], as the binary64 number it denotes. *)
Definition threshold : float := 0x1.e666666666666p-1%float.

Definition isDuplicateCandidate (a b : EndpointDescriptor) : bool :=
  let sameMethod := bool_decide (method a = method b) in
  let sameContentType := bool_decide (contentType a = contentType b) in
  let jaccard := modelSetJaccard (models a) (models b) in
  let sameFamily :=
    bool_decide (family a = family b) || (isTextPath (path a) && isTextPath (path b)) in
  sameMethod && sameContentType && sameFamily && PrimFloat.leb threshold jaccard.

Definition endpointByPath (catalog : CatalogState) (p : string) : option EndpointDescriptor :=
  find (fun endpoint =>
          bool_decide (path endpoint = p) && bool_decide (method endpoint = "POST"))
       (endpoints catalog).

Definition chooseCompactTextEndpoint (catalog : CatalogState) : option EndpointDescriptor :=
  let responses := endpointByPath catalog "/v1/responses" in
  let chat := endpointByPath catalog "/v1/chat/completions" in
  match responses, chat with
  | None, _ => chat
  | Some _, None => responses
  | Some r, Some c =>
      if isDuplicateCandidate c r then responses
      else responses
  end.

(** A tool that is bound to one endpoint. *)
Definition endpointTool (k : ToolKind) (n t d : string) (p : string)
    (a : ToolAnnotations) : PlannedTool :=
  mkTool k n t d (Some p) None None None a.

Definition catalogGetTool : PlannedTool :=
  mkTool catalog_get "albom_catalog_get" "Get ALBOM Catalog"
    "Get normalized ALBOM catalog data and derived tool summary."
    None None None None READ_ONLY_ANNOTATION.

Definition rawCallTool : PlannedTool :=
  mkTool raw_call "albom_raw_call" "Raw ALBOM Call"
    "Raw allowlisted endpoint caller for advanced use only."
    None None None None DEFAULT_ANNOTATION.

(** [if (cond) tools.push(tool)] for an optional endpoint. *)
Definition push_if {A} (o : option A) (mk : A -> PlannedTool)
    (tools : list PlannedTool) : list PlannedTool :=
  match o with
  | Some x => tools ++ [mk x]
  | None => tools
  end.

Definition makeCompactTools (catalog : CatalogState) (config : AlbomConfig)
  : list PlannedTool :=
  let tools := [catalogGetTool] in
  let tools :=
    push_if (chooseCompactTextEndpoint catalog)
      (fun textEndpoint =>
         endpointTool text_generate "albom_text_generate" "Text Generation"
           ("Generate text responses via " +:+ path textEndpoint +:+ ".")
           (path textEndpoint) DEFAULT_ANNOTATION) tools in
  let tools :=
    push_if (endpointByPath catalog "/v1/images/generations")
      (fun imageGenerate =>
         endpointTool image_generate "albom_image_generate" "Image Generation"
           "Generate new images from text prompts."
           (path imageGenerate) DEFAULT_ANNOTATION) tools in
  let tools :=
    push_if (endpointByPath catalog "/v1/images/edits")
      (fun imageEdit =>
         endpointTool image_edit "albom_image_edit" "Image Edit"
           "Edit an input image with prompt instructions."
           (path imageEdit) DEFAULT_ANNOTATION) tools in
  let tools :=
    push_if (endpointByPath catalog "/v1/audio/transcriptions")
      (fun audioTranscribe =>
         mkTool audio_transcribe "albom_audio_transcribe" "Audio Transcribe"
           "Transcribe audio. Set translate_to_english=true to route to translation."
           (Some (path audioTranscribe))
           (path <$> endpointByPath catalog "/v1/audio/translations")
           None None DEFAULT_ANNOTATION) tools in
  let tools :=
    push_if (endpointByPath catalog "/v1/audio/speech")
      (fun audioSpeech =>
         endpointTool audio_speech "albom_audio_speech" "Audio Speech"
           "Synthesize speech from text input."
           (path audioSpeech) DEFAULT_ANNOTATION) tools in
  let tools :=
    if includeVideo config then
      push_if (endpointByPath catalog "/v1/video/generations")
        (fun videoGenerate =>
           endpointTool video_generate "albom_video_generate" "Video Generation"
             "Generate videos from text prompts. This endpoint can be expensive."
             (path videoGenerate)
             (mkAnnotations (readOnlyHint DEFAULT_ANNOTATION) (Some false)
                (destructiveHint DEFAULT_ANNOTATION)
                (openWorldHint DEFAULT_ANNOTATION))) tools
    else tools in
  let tools :=
    if includeModeration config then
      push_if (endpointByPath catalog "/v1/moderations")
        (fun moderation =>
           endpointTool safety_moderate "albom_safety_moderate" "Safety Moderate"
             "Classify text content with moderation models."
             (path moderation) READ_ONLY_ANNOTATION) tools
    else tools in
  let tools :=
    if includeEmbeddings config then
      push_if (endpointByPath catalog "/v1/embeddings")
        (fun embeddings =>
           endpointTool embedding_create "albom_embedding_create" "Embedding Create"
             "Generate embeddings for text input."
             (path embeddings) READ_ONLY_ANNOTATION) tools
    else tools in
  if allowRawTool config then tools ++ [rawCallTool] else tools.

Definition shouldIncludeFullEndpoint (endpoint : EndpointDescriptor)
    (config : AlbomConfig) : bool :=
  if negb (includeVideo config) && bool_decide (path endpoint = "/v1/video/generations")
  then false
  else if negb (includeModeration config) && bool_decide (path endpoint = "/v1/moderations")
  then false
  else if negb (includeEmbeddings config) && bool_decide (path endpoint = "/v1/embeddings")
  then false
  else true.

(** [s.split("/")]: the pieces between slashes, at least one. [piece] is
    the piece being read, reversed. *)
Fixpoint split_slash (piece : string) (s : string) : list string :=
  match s with
  | EmptyString => [rev_append piece EmptyString]
  | String c s' =>
      if is_slash c then rev_append piece EmptyString :: split_slash EmptyString s'
      else split_slash (String c piece) s'
  end.

(** [parts.join("_")] *)
Fixpoint join_underscore (parts : list string) : string :=
  match parts with
  | [] => EmptyString
  | [p] => p
  | p :: rest => p +:+ "_" +:+ join_underscore rest
  end.

Definition fullToolName (profileApi endpointPath : string) : string :=
  let segments :=
    filter (fun segment => segment ≠ "v1")
      (filter (fun segment => truthy segment = true)
         (split_slash EmptyString endpointPath)) in
  sanitizeToolName (join_underscore ("albom" :: profileApi :: segments)).

(** The body of the loop of [makeFullTools] over the endpoints; the state
    is the tool list and the set [usedNames]. *)
Definition fullToolStep (config : AlbomConfig)
    (st : list PlannedTool * gset string) (endpoint : EndpointDescriptor)
  : list PlannedTool * gset string :=
  let '(tools, usedNames) := st in
  if negb (bool_decide (method endpoint = "POST")) then st
  else if negb (shouldIncludeFullEndpoint endpoint config) then st
  else
    let name := fullToolName (apiKey endpoint) (path endpoint) in
    let name :=
      if bool_decide (name ∈ usedNames)
      then sanitizeToolName (name +:+ "_" +:+ toLowerCase (method endpoint))
      else name in
    (tools ++ [mkTool full_endpoint name
                 (apiName endpoint +:+ " " +:+ path endpoint)
                 (description endpoint)
                 (Some (path endpoint)) None
                 (Some (contentType endpoint)) (fileField endpoint)
                 DEFAULT_ANNOTATION],
     {[ name ]} ∪ usedNames).

Definition makeFullTools (catalog : CatalogState) (config : AlbomConfig)
  : list PlannedTool :=
  let tools := [catalogGetTool] in
  let usedNames : gset string := list_to_set (map name tools) in
  let tools := (foldl (fullToolStep config) (tools, usedNames) (endpoints catalog)).1 in
  if allowRawTool config then tools ++ [rawCallTool] else tools.

Section Signature.
Variable sha256Hex : string -> string.
Variable JSON_stringify : value -> string.
Variable localeCompare : string -> string -> Z.

Definition profile_value (p : ToolProfile) : value :=
  VStr (match p with compact => "compact" | full => "full" end).

Definition kind_value (k : ToolKind) : value :=
  VStr (match k with
        | catalog_get => "catalog_get"
        | text_generate => "text_generate"
        | image_generate => "image_generate"
        | image_edit => "image_edit"
        | audio_transcribe => "audio_transcribe"
        | audio_speech => "audio_speech"
        | video_generate => "video_generate"
        | safety_moderate => "safety_moderate"
        | embedding_create => "embedding_create"
        | full_endpoint => "full_endpoint"
        | raw_call => "raw_call"
        end).

Definition contentType_value (c : EndpointContentType) : value :=
  VStr (match c with json => "json" | multipart => "multipart" end).

(** [x] or [undefined] *)
Definition optional {A} (f : A -> value) (o : option A) : value :=
  match o with Some x => f x | None => VUndefined end.

(** The object that [buildToolSignature] maps a tool to. *)
Definition toolIdentity (tool : PlannedTool) : value :=
  VObj [("kind", kind_value (kind tool));
        ("name", VStr (name tool));
        ("endpointPath", optional VStr (endpointPath tool));
        ("translationEndpointPath",
          if bool_decide (kind tool = audio_transcribe)
          then optional VStr (translationEndpointPath tool) else VUndefined);
        ("contentType",
          if bool_decide (kind tool = full_endpoint)
          then optional contentType_value (toolContentType tool) else VUndefined)].

Definition buildToolSignature (p : ToolProfile) (tools : list PlannedTool) : string :=
  sha256Hex
    (stableStringify JSON_stringify localeCompare
       (VObj [("profile", profile_value p);
              ("tools", VArr (map toolIdentity tools))])).

Definition buildToolState (catalog : CatalogState) (config : AlbomConfig) : ToolState :=
  let tools :=
    match toolProfile config with
    | compact => makeCompactTools catalog config
    | full => makeFullTools catalog config
    end in
  mkToolState (toolProfile config) tools (buildToolSignature (toolProfile config) tools).

End Signature.

End Dedup.

(* ===================================================================== *)
(** ** httpClient.ts *)
(* ===================================================================== *)

Module HttpClient.
Import Js L402 Types.

(** *** Promises and the outside world *)

(** What a rejected promise carries: whether it is the [AbortError] of a
    timed out request, and its message. *)
Record JsError : Type := mkJsError {
  isAbortError : bool;
  errorMessage : string
}.

Inductive settled (A : Type) : Type :=
| Resolves (a : A)
| Rejects (e : JsError).
Arguments Resolves {A} a.
Arguments Rejects {A} e.

Inductive FormPart : Type :=
| PartText (text : string)
| PartFile (bytes : string) (mimeType : string) (fileName : string).

Inductive BodyInit : Type :=
| BodyText (text : string)
| BodyForm (parts : list (string * FormPart)).

Record RequestInit : Type := mkRequest {
  requestMethod : string;
  requestHeaders : gmap string string;
  requestBody : BodyInit
}.

(** A [Response]: its status, the header list of its [Headers] (the
    name and value pairs in the order and the spelling in which the
    response carries them; a name may occur more than once), and its body
    as [response.text()] and as [response.arrayBuffer()] give it. Reading
    the body is a promise of its own, which can reject after the status
    line has arrived. *)
Record Response : Type := mkHttpResponse {
  responseStatus : Z;
  headerEntries : list (string * string);
  text : settled string;
  arrayBuffer : settled string
}.

(** What the client does to the outside world, in order. [Attempt n] is
    the request of iteration [n] of the retry loop, [Replay] the request
    repeated after a payment. *)
Inductive Event : Type :=
| Attempt (attempt : nat) (url : string) (init : RequestInit)
| Replay (url : string) (init : RequestInit)
| Sleep (ms : Z)
| Pay (challenge : L402Challenge).

Abbreviation History := (list Event).

(** [L402Handler.handlePaymentRequired]: the wallet answers with a
    preimage or fails, and may take what happened so far into account. *)
Definition L402Handler : Type := History -> L402Challenge -> settled string.

(** The world the client runs in. The runtime: [JSON.parse], which
    throws on a text that is not JSON ([None]), and the base64 encoding of
    a buffer. The network and the clock: what [fetchFn] answers and what
    [Math.random()] returns, a number from 0 up to but not including 1,
    given what happened so far. *)
Record World : Type := mkWorld {
  JSON_parse : string -> option value;
  toBase64 : string -> string;
  fetchFn : History -> string -> RequestInit -> settled Response;
  random : History -> Q;
  random_range : forall h, (0 <= random h)%Q /\ (random h < 1)%Q
}.

(** *** The client *)

Record AlbomRuntimeError : Type := mkRuntimeError {
  errorCode : string;
  runtimeMessage : string;
  errorStatus : Z
}.

Inductive completion (A : Type) : Type :=
| Returns (a : A)
| Throws (e : AlbomRuntimeError).
Arguments Returns {A} a.
Arguments Throws {A} e.

Record L402AuthCredentials : Type := mkAuth {
  authMacaroon : string;
  authPreimage : string
}.

(** [maxRetries] comes from [parseInteger] with minimum 0: a natural
    number. *)
Record HttpClientOptions : Type := mkOptions {
  baseUrl : string;
  bearerToken : option string;
  l402Handler : option L402Handler;
  maxRetries : nat
}.

Record RequestOptions : Type := mkRequestOptions {
  allowL402Quote : bool;
  l402Auth : option L402AuthCredentials
}.

Definition isRetryableStatus (status : Z) : bool :=
  (status =? 429) || (500 <=? status).

Definition normalizeEndpointPath (endpointPath : string) : string :=
  if negb (startsWith endpointPath "/") then "/" +:+ endpointPath
  else endpointPath.

Definition composeEndpointUrl (baseUrl endpointPath : string) : string :=
  baseUrl +:+ "/openai" +:+ normalizeEndpointPath endpointPath.

(** [parts.join(", ")] *)
Fixpoint join_comma (parts : list string) : string :=
  match parts with
  | [] => EmptyString
  | [p] => p
  | p :: rest => p +:+ ", " +:+ join_comma rest
  end.

(** [Headers.prototype.get]: the values under the name, whatever its
    case, joined; [null] without any. A header name is a token, made of
    ASCII code units, on which [toLowerCase] is the lower-casing of the
    Fetch standard. *)
Definition headersGet (entries : list (string * string)) (name : string)
  : option string :=
  match filter (fun kv => toLowerCase kv.1 = toLowerCase name) entries with
  | [] => None
  | found => Some (join_comma (map snd found))
  end.

(** The values of the header list under a lower-case name, in order. *)
Definition headerValues (entries : list (string * string)) (name : string)
  : list string :=
  map snd (filter (fun kv => toLowerCase kv.1 = name) entries).

(** The names of the header list: lower-cased, each once, sorted. *)
Definition headerNames (entries : list (string * string)) : list string :=
  sort_strings (remove_dups (map (fun kv => toLowerCase kv.1) entries)).

(** [Headers.prototype.entries], the header list sorted and combined as
    the Fetch standard has it: one entry per lower-cased name, in the
    order of the names, with the values under that name joined as [get]
    joins them; only the [set-cookie] headers stay apart, one entry per
    value in their order. *)
Definition sortAndCombine (entries : list (string * string))
  : list (string * string) :=
  flat_map (fun name =>
              if bool_decide (name = "set-cookie")
              then map (fun v => (name, v)) (headerValues entries name)
              else [(name, join_comma (headerValues entries name))])
    (headerNames entries).

Definition headersToRecord (entries : list (string * string)) : gmap string string :=
  foldl (fun result kv => <[toLowerCase kv.1 := kv.2]> result) ∅
    (sortAndCombine entries).

(** [s.includes(part)] *)
Fixpoint includes (s part : string) : bool :=
  startsWith s part
  || match s with
     | EmptyString => false
     | String _ s' => includes s' part
     end.

Definition parseResponseData (world : World) (response : Response) : settled value :=
  let contentType :=
    default EmptyString
      (toLowerCase <$> headersGet (headerEntries response) "content-type") in
  if includes contentType "application/json" then
    match text response with
    | Rejects e => Rejects e
    | Resolves text =>
        if negb (truthy text) then Resolves (VObj [])
        else
          match JSON_parse world text with
          | Some parsed => Resolves parsed
          | None => Resolves (VObj [("raw", VStr text)])
          end
    end
  else if startsWith contentType "text/" then
    match text response with
    | Rejects e => Rejects e
    | Resolves text => Resolves (VStr text)
    end
  else
    match arrayBuffer response with
    | Rejects e => Rejects e
    | Resolves binary =>
        Resolves
          (VObj [("mime_type",
                  VStr (if truthy contentType then contentType
                        else "application/octet-stream"));
                 ("base64", VStr (toBase64 world binary));
                 ("size_bytes", VNum (Utils.number_of_nat (String.length binary)))])
    end.

Definition resolveHeaders (options : HttpClientOptions)
    (requestOptions : RequestOptions) : completion (gmap string string) :=
  let headers : gmap string string := {[ "accept" := "*/*" ]} in
  match l402Auth requestOptions with
  | Some auth =>
      Returns (<["authorization" :=
                   buildL402Authorization (authMacaroon auth) (authPreimage auth)]> headers)
  | None =>
      if truthy_opt (bearerToken options)
      then Returns (<["authorization" :=
                        "Bearer " +:+ default EmptyString (bearerToken options)]> headers)
      else if bool_decide (is_Some (l402Handler options)) then Returns headers
      else if allowL402Quote requestOptions then Returns headers
      else Throws (mkRuntimeError "missing_bearer_token"
                     "ALBOM_BEARER_TOKEN is not set. Configure it, set ALBOM_NWC_URL for auto-pay, or set allow_l402_quote=true to request a payment quote."
                     401)
  end.

(** [backoffMs], with the value of [Math.random()]. *)
Definition backoffMs (attempt : nat) (random : Q) : Z :=
  Math_round (inject_Z (200 * 2 ^ Z.of_nat attempt) + random * 80)%Q.

Definition normalized (status : Z) (entries : list (string * string)) (data : value)
  : NormalizedHttpResponse :=
  mkResponse status (headersToRecord entries) data.

Section Request.
Variable options : HttpClientOptions.
Variable world : World.
Variable url : string.
Variable requestInit : RequestInit.

Definition maxAttempts : nat := (maxRetries options + 1)%nat.

(** How one iteration of the loop of [requestWithRetries] ends. *)
Inductive iterationEnd : Type :=
| Return (result : completion NormalizedHttpResponse)
| Continue.

(** The [catch] block of the loop. *)
Definition catchBlock (attempt : nat) (error : JsError) (h : History)
  : iterationEnd * History :=
  let shouldRetry := bool_decide (attempt < maxAttempts - 1)%nat in
  if shouldRetry then (Continue, h ++ [Sleep (backoffMs attempt (random world h))])
  else
    let code := if isAbortError error then "upstream_timeout" else "network_error" in
    let status := if isAbortError error then 504 else 503 in
    (Return (Throws (mkRuntimeError code
                       ("HTTP request failed: " +:+ errorMessage error) status)), h).

(** The auto-pay branch, entered with the 402 response already read. *)
Definition autoPay (handler : L402Handler) (responseHeaders : gmap string string)
    (data : value) (h : History) : completion NormalizedHttpResponse * History :=
  let original := Returns (mkResponse 402 responseHeaders data) in
  match parseL402Challenge responseHeaders data with
  | Some challenge =>
      let paid := handler h challenge in
      let h := h ++ [Pay challenge] in
      match paid with
      | Rejects _ => (original, h)
      | Resolves preimage =>
          let retryHeaders :=
            <["authorization" := buildL402Authorization (macaroon challenge) preimage]>
              (requestHeaders requestInit) in
          let retryInit :=
            mkRequest (requestMethod requestInit) retryHeaders (requestBody requestInit) in
          let fetched := fetchFn world h url retryInit in
          let h := h ++ [Replay url retryInit] in
          match fetched with
          | Rejects _ => (original, h)
          | Resolves retryResponse =>
              match parseResponseData world retryResponse with
              | Rejects _ => (original, h)
              | Resolves retryData =>
                  (Returns (normalized (responseStatus retryResponse)
                              (headerEntries retryResponse) retryData), h)
              end
          end
      end
  | None => (original, h)
  end.

(** The body of the loop: the [try] block, with [catchBlock] wherever an
    awaited promise rejects. *)
Definition iteration (attempt : nat) (h : History) : iterationEnd * History :=
  let fetched := fetchFn world h url requestInit in
  let h := h ++ [Attempt attempt url requestInit] in
  match fetched with
  | Rejects error => catchBlock attempt error h
  | Resolves response =>
      match (if responseStatus response =? 402 then l402Handler options else None) with
      | Some handler =>
          let responseHeaders := headersToRecord (headerEntries response) in
          match parseResponseData world response with
          | Rejects error => catchBlock attempt error h
          | Resolves data =>
              let '(result, h) := autoPay handler responseHeaders data h in
              (Return result, h)
          end
      | None =>
          if isRetryableStatus (responseStatus response)
             && bool_decide (attempt < maxAttempts - 1)%nat
          then (Continue, h ++ [Sleep (backoffMs attempt (random world h))])
          else
            match parseResponseData world response with
            | Rejects error => catchBlock attempt error h
            | Resolves data =>
                (Return (Returns (normalized (responseStatus response)
                                    (headerEntries response) data)), h)
            end
      end
  end.

(** The loop [for (attempt = 0; attempt < maxAttempts; attempt += 1)];
    [todo] is [maxAttempts - attempt], the iterations that are left. *)
Fixpoint retryLoop (todo : nat) (attempt : nat) (h : History)
  : completion NormalizedHttpResponse * History :=
  match todo with
  | O =>
      (Throws (mkRuntimeError "internal_retry_error"
                 "Retry loop exited unexpectedly" 500), h)
  | S todo' =>
      match iteration attempt h with
      | (Return result, h') => (result, h')
      | (Continue, h') => retryLoop todo' (S attempt) h'
      end
  end.

Definition requestWithRetries (h : History)
  : completion NormalizedHttpResponse * History :=
  retryLoop maxAttempts 0 h.

End Request.

(** *** The three entry points *)

(** [JSON.stringify] and the conversion [String] of a number or a boolean
    are the runtime's. *)
Section Posts.
Variable JSON_stringify : value -> string.
Variable String_of : value -> string.
Variable options : HttpClientOptions.
Variable world : World.

Definition post (endpointPath : string) (headers : gmap string string)
    (body : BodyInit) (h : History) : completion NormalizedHttpResponse * History :=
  requestWithRetries options world
    (composeEndpointUrl (baseUrl options) endpointPath)
    (mkRequest "POST" headers body) h.

Definition postJson (endpointPath : string) (body : value)
    (requestOptions : RequestOptions) (h : History)
  : completion NormalizedHttpResponse * History :=
  match resolveHeaders options requestOptions with
  | Throws e => (Throws e, h)
  | Returns headers =>
      post endpointPath (<["content-type" := "application/json"]> headers)
        (BodyText (JSON_stringify body)) h
  end.

(** [FormData.prototype.set] *)
Definition form_set (k : string) (v : FormPart) (form : list (string * FormPart))
  : list (string * FormPart) :=
  map_set k v form.

Record PreparedUpload : Type := mkUpload {
  fieldName : string;
  uploadFileName : string;
  uploadMimeType : string;
  buffer : string
}.

(** The part a field of [postMultipart] becomes: none for [undefined]
    and [null], [String(value)] for a string, a number or a boolean, and
    [JSON.stringify(value)] for the rest. *)
Definition fieldPart (v : value) : option FormPart :=
  match v with
  | VUndefined | VNull => None
  | VStr s => Some (PartText s)
  | VNum _ | VBool _ => Some (PartText (String_of v))
  | _ => Some (PartText (JSON_stringify v))
  end.

Definition postMultipart (endpointPath : string) (fields : list (string * value))
    (uploads : list PreparedUpload) (requestOptions : RequestOptions) (h : History)
  : completion NormalizedHttpResponse * History :=
  match resolveHeaders options requestOptions with
  | Throws e => (Throws e, h)
  | Returns headers =>
      let formData :=
        foldl (fun form kv =>
                 match fieldPart kv.2 with
                 | Some part => form_set kv.1 part form
                 | None => form
                 end) [] fields in
      let formData :=
        foldl (fun form upload =>
                 form_set (fieldName upload)
                   (PartFile (buffer upload) (uploadMimeType upload)
                      (uploadFileName upload)) form) formData uploads in
      post endpointPath headers (BodyForm formData) h
  end.

Definition rawPost (endpointPath : string) (body : BodyInit)
    (contentType : option string) (requestOptions : RequestOptions) (h : History)
  : completion NormalizedHttpResponse * History :=
  match resolveHeaders options requestOptions with
  | Throws e => (Throws e, h)
  | Returns headers =>
      let headers :=
        if truthy_opt contentType
        then <["content-type" := default EmptyString contentType]> headers
        else headers in
      post endpointPath headers body h
  end.

End Posts.

End HttpClient.

(* ===================================================================== *)
(** ** tools/registry.ts *)
(* ===================================================================== *)

Module Registry.
Import Js Catalog Dedup.

(** What the registry does to the host's server, in order:
    [server.registerTool] (through [registerPlannedTool]), the [remove] of
    a handle, and [server.sendToolListChanged]. The server is the
    [ToolServerLike] interface: its three calls are taken to return
    normally, as those of the test server do. *)
Inductive ServerEvent : Type :=
| Registered (tool : PlannedTool)
| Removed (toolName : string)
| ToolListChanged.

Definition isToolListChanged (e : ServerEvent) : bool :=
  match e with ToolListChanged => true | _ => false end.

(** A [RegisteredToolHandle]: [remove] takes back the registration made
    under [handleName]. *)
Record RegisteredToolHandle : Type := mkHandle {
  handleName : string
}.

Record AlbomToolRegistry : Type := mkRegistry {
  toolState : option ToolState;
  catalogState : option CatalogState;
  registeredTools : list RegisteredToolHandle
}.

(** [new AlbomToolRegistry(options)] *)
Definition newRegistry : AlbomToolRegistry := mkRegistry None None [].

Record SyncOptions : Type := mkSyncOptions {
  forceRefresh : bool;
  emitNotification : bool
}.

Section Sync.
Variable sha256Hex : string -> string.
Variable JSON_stringify : value -> string.
Variable localeCompare : string -> string -> Z.
Variable config : AlbomConfig.

(** [catalogProvider.getState({ refresh })]: a catalog, or [None] when the
    promise rejects. *)
Variable getState : bool -> option CatalogState.

(** [server.isConnected()] at the time of the call. *)
Variable isConnected : bool.

Definition registerPlannedTool (tool : PlannedTool)
  : RegisteredToolHandle * ServerEvent :=
  (mkHandle (name tool), Registered tool).

Definition replaceRegisteredTools (nextToolState : ToolState)
    (r : AlbomToolRegistry) (log : list ServerEvent)
  : AlbomToolRegistry * list ServerEvent :=
  let log := log ++ map (fun existing => Removed (handleName existing)) (registeredTools r) in
  let registrations := map registerPlannedTool (tools nextToolState) in
  (mkRegistry (toolState r) (catalogState r) (map fst registrations),
   log ++ map snd registrations).

(** [syncTools]: [None] when it rejects, else its boolean, with the
    registry and the server's log afterwards. *)
Definition syncTools (options : SyncOptions) (r : AlbomToolRegistry)
    (log : list ServerEvent)
  : option bool * AlbomToolRegistry * list ServerEvent :=
  match getState (forceRefresh options) with
  | None => (None, r, log)
  | Some catalog =>
      let r := mkRegistry (toolState r) (Some catalog) (registeredTools r) in
      let nextToolState :=
        buildToolState sha256Hex JSON_stringify localeCompare catalog config in
      let changed :=
        negb (bool_decide (signature <$> toolState r = Some (signature nextToolState))) in
      if negb changed then (Some false, r, log)
      else
        let '(r, log) := replaceRegisteredTools nextToolState r log in
        let hadPreviousToolState := bool_decide (is_Some (toolState r)) in
        let r := mkRegistry (Some nextToolState) (catalogState r) (registeredTools r) in
        let log :=
          if emitNotification options && hadPreviousToolState && isConnected
          then log ++ [ToolListChanged]
          else log in
        (Some true, r, log)
  end.

Definition initialize (r : AlbomToolRegistry) (log : list ServerEvent)
  : option unit * AlbomToolRegistry * list ServerEvent :=
  let '(result, r, log) := syncTools (mkSyncOptions true false) r log in
  ((fun _ => tt) <$> result, r, log).

Definition dispose (r : AlbomToolRegistry) (log : list ServerEvent)
  : AlbomToolRegistry * list ServerEvent :=
  (mkRegistry (toolState r) (catalogState r) [],
   log ++ map (fun handle => Removed (handleName handle)) (registeredTools r)).

End Sync.

End Registry.

(* ===================================================================== *)
(** ** The test of the registry: the server it is given *)
(* ===================================================================== *)

Module FakeServer.
Import Js Catalog Dedup Registry.

(** [FakeServer], the [ToolServerLike] that the tests hand to the
    registry: it keeps the registered names in a [Set] and counts the
    notifications. Its [connected] flag is what [isConnected] answers;
    the registry only reads it. *)
Record FakeServer : Type := mkFakeServer {
  registeredNames : gset string;
  toolListChangedCount : nat
}.

(** [new FakeServer()] *)
Definition newFakeServer : FakeServer := mkFakeServer ∅ 0.

(** [registerTool(name)] adds the name to the set, whether it is there
    or not; the [remove] of the handle it returns deletes the name. *)
Definition registerTool (toolName : string) (s : FakeServer) : FakeServer :=
  mkFakeServer ({[ toolName ]} ∪ registeredNames s) (toolListChangedCount s).

Definition remove (toolName : string) (s : FakeServer) : FakeServer :=
  mkFakeServer (registeredNames s ∖ {[ toolName ]}) (toolListChangedCount s).

Definition sendToolListChanged (s : FakeServer) : FakeServer :=
  mkFakeServer (registeredNames s) (toolListChangedCount s + 1).

(** The server after the calls that the registry made on it. *)
Definition serve (s : FakeServer) (e : ServerEvent) : FakeServer :=
  match e with
  | Registered tool => registerTool (name tool) s
  | Removed toolName => remove toolName s
  | ToolListChanged => sendToolListChanged s
  end.

Definition afterLog (log : list ServerEvent) : FakeServer :=
  foldl serve newFakeServer log.

End FakeServer.

(* ===================================================================== *)
(** ** catalog.ts *)
(* ===================================================================== *)

Module Normalizer.
Import Js Utils Catalog Dedup.

(** *** The catalog as the schema admits it

    A [Record<string, T>] that the code enumerates is the list of its
    entries in the order of [Object.keys]. The keys that the schema lets
    pass and the code never reads are left out. *)

Inductive PriceType : Type := per_model | flat.

Record CatalogModelPrice : Type := mkModelPrice {
  modelPriceSats : float;
  modelPriceUsdCents : option float
}.

Record CatalogEndpointExample : Type := mkExample {
  content_type : option EndpointContentType;
  body : option (list (string * value));
  fields : option (list (string * value));
  file_field : option string;
  file_name : option string
}.

Record CatalogEndpoint : Type := mkCatalogEndpoint {
  rawPath : string;
  rawMethod : string;
  price_type : PriceType;
  rawDescription : option string;
  example : option CatalogEndpointExample;
  rawModels : option (list (string * CatalogModelPrice));
  price_sats : option float;
  price_usd_cents : option float
}.

Record CatalogApi : Type := mkApi {
  apiTitle : string;
  apiEndpoints : list CatalogEndpoint
}.

Record CatalogResponse : Type := mkCatalogResponse {
  btc_usd : option float;
  btc_usd_updated_at : option string;
  apis : list (string * CatalogApi)
}.

#[global] Instance PriceType_eq_dec : EqDecision PriceType.
Proof. solve_decision. Defined.

(** *** parseCatalog *)

(** The two checks of the loop body: the message of the error thrown, if
    any. *)
Definition checkEndpoint (endpoint : CatalogEndpoint) : option string :=
  if bool_decide (price_type endpoint = per_model)
     && match rawModels endpoint with
        | None => true
        | Some models => bool_decide (length models = 0%nat)
        end
  then Some ("Catalog endpoint " +:+ rawPath endpoint
             +:+ " is per_model but has no models")
  else if bool_decide (price_type endpoint = flat)
          && negb (bool_decide (is_Some (price_sats endpoint)))
  then Some ("Catalog endpoint " +:+ rawPath endpoint
             +:+ " is flat but has no price_sats")
  else None.

(** The inner loop, over the endpoints of one API. *)
Fixpoint checkEndpoints (endpoints : list CatalogEndpoint) : option string :=
  match endpoints with
  | [] => None
  | endpoint :: rest =>
      match checkEndpoint endpoint with
      | Some message => Some message
      | None => checkEndpoints rest
      end
  end.

(** The outer loop, over [Object.values(parsed.apis)]. *)
Fixpoint checkApis (apis : list (string * CatalogApi)) : option string :=
  match apis with
  | [] => None
  | (_, api) :: rest =>
      match checkEndpoints (apiEndpoints api) with
      | Some message => Some message
      | None => checkApis rest
      end
  end.

(** [parseCatalog]; [catalogSchema_parse] is the parser that zod derives
    from the schema, which throws on an input that does not match. A thrown
    error is its message. *)
Definition parseCatalog (catalogSchema_parse : value -> string + CatalogResponse)
    (input : value) : string + CatalogResponse :=
  match catalogSchema_parse input with
  | inl message => inl message
  | inr parsed =>
      match checkApis (apis parsed) with
      | Some message => inl message
      | None => inr parsed
      end
  end.

(** *** The pieces of a descriptor *)

Definition COSMETIC_ARG_KEYS : list string :=
  ["e2e"; "required_field"; "invalid_body"; "error_keyword"; "file_comment";
   "file_name"; "file_field"; "content_type"; "require_error_message"].

Definition inferContentType (endpoint : CatalogEndpoint) : EndpointContentType :=
  match example endpoint with
  | Some ex =>
      match content_type ex with
      | Some declared => declared
      | None =>
          match fields ex with
          | Some _ => multipart
          | None => json
          end
      end
  | None => json
  end.

Definition extractArgumentKeys (endpoint : CatalogEndpoint)
    (contentType : EndpointContentType) : list string :=
  let source :=
    match example endpoint with
    | Some ex => match contentType with multipart => fields ex | json => body ex end
    | None => None
    end in
  match source with
  | None => []
  | Some entries =>
      sort_strings
        (filter (fun key => key ∉ COSMETIC_ARG_KEYS) (map fst entries))
  end.

Definition classifyFamily (path : string) : string :=
  if startsWith path "/v1/chat" || startsWith path "/v1/responses"
  then "text-generation"
  else if startsWith path "/v1/images" then "image"
  else if startsWith path "/v1/audio" then "audio"
  else if startsWith path "/v1/video" then "video"
  else if startsWith path "/v1/moderations" then "moderation"
  else if startsWith path "/v1/embeddings" then "embedding"
  else
    default "other"
      (head (filter (fun segment => truthy segment = true)
               (split_slash EmptyString path))).

(** [Object.keys(endpoint.models ?? {}).filter(...).sort()] *)
Definition modelKeys (endpoint : CatalogEndpoint) : list string :=
  sort_strings
    (filter (fun model => model ≠ "_default")
       (map fst (default [] (rawModels endpoint)))).

(** [String.prototype.toUpperCase] on one code unit: a-z and the Latin-1
    small letters U+00E0..U+00FE without the division sign; the sharp s
    becomes two letters. The capitals of the micro sign and of the y with
    diaeresis lie beyond the code units of the model; the two are left as
    they are. *)
Definition upper_char (c : ascii) : string :=
  if between 97 122 c || (between 224 254 c && negb (code c =? 247)%N)
  then String (ascii_of_N (code c - 32)) EmptyString
  else if (code c =? 223)%N then "SS"
  else String c EmptyString.

Fixpoint toUpperCase (s : string) : string :=
  match s with
  | EmptyString => EmptyString
  | String c s' => upper_char c +:+ toUpperCase s'
  end.

Definition strings_value (l : list string) : value := VArr (map VStr l).

Definition priceType_value (p : PriceType) : value :=
  VStr (match p with per_model => "per_model" | flat => "flat" end).

(** The descriptor of an endpoint: the fields that the tool synthesis
    reads ([descriptor]) and the rest. *)
Record EndpointRecord : Type := mkRecord {
  descriptor : EndpointDescriptor;
  priceType : PriceType;
  argumentKeys : list string;
  modelPrices : list (string * CatalogModelPrice);
  defaultModel : option string;
  flatPriceSats : option float;
  endpointSignatureOf : string;
  raw : CatalogEndpoint
}.

Record CatalogSummary : Type := mkSummary {
  apiCount : nat;
  endpointCount : nat;
  perModelCount : nat;
  flatCount : nat;
  endpointPaths : list string;
  modelCountsByPath : gmap string nat
}.

(** [CatalogState] in full; [Catalog.CatalogState] is its view for the
    tool synthesis. *)
Record NormalizedCatalog : Type := mkNormalized {
  rawCatalog : CatalogResponse;
  records : list EndpointRecord;
  fetchedAt : string;
  hash : string;
  summary : CatalogSummary
}.

Definition catalogState (n : NormalizedCatalog) : CatalogState :=
  mkCatalog (map descriptor (records n)).

Section Normalize.
Variable sha256Hex : string -> string.
Variable JSON_stringify : value -> string.
Variable localeCompare : string -> string -> Z.

Definition endpointSignature (endpoint : CatalogEndpoint)
    (contentType : EndpointContentType) (argumentKeys : list string) : string :=
  sha256Hex
    (stableStringify JSON_stringify localeCompare
       (VObj [("method", VStr (toUpperCase (rawMethod endpoint)));
              ("contentType", contentType_value contentType);
              ("argumentKeys", strings_value argumentKeys);
              ("models", strings_value (modelKeys endpoint));
              ("family", VStr (classifyFamily (rawPath endpoint)))])).

(** The body of the inner loop of [normalizeCatalog]. *)
Definition describeEndpoint (apiKey : string) (api : CatalogApi)
    (endpoint : CatalogEndpoint) : EndpointRecord :=
  let contentType := inferContentType endpoint in
  let argumentKeys := extractArgumentKeys endpoint contentType in
  let models := modelKeys endpoint in
  mkRecord
    (mkEndpoint apiKey (apiTitle api) (rawPath endpoint)
       (toUpperCase (rawMethod endpoint))
       (default (toUpperCase (rawMethod endpoint) +:+ " " +:+ rawPath endpoint)
          (rawDescription endpoint))
       contentType models
       (match example endpoint with Some ex => file_field ex | None => None end)
       (classifyFamily (rawPath endpoint)))
    (price_type endpoint) argumentKeys
    (default [] (rawModels endpoint))
    (head models)
    (price_sats endpoint)
    (endpointSignature endpoint contentType argumentKeys)
    endpoint.

(** The comparator of [endpoints.sort]. *)
Definition compareRecords (a b : EndpointRecord) : Z :=
  let byPath := localeCompare (path (descriptor a)) (path (descriptor b)) in
  if negb (byPath =? 0) then byPath
  else localeCompare (method (descriptor a)) (method (descriptor b)).

Fixpoint insert_record (e : EndpointRecord) (l : list EndpointRecord)
  : list EndpointRecord :=
  match l with
  | [] => [e]
  | e' :: l' => if 0 <? compareRecords e e' then e' :: insert_record e l' else e :: l
  end.

Definition sort_records (l : list EndpointRecord) : list EndpointRecord :=
  foldr insert_record [] l.

(** The object that the hash maps an endpoint to. *)
Definition hashEntry (e : EndpointRecord) : value :=
  VObj [("apiKey", VStr (apiKey (descriptor e)));
        ("path", VStr (path (descriptor e)));
        ("method", VStr (method (descriptor e)));
        ("signature", VStr (endpointSignatureOf e));
        ("priceType", priceType_value (priceType e));
        ("flatPriceSats", optional VNum (flatPriceSats e));
        ("models", strings_value (models (descriptor e)))].

Definition normalizeCatalog (catalog : CatalogResponse) (fetchedAt : string)
  : NormalizedCatalog :=
  let endpoints :=
    flat_map (fun entry => map (describeEndpoint entry.1 entry.2) (apiEndpoints entry.2))
      (apis catalog) in
  let endpoints := sort_records endpoints in
  let hash :=
    sha256Hex
      (stableStringify JSON_stringify localeCompare (VArr (map hashEntry endpoints))) in
  mkNormalized catalog endpoints fetchedAt hash
    (mkSummary
       (length (apis catalog))
       (length endpoints)
       (length (filter (fun e => priceType e = per_model) endpoints))
       (length (filter (fun e => priceType e = flat) endpoints))
       (map (fun e => path (descriptor e)) endpoints)
       (foldl (fun counts e =>
                 <[path (descriptor e) := length (models (descriptor e))]> counts)
          ∅ endpoints)).

End Normalize.

End Normalizer.

(* ===================================================================== *)
(** ** catalog.ts: fetchCatalog and CatalogManager *)
(* ===================================================================== *)

Module Manager.
Import Js HttpClient Normalizer.

(** Why a catalog fetch rejects, by the place of the throw: no fetch
    implementation; the request or the reading of its body rejected (an
    [AbortError] after the timeout included); a status outside 200..299,
    with the first 250 code units of the body; a body that is not JSON; a
    catalog that [parseCatalog] refuses, with its message. *)
Inductive CatalogFailure : Type :=
| NoFetchImplementation
| RequestRejected (error : JsError)
| RequestFailed (status : Z) (excerpt : string)
| InvalidJson
| InvalidCatalog (message : string).

Section Fetch.
Variable JSON_parse : string -> option value.
Variable catalogSchema_parse : value -> string + CatalogResponse.

(** [fetchCatalog]; [fetchFn] answers the GET request for the URL. *)
Definition fetchCatalog (fetchFn : option (string -> settled Response))
    (baseUrl : string) : CatalogFailure + CatalogResponse :=
  match fetchFn with
  | None => inl NoFetchImplementation
  | Some fetch =>
      match fetch (baseUrl +:+ "/api/catalog") with
      | Rejects error => inl (RequestRejected error)
      | Resolves response =>
          match text response with
          | Rejects error => inl (RequestRejected error)
          | Resolves bodyText =>
              if negb ((200 <=? responseStatus response)
                       && (responseStatus response <=? 299))
              then inl (RequestFailed (responseStatus response)
                          (String.substring 0 250 bodyText))
              else
                match (if truthy bodyText then JSON_parse bodyText
                       else Some (VObj [])) with
                | None => inl InvalidJson
                | Some parsedBody =>
                    match parseCatalog catalogSchema_parse parsedBody with
                    | inl message => inl (InvalidCatalog message)
                    | inr catalog => inr catalog
                    end
                end
          end
      end
  end.

Variable sha256Hex : string -> string.
Variable JSON_stringify : value -> string.
Variable localeCompare : string -> string -> Z.

Record ManagerOptions : Type := mkManagerOptions {
  managerBaseUrl : string;
  ttlMs : Z
}.

(** The fields of a [CatalogManager]. Its calls are taken one after the
    other, each awaited before the next: [inflight] is then undefined
    whenever a call starts, and is left out. *)
Record CatalogManager : Type := mkManager {
  state : option NormalizedCatalog;
  lastFetchMs : Z
}.

Definition newManager : CatalogManager := mkManager None 0.

(** What a call finds outside: the fetch implementation and its answer,
    [Date.now()] when the call starts, the time stamp that
    [normalizeCatalog] takes, and [Date.now()] when the state is stored. *)
Record Outside : Type := mkOutside {
  fetchFn : option (string -> settled Response);
  nowStart : Z;
  isoNow : string;
  nowStored : Z
}.

(** [fetchAndNormalize]: the result, the manager afterwards and the
    number of requests made. *)
Definition fetchAndNormalize (options : ManagerOptions) (outside : Outside)
    (m : CatalogManager) : (CatalogFailure + NormalizedCatalog) * CatalogManager * nat :=
  let requests := match fetchFn outside with Some _ => 1%nat | None => 0%nat end in
  match fetchCatalog (fetchFn outside) (managerBaseUrl options) with
  | inl failure => (inl failure, m, requests)
  | inr rawCatalog =>
      let state :=
        normalizeCatalog sha256Hex JSON_stringify localeCompare rawCatalog
          (isoNow outside) in
      (inr state, mkManager (Some state) (nowStored outside), requests)
  end.

Definition getState (options : ManagerOptions) (refresh : bool) (outside : Outside)
    (m : CatalogManager) : (CatalogFailure + NormalizedCatalog) * CatalogManager * nat :=
  let shouldRefresh :=
    refresh
    || negb (bool_decide (is_Some (state m)))
    || (ttlMs options <? nowStart outside - lastFetchMs m) in
  match (if shouldRefresh then None else state m) with
  | Some current => (inr current, m, 0%nat)
  | None => fetchAndNormalize options outside m
  end.

Definition initialize (options : ManagerOptions) (outside : Outside)
    (m : CatalogManager) : (CatalogFailure + NormalizedCatalog) * CatalogManager * nat :=
  getState options true outside m.

Definition snapshot (m : CatalogManager) : option NormalizedCatalog := state m.

(** [refresh]: the new state with the [changed] flag. *)
Definition refresh (options : ManagerOptions) (outside : Outside) (m : CatalogManager)
  : (CatalogFailure + NormalizedCatalog * bool) * CatalogManager * nat :=
  let previousHash := hash <$> state m in
  match getState options true outside m with
  | (inl failure, m', requests) => (inl failure, m', requests)
  | (inr state, m', requests) =>
      (inr (state, negb (bool_decide (previousHash = Some (hash state)))),
       m', requests)
  end.

End Fetch.

End Manager.

(* ===================================================================== *)
(** ** results.ts (the summary line) and tools/registration.ts *)
(* ===================================================================== *)

Module Registration.
Import Js L402 Types Results Catalog HttpClient.

(** [summarizeResult]; [String_of_number] is the conversion [String] of a
    number, which the runtime gives. *)
Definition summarizeResult (String_of_number : float -> string)
    (result : AlbomToolResult) : string :=
  match result with
  | Ok r =>
      let modelSuffix :=
        if truthy_opt (successModel r)
        then " model=" +:+ default EmptyString (successModel r)
        else EmptyString in
      let priceSuffix :=
        match price_sats r with
        | Some price => " price_sats=" +:+ String_of_number price
        | None => EmptyString
        end in
      "OK " +:+ string_of_status (successStatus r) +:+ " endpoint="
        +:+ successEndpoint r +:+ modelSuffix +:+ priceSuffix
  | NotOk e =>
      "ERROR " +:+ string_of_status (Types.errorStatus e) +:+ " endpoint="
        +:+ errorEndpoint e +:+ " code=" +:+ code (error e)
        +:+ " message=" +:+ message (error e)
  end.

(** The payment modes that server.ts tells apart. *)
Inductive PaymentMode : Type := bearer | nwc | l402_passthrough.

#[global] Instance PaymentMode_eq_dec : EqDecision PaymentMode.
Proof. solve_decision. Defined.

(** [asRecord] *)
Definition asRecord (v : value) : value :=
  if isRecord v then v else VObj [].

(** [obj[key]] on an error payload, which is [code], [message] and the
    keys spread after them. *)
Definition payloadProp (payload : AlbomErrorPayload) (key : string) : option value :=
  match assoc key (metadata payload) with
  | Some v => Some v
  | None =>
      if bool_decide (key = "code") then Some (VStr (code payload))
      else if bool_decide (key = "message") then Some (VStr (message payload))
      else None
  end.

Definition extractString (payload : AlbomErrorPayload) (key : string) : option string :=
  asString (payloadProp payload key).

Definition extractMacaroon (payload : AlbomErrorPayload) : option string :=
  extractString payload "macaroon".

Definition extractNumber (payload : AlbomErrorPayload) (key : string) : option float :=
  asNumber (payloadProp payload key).

(** What the callback of a tool resolves with: [structuredContent] is the
    result of the executor, or the literal object of the unknown-payment
    answer. *)
Inductive StructuredContent : Type :=
| ResultContent (result : AlbomToolResult)
| ErrorContent (status : Z) (code message : string).

Record ToolResponse : Type := mkToolResponse {
  structuredContent : StructuredContent;
  content : list string;
  isError : bool
}.

Definition unknownPayment : ToolResponse :=
  mkToolResponse
    (ErrorContent 400 "unknown_payment"
       "No cached L402 token for this preimage. Make a call without payment_preimage first to get an invoice.")
    ["Unknown payment — call without payment_preimage first to get an invoice."]
    true.

(** [delete obj.key] and [obj.key = v] on the object of the arguments. *)
Definition without (key : string) (fields : list (string * value))
  : list (string * value) :=
  filter (fun kv => kv.1 ≠ key) fields.

(** The clock as one call of the callback reads it: in [tokenCache.get],
    and in [tokenCache.set] for the purge and for the new entry. *)
Record Clock : Type := mkClock {
  nowGet : Z;
  nowPurge : Z;
  nowInsert : Z
}.

Section Callback.
Context {E : Type}.
Variable paymentHashFromPreimage : string -> string.
Variable String_of_number : float -> string.

(** [executor.execute(tool, typedArgs, l402Auth)]: the result it resolves
    with, or what it rejects with. *)
Variable execute :
  PlannedTool -> value -> option L402AuthCredentials -> E + AlbomToolResult.

(** The last step of the callback. *)
Definition respond (result : AlbomToolResult) : ToolResponse :=
  mkToolResponse (ResultContent result)
    [summarizeResult String_of_number result]
    (match result with Ok _ => false | NotOk _ => true end).

(** The caching of the macaroon of a 402 result. *)
Definition cacheChallenge (clock : Clock) (result : AlbomToolResult)
    (l402Context : option L402TokenCache) : option L402TokenCache :=
  match result, l402Context with
  | NotOk e, Some tokenCache =>
      if Types.errorStatus e =? 402 then
        match extractMacaroon (error e), extractString (error e) "payment_hash",
              extractString (error e) "invoice" with
        | Some macaroon, Some paymentHash, Some invoice =>
            Some (set (nowPurge clock) (nowInsert clock)
                    (mkChallenge macaroon invoice paymentHash
                       (default 0%float (extractNumber (error e) "amount_sats")))
                    None tokenCache)
        | _, _, _ => l402Context
        end
      else l402Context
  | _, _ => l402Context
  end.

(** The part of the callback from [executor.execute] on. *)
Definition run (tool : PlannedTool) (clock : Clock) (typedArgs : value)
    (l402Auth : option L402AuthCredentials) (l402Context : option L402TokenCache)
  : (E + ToolResponse) * option L402TokenCache :=
  match execute tool typedArgs l402Auth with
  | inl rejection => (inl rejection, l402Context)
  | inr result => (inr (respond result), cacheChallenge clock result l402Context)
  end.

(** The callback that [registerPlannedTool] registers, for arguments
    that are an object, as the input schema of a tool makes them, or no
    object at all. On an array the callback would set a named property;
    an array is outside the model ([None]). The result comes with the
    token cache of the context afterwards. *)
Definition callback (tool : PlannedTool) (paymentMode : PaymentMode)
    (l402Context : option L402TokenCache) (clock : Clock) (args : value)
  : option ((E + ToolResponse) * option L402TokenCache) :=
  match asRecord args with
  | VObj fields =>
      let isL402Passthrough := bool_decide (paymentMode = l402_passthrough) in
      let isPaidTool := negb (bool_decide (kind tool = catalog_get)) in
      let forced := map_set "allow_l402_quote" (VBool true) fields in
      if isL402Passthrough && isPaidTool then
        match assoc "payment_preimage" fields with
        | Some (VStr preimage) =>
            let paymentHash := paymentHashFromPreimage preimage in
            let '(cached, l402Context) :=
              match l402Context with
              | Some tokenCache =>
                  let '(entry, tokenCache) := get (nowGet clock) paymentHash tokenCache in
                  (entry, Some tokenCache)
              | None => (None, None)
              end in
            match cached with
            | None => Some (inr unknownPayment, l402Context)
            | Some entry =>
                Some (run tool clock (VObj (without "payment_preimage" fields))
                        (Some (mkAuth (entryMacaroon entry) preimage)) l402Context)
            end
        | _ => Some (run tool clock (VObj forced) None l402Context)
        end
      else Some (run tool clock (VObj fields) None l402Context)
  | _ => None
  end.

End Callback.

End Registration.

(* ===================================================================== *)
(** ** uploads.ts *)
(* ===================================================================== *)

Module Uploads.
Import Js HttpClient.

(** An [AlbomRuntimeError] with its [details]; a detail is a number of
    bytes or a text. *)
Inductive Detail : Type :=
| DetailNumber (n : Z)
| DetailText (s : string).

Record UploadError : Type := mkUploadError {
  uploadCode : string;
  uploadMessage : string;
  uploadStatus : Z;
  details : list (string * Detail)
}.

(** [String.prototype.trim]: the white space of the model at both ends is
    removed. *)
Fixpoint trimStart (s : string) : string :=
  match s with
  | EmptyString => EmptyString
  | String c s' => if is_space c then trimStart s' else s
  end.

Fixpoint trimEnd (s : string) : string :=
  match s with
  | EmptyString => EmptyString
  | String c s' =>
      let r := trimEnd s' in
      if is_space c && negb (truthy r) then EmptyString else String c r
  end.

Definition trim (s : string) : string := trimEnd (trimStart s).

(** [a?.trim() || b] *)
Definition trimmedOr (a : option string) (b : string) : string :=
  match a with
  | Some s => if truthy (trim s) then trim s else b
  | None => b
  end.

Definition EXTENSION_TO_MIME : list (string * string) :=
  [(".png", "image/png"); (".jpg", "image/jpeg"); (".jpeg", "image/jpeg");
   (".webp", "image/webp"); (".gif", "image/gif"); (".mp3", "audio/mpeg");
   (".wav", "audio/wav"); (".m4a", "audio/mp4"); (".ogg", "audio/ogg");
   (".flac", "audio/flac")].

(** [s.indexOf(",")], and the rest of [s] after that index. *)
Fixpoint afterComma (index : nat) (s : string) : option (nat * string) :=
  match s with
  | EmptyString => None
  | String c s' => if is_comma c then Some (index, s') else afterComma (S index) s'
  end.

Section Runtime.

(** node:path gives [extname] and [basename]; an extension is empty or
    starts with a dot, so that it names no property that the table
    inherits. [Buffer.from(text, "base64")] is the decoder of the runtime,
    [readFileFn] the file system. *)
Variable extname : string -> string.
Variable basename : string -> string.
Variable fromBase64 : string -> string.
Variable readFileFn : string -> settled string.

Definition inferredMimeType (fileName : string) : string :=
  let ext := toLowerCase (extname fileName) in
  default "application/octet-stream" (assoc ext EXTENSION_TO_MIME).

Definition decodeBase64 (value : string) : UploadError + string :=
  let trimmed := trim value in
  if negb (truthy trimmed)
  then inl (mkUploadError "invalid_base64" "Base64 payload is empty" 400 [])
  else
    let normalized :=
      match afterComma 0 trimmed with
      | Some (commaIndex, rest) =>
          if startsWith trimmed "data:" && bool_decide (0 < commaIndex)%nat
          then rest else trimmed
      | None => trimmed
      end in
    let buffer := fromBase64 normalized in
    if bool_decide (String.length buffer = 0%nat)
    then inl (mkUploadError "invalid_base64" "Base64 payload could not be decoded"
                400 [])
    else inr buffer.

(** [validateUploadSize]: the error thrown, if any. *)
Definition validateUploadSize (sizeBytes : nat) (maxBytes : Z) (label : string)
  : option UploadError :=
  if Z.of_nat sizeBytes <=? 0
  then Some (mkUploadError "empty_upload" (label +:+ " is empty") 400 [])
  else if maxBytes <? Z.of_nat sizeBytes
  then Some (mkUploadError "file_too_large" (label +:+ " exceeds max upload size") 413
               [("max_bytes", DetailNumber maxBytes);
                ("size_bytes", DetailNumber (Z.of_nat sizeBytes))])
  else None.

Record PrepareUploadOptions : Type := mkPrepare {
  optFieldName : string;
  label : string;
  filePath : option string;
  fileBase64 : option string;
  fileName : option string;
  mimeType : option string;
  maxBytes : Z;
  required : bool
}.

(** A [PreparedUpload] with its [sizeBytes], which the HTTP client does
    not read. *)
Record Prepared : Type := mkPrepared {
  upload : PreparedUpload;
  sizeBytes : nat
}.

(** [prepareUpload]: the upload, [None] for [undefined], or the error it
    rejects with; and the files it read. *)
Definition prepareUpload (options : PrepareUploadOptions)
  : (UploadError + option Prepared) * list string :=
  let sourceCount :=
    ((if truthy_opt (filePath options) then 1 else 0)
     + (if truthy_opt (fileBase64 options) then 1 else 0))%nat in
  if bool_decide (sourceCount = 0%nat) then
    if required options
    then (inl (mkUploadError "missing_file"
                 (label options +:+ " requires exactly one of file_path or file_base64")
                 400 []), [])
    else (inr None, [])
  else if bool_decide (1 < sourceCount)%nat then
    (inl (mkUploadError "invalid_file_input"
            (label options +:+ " requires exactly one of file_path or file_base64")
            400 []), [])
  else
    let finish (buffer resolvedFileName : string) (reads : list string) :=
      match validateUploadSize (String.length buffer) (maxBytes options)
              (label options) with
      | Some error => (inl error, reads)
      | None =>
          (inr (Some (mkPrepared
                        (mkUpload (optFieldName options) resolvedFileName
                           (trimmedOr (mimeType options)
                              (inferredMimeType resolvedFileName))
                           buffer)
                        (String.length buffer))), reads)
      end in
    if truthy_opt (filePath options) then
      let path := default EmptyString (filePath options) in
      let resolvedFileName := trimmedOr (fileName options) (basename path) in
      match readFileFn path with
      | Rejects error =>
          (inl (mkUploadError "file_read_failed"
                  ("Could not read " +:+ label options +:+ " from " +:+ path) 400
                  [("cause", DetailText (errorMessage error))]), [path])
      | Resolves buffer => finish buffer resolvedFileName [path]
      end
    else
      match decodeBase64 (default EmptyString (fileBase64 options)) with
      | inl error => (inl error, [])
      | inr buffer =>
          finish buffer
            (trimmedOr (fileName options) (optFieldName options +:+ ".bin")) []
      end.

End Runtime.

End Uploads.

(* ===================================================================== *)
(** ** config.ts *)
(* ===================================================================== *)

Module Config.
Import Js Catalog Uploads.

(** [AlbomConfig] in full. The numbers are those that [Number.parseInt]
    gives: binary64 numbers. *)
Record AlbomSettings : Type := mkSettings {
  baseUrl : string;
  bearerToken : option string;
  toolProfile : ToolProfile;
  includeModeration : bool;
  includeEmbeddings : bool;
  includeVideo : bool;
  allowRawTool : bool;
  catalogTtlMs : float;
  httpTimeoutMs : float;
  maxRetries : float;
  maxUploadBytes : float
}.

(** The part of the configuration that the tool synthesis reads. *)
Definition toolConfig (s : AlbomSettings) : AlbomConfig :=
  mkConfig (toolProfile s) (includeModeration s) (includeEmbeddings s)
    (includeVideo s) (allowRawTool s).

(** A thrown [Error] is its message. *)
Definition parseBoolean (value : option string) : string + option bool :=
  match value with
  | None => inr None
  | Some v =>
      let normalized := toLowerCase (trim v) in
      if bool_decide (normalized ∈ ["1"; "true"; "yes"; "on"]) then inr (Some true)
      else if bool_decide (normalized ∈ ["0"; "false"; "no"; "off"]) then inr (Some false)
      else inl ("Invalid boolean value: " +:+ v)
  end.

Definition parseToolProfile (value : option string) : string + ToolProfile :=
  if negb (truthy_opt value) then inr compact
  else
    let v := default EmptyString value in
    let normalized := toLowerCase (trim v) in
    if bool_decide (normalized = "compact") then inr compact
    else if bool_decide (normalized = "full") then inr full
    else inl ("Invalid ALBOM_TOOL_PROFILE value: " +:+ v).

(** [replace(/\/+$/, empty)]: the slashes at the end are removed. *)
Fixpoint dropTrailingSlashes (s : string) : string :=
  match s with
  | EmptyString => EmptyString
  | String c s' =>
      let r := dropTrailingSlashes s' in
      if is_slash c && negb (truthy r) then EmptyString else String c r
  end.

Definition normalizeBaseUrl (baseUrl : string) : string :=
  dropTrailingSlashes (trim baseUrl).

Section Load.

(** [Number.parseInt(text, 10)], which the runtime gives. *)
Variable parseInt10 : string -> float.

Definition parseInteger (value : option string) (fallback minimum : float)
  : string + float :=
  match value with
  | None => inr fallback
  | Some v =>
      let parsed := parseInt10 v in
      if negb (isFinite parsed) || PrimFloat.is_nan parsed
         || PrimFloat.ltb parsed minimum
      then inl ("Invalid integer value: " +:+ v)
      else inr parsed
  end.

(** [loadConfig]; the parsers run in the order of the source, and the
    first error thrown is the error of the call. *)
Definition loadConfig (env : gmap string string) : string + AlbomSettings :=
  match parseToolProfile (env !! "ALBOM_TOOL_PROFILE") with
  | inl message => inl message
  | inr toolProfile =>
  match parseBoolean (env !! "ALBOM_INCLUDE_MODERATION") with
  | inl message => inl message
  | inr includeModerationFromEnv =>
  match parseBoolean (env !! "ALBOM_INCLUDE_EMBEDDINGS") with
  | inl message => inl message
  | inr includeEmbeddingsFromEnv =>
  let baseUrl :=
    normalizeBaseUrl
      (default "https://alittlebitofmoney.com" (env !! "ALBOM_BASE_URL")) in
  let bearerToken :=
    match env !! "ALBOM_BEARER_TOKEN" with
    | Some token => if truthy (trim token) then Some (trim token) else None
    | None => None
    end in
  let byProfile := bool_decide (toolProfile = full) in
  match parseBoolean (env !! "ALBOM_INCLUDE_VIDEO") with
  | inl message => inl message
  | inr includeVideo =>
  match parseBoolean (env !! "ALBOM_ALLOW_RAW_TOOL") with
  | inl message => inl message
  | inr allowRawTool =>
  match parseInteger (env !! "ALBOM_CATALOG_TTL_MS") 300000%float 1000%float with
  | inl message => inl message
  | inr catalogTtlMs =>
  match parseInteger (env !! "ALBOM_HTTP_TIMEOUT_MS") 90000%float 1000%float with
  | inl message => inl message
  | inr httpTimeoutMs =>
  match parseInteger (env !! "ALBOM_MAX_RETRIES") 2%float 0%float with
  | inl message => inl message
  | inr maxRetries =>
  match parseInteger (env !! "ALBOM_MAX_UPLOAD_BYTES") 26214400%float 1%float with
  | inl message => inl message
  | inr maxUploadBytes =>
      inr (mkSettings baseUrl bearerToken toolProfile
             (default byProfile includeModerationFromEnv)
             (default byProfile includeEmbeddingsFromEnv)
             (default true includeVideo)
             (default false allowRawTool)
             catalogTtlMs httpTimeoutMs maxRetries maxUploadBytes)
  end end end end end end end end end.

End Load.

End Config.

(* ===================================================================== *)
(** ** results.ts (prices and runtime errors) and tools/executor.ts *)
(* ===================================================================== *)

Module Executor.
Import Js Types Results Catalog Dedup HttpClient Uploads Normalizer.

(** *** Objects

    The property names that every plain object inherits from
    [Object.prototype]: [obj[k]] and [k in obj] see them. *)
Definition inheritedKeys : list string :=
  ["constructor"; "__defineGetter__"; "__defineSetter__"; "hasOwnProperty";
   "__lookupGetter__"; "__lookupSetter__"; "isPrototypeOf"; "propertyIsEnumerable";
   "toString"; "valueOf"; "__proto__"; "toLocaleString"].

(** [key in obj] for a plain object given by its own properties. *)
Definition inObject {A} (key : string) (obj : list (string * A)) : bool :=
  bool_decide (key ∈ map fst obj) || bool_decide (key ∈ inheritedKeys).

(** A key that is an array index: the decimal form of an integer from 0
    to 2^32 - 2. An object lists such keys first, in ascending order. *)
Fixpoint digitsValue (acc : N) (s : string) : option N :=
  match s with
  | EmptyString => Some acc
  | String c s' =>
      if is_digit c then digitsValue (acc * 10 + (Js.code c - 48))%N s' else None
  end.

Definition arrayIndex (key : string) : option N :=
  match key with
  | EmptyString => None
  | String c rest =>
      if (Js.code c =? 48)%N && truthy rest then None
      else
        match digitsValue 0 key with
        | Some n => if (n <=? 4294967294)%N then Some n else None
        | None => None
        end
  end.

Fixpoint insertIndexed {A} (n : N) (key : string) (v : A) (obj : list (string * A))
  : list (string * A) :=
  match obj with
  | [] => [(key, v)]
  | (k', v') :: rest =>
      match arrayIndex k' with
      | Some n' =>
          if (n' <? n)%N then (k', v') :: insertIndexed n key v rest
          else (key, v) :: obj
      | None => (key, v) :: obj
      end
  end.

(** [obj[key] = v] for a key other than [__proto__]: a property that
    exists keeps its place; a new one goes among the array indices, or
    last. *)
Definition setProperty {A} (key : string) (v : A) (obj : list (string * A))
  : list (string * A) :=
  if bool_decide (key ∈ map fst obj) then L402.map_set key v obj
  else
    match arrayIndex key with
    | Some n => insertIndexed n key v obj
    | None => obj ++ [(key, v)]
    end.

(** [Object.entries(v)] for an object or an array. *)
Definition entriesOf (v : value) : list (string * value) :=
  match v with
  | VObj fields => fields
  | VArr items => imap (fun i item => (string_of_status (Z.of_nat i), item)) items
  | _ => []
  end.

Definition asRecord (v : value) : value :=
  if isRecord v then v else VObj [].

Definition asBoolean (v : option value) (fallback : bool) : bool :=
  match v with
  | Some (VBool b) => b
  | _ => fallback
  end.

(** [maybeAdd] *)
Definition maybeAdd (target : list (string * value)) (key : string)
    (v : option value) : list (string * value) :=
  match v with
  | None | Some VUndefined => target
  | Some x => setProperty key x target
  end.

(** *** results.ts: resolvePriceSats and fromRuntimeError *)

(** [prices[key]]: an entry of the record, a property that the record
    inherits (which is truthy and has no [price_sats]), or undefined. *)
Inductive Looked : Type :=
| Own (price : CatalogModelPrice)
| Inherited
| Absent.

Definition lookPrice (key : string) (prices : list (string * CatalogModelPrice))
  : Looked :=
  match assoc key prices with
  | Some price => Own price
  | None => if bool_decide (key ∈ inheritedKeys) then Inherited else Absent
  end.

Definition resolvePriceSats (endpoint : EndpointRecord) (model : option string)
  : option float :=
  match priceType endpoint with
  | flat => flatPriceSats endpoint
  | per_model =>
      let byModel :=
        if truthy_opt model
        then lookPrice (default EmptyString model) (modelPrices endpoint)
        else Absent in
      match byModel with
      | Own price => Some (modelPriceSats price)
      | Inherited => None
      | Absent =>
          match assoc "_default" (modelPrices endpoint) with
          | Some price => Some (modelPriceSats price)
          | None =>
              let defaultPricing :=
                if truthy_opt (defaultModel endpoint)
                then lookPrice (default EmptyString (defaultModel endpoint))
                       (modelPrices endpoint)
                else Absent in
              match defaultPricing with
              | Own price => Some (modelPriceSats price)
              | Inherited => None
              | Absent =>
                  match head (modelPrices endpoint) with
                  | Some (_, firstModel) =>
                      if isFinite (modelPriceSats firstModel)
                      then Some (modelPriceSats firstModel) else None
                  | None => None
                  end
              end
          end
      end
  end.

(** [fromRuntimeError] for the errors that reach it: an
    [AlbomRuntimeError] of the HTTP client, whose [details] are empty,
    or another error, given by its message. *)
Definition fromRuntimeError (endpoint : string) (error : AlbomRuntimeError + string)
    (model : option string) : AlbomError :=
  match error with
  | inl e =>
      mkError (HttpClient.errorStatus e) endpoint model
        (mkPayload (errorCode e) (runtimeMessage e) [])
  | inr message =>
      mkError 500 endpoint model (mkPayload "internal_error" message [])
  end.

(** *** The executor *)

(** [endpointByPathFromCatalog] on the records of a catalog. *)
Definition recordByPath (catalog : NormalizedCatalog) (p : string)
  : option EndpointRecord :=
  find (fun r => bool_decide (path (descriptor r) = p)
                 && bool_decide (method (descriptor r) = "POST"))
    (records catalog).

(** What [execute] rejects with. The handlers are [async] and are
    returned, not awaited, inside the [try] block of [execute]: what they
    throw rejects the promise of [execute] and does not reach its [catch]
    block. *)
Inductive Rejection (F : Type) : Type :=
| RuntimeRejection (error : AlbomRuntimeError)
| UploadRejection (error : UploadError)
| CatalogUnavailable (message : string)
| RefreshRejection (reason : F).
Arguments RuntimeRejection {F} error.
Arguments UploadRejection {F} error.
Arguments CatalogUnavailable {F} message.
Arguments RefreshRejection {F} reason.

Section Execute.
Context {F : Type}.

(** The runtime and the HTTP client. *)
Variable JSON_stringify : value -> string.
Variable String_of : value -> string.
Variable options : HttpClientOptions.
Variable world : World.

(** node:path, the base64 decoder and the file system, for the uploads. *)
Variable extname : string -> string.
Variable basename : string -> string.
Variable fromBase64 : string -> string.
Variable readFileFn : string -> settled string.

(** [config.maxUploadBytes] *)
Variable maxUploadBytes : Z.

(** The dependencies of the executor: [getCatalogState], which returns
    the catalog or throws an error with a message; [refreshCatalog];
    [getToolState]; and the data object that the catalog tool assembles
    from the two. *)
Variable getCatalogState : string + NormalizedCatalog.
Variable refreshCatalog : F + NormalizedCatalog.
Variable getToolState : option ToolState.
Variable catalogData : NormalizedCatalog -> option ToolState -> value.

Definition Outcome : Type := (Rejection F + AlbomToolResult) * History.

Definition throwRuntime (code message : string) (status : Z) (h : History) : Outcome :=
  (inl (RuntimeRejection (mkRuntimeError code message status)), h).

Definition requireString (args : value) (key : string) : AlbomRuntimeError + string :=
  match asString (prop args key) with
  | Some v => inr v
  | None => inl (mkRuntimeError "invalid_input" ("Missing required field: " +:+ key) 400)
  end.

Definition getEndpoint (p : string) : Rejection F + EndpointRecord :=
  match getCatalogState with
  | inl message => inl (CatalogUnavailable message)
  | inr catalog =>
      match recordByPath catalog p with
      | Some endpoint => inr endpoint
      | None =>
          inl (RuntimeRejection
                 (mkRuntimeError "endpoint_not_found"
                    ("Endpoint not present in catalog: " +:+ p) 404))
      end
  end.

Definition allowL402Quote (args : value) : bool :=
  asBoolean (prop args "allow_l402_quote") false.

(** The end of [callJson] and of [callMultipart]: the response, or the
    error of the client, becomes the result. *)
Definition settle (endpointPath : string) (endpoint : EndpointRecord)
    (model : option string)
    (answer : completion NormalizedHttpResponse * History) : Outcome :=
  match answer with
  | (Returns response, h) =>
      (inr (fromHttpResponse endpointPath response model
              (resolvePriceSats endpoint model)), h)
  | (Throws error, h) =>
      (inr (NotOk (fromRuntimeError endpointPath (inl error) model)), h)
  end.

Definition callJson (endpointPath : string) (body : value) (model : option string)
    (allow : bool) (h : History) : Outcome :=
  match getEndpoint endpointPath with
  | inl rejection => (inl rejection, h)
  | inr endpoint =>
      settle endpointPath endpoint model
        (postJson JSON_stringify options world endpointPath body
           (mkRequestOptions allow None) h)
  end.

Definition callMultipart (endpointPath : string) (fields : list (string * value))
    (uploads : list PreparedUpload) (model : option string) (allow : bool)
    (h : History) : Outcome :=
  match getEndpoint endpointPath with
  | inl rejection => (inl rejection, h)
  | inr endpoint =>
      settle endpointPath endpoint model
        (postMultipart JSON_stringify String_of options world endpointPath fields
           uploads (mkRequestOptions allow None) h)
  end.

(** [prepareUpload] with the arguments of a tool call, the names of
    which start with [prefix]. *)
Definition uploadFrom (args : value) (prefix fieldName label : string)
    (required : bool) : UploadError + option PreparedUpload :=
  match (prepareUpload extname basename fromBase64 readFileFn
           (mkPrepare fieldName label
              (asString (prop args (prefix +:+ "file_path")))
              (asString (prop args (prefix +:+ "file_base64")))
              (asString (prop args (prefix +:+ "file_name")))
              (asString (prop args (prefix +:+ "mime_type")))
              maxUploadBytes required)).1 with
  | inl error => inl error
  | inr prepared => inr (upload <$> prepared)
  end.

Definition handleCatalogGet (args : value) (h : History) : Outcome :=
  let refresh := asBoolean (prop args "refresh") false in
  let catalog : Rejection F + NormalizedCatalog :=
    if refresh then
      match refreshCatalog with
      | inl reason => inl (RefreshRejection reason)
      | inr catalog => inr catalog
      end
    else
      match getCatalogState with
      | inl message => inl (CatalogUnavailable message)
      | inr catalog => inr catalog
      end in
  match catalog with
  | inl rejection => (inl rejection, h)
  | inr catalog =>
      (inr (Ok (mkSuccess 200 "/api/catalog" None None
                  (catalogData catalog getToolState))), h)
  end.

(** The loop over [Object.entries(extra)] of [handleTextGenerate]. *)
Definition addExtra (body : list (string * value)) (extra : value)
  : list (string * value) :=
  foldl (fun body kv => if inObject kv.1 body then body
                        else setProperty kv.1 kv.2 body)
    body (entriesOf extra).

Definition textBody (model : string) (args : value) : list (string * value) :=
  let body := [("model", VStr model);
               ("input", default VUndefined (prop args "input"))] in
  let body := maybeAdd body "instructions" (prop args "instructions") in
  let body := maybeAdd body "max_output_tokens" (prop args "max_output_tokens") in
  let body := maybeAdd body "temperature" (prop args "temperature") in
  addExtra body (asRecord (default VUndefined (prop args "extra"))).

Definition handleTextGenerate (endpointPath : string) (args : value) (h : History)
  : Outcome :=
  match requireString args "model" with
  | inl error => (inl (RuntimeRejection error), h)
  | inr model =>
      if negb (has_prop args "input")
      then throwRuntime "invalid_input" "Missing required field: input" 400 h
      else callJson endpointPath (VObj (textBody model args)) (Some model)
             (allowL402Quote args) h
  end.

Definition handleImageGenerate (endpointPath : string) (args : value) (h : History)
  : Outcome :=
  match requireString args "model" with
  | inl error => (inl (RuntimeRejection error), h)
  | inr model =>
  match requireString args "prompt" with
  | inl error => (inl (RuntimeRejection error), h)
  | inr prompt =>
      let body := [("model", VStr model); ("prompt", VStr prompt)] in
      let body := maybeAdd body "size" (prop args "size") in
      let body := maybeAdd body "quality" (prop args "quality") in
      let body := maybeAdd body "style" (prop args "style") in
      callJson endpointPath (VObj body) (Some model) (allowL402Quote args) h
  end end.

Definition handleImageEdit (endpointPath : string) (args : value) (h : History)
  : Outcome :=
  match requireString args "model" with
  | inl error => (inl (RuntimeRejection error), h)
  | inr model =>
  match requireString args "prompt" with
  | inl error => (inl (RuntimeRejection error), h)
  | inr prompt =>
  match uploadFrom args "image_" "image" "image" true with
  | inl error => (inl (UploadRejection error), h)
  | inr mainImage =>
  match uploadFrom args "mask_" "mask" "mask" false with
  | inl error => (inl (UploadRejection error), h)
  | inr maskImage =>
      let uploads := option_list mainImage ++ option_list maskImage in
      let fields := [("model", VStr model); ("prompt", VStr prompt)] in
      let fields := maybeAdd fields "size" (prop args "size") in
      callMultipart endpointPath fields uploads (Some model) (allowL402Quote args) h
  end end end end.

Definition handleAudioTranscribe (endpointPath : string)
    (translationEndpointPath : option string) (args : value) (h : History)
  : Outcome :=
  let translateToEnglish := asBoolean (prop args "translate_to_english") false in
  let resolvedEndpoint :=
    if translateToEnglish && truthy_opt translationEndpointPath
    then default EmptyString translationEndpointPath else endpointPath in
  let model := asString (prop args "model") in
  match uploadFrom args "audio_" "file" "audio" true with
  | inl error => (inl (UploadRejection error), h)
  | inr None => throwRuntime "missing_file" "Audio file is required" 400 h
  | inr (Some audioUpload) =>
      let fields := maybeAdd [] "model" (VStr <$> model) in
      let fields := maybeAdd fields "prompt" (prop args "prompt") in
      let fields := maybeAdd fields "temperature" (prop args "temperature") in
      let fields := maybeAdd fields "language" (prop args "language") in
      let fields := maybeAdd fields "response_format" (prop args "response_format") in
      callMultipart resolvedEndpoint fields [audioUpload] model (allowL402Quote args) h
  end.

Definition handleAudioSpeech (endpointPath : string) (args : value) (h : History)
  : Outcome :=
  match requireString args "model" with
  | inl error => (inl (RuntimeRejection error), h)
  | inr model =>
  match requireString args "voice" with
  | inl error => (inl (RuntimeRejection error), h)
  | inr voice =>
  match requireString args "input" with
  | inl error => (inl (RuntimeRejection error), h)
  | inr input =>
      let body := [("model", VStr model); ("voice", VStr voice); ("input", VStr input)] in
      let body :=
        match asString (prop args "format") with
        | Some format => setProperty "response_format" (VStr format) body
        | None => body
        end in
      let body := maybeAdd body "speed" (prop args "speed") in
      callJson endpointPath (VObj body) (Some model) (allowL402Quote args) h
  end end end.

Definition handleVideoGenerate (endpointPath : string) (args : value) (h : History)
  : Outcome :=
  match requireString args "model" with
  | inl error => (inl (RuntimeRejection error), h)
  | inr model =>
  match requireString args "prompt" with
  | inl error => (inl (RuntimeRejection error), h)
  | inr prompt =>
      let body := [("model", VStr model); ("prompt", VStr prompt)] in
      let body := maybeAdd body "duration" (prop args "duration") in
      let body := maybeAdd body "size" (prop args "size") in
      callJson endpointPath (VObj body) (Some model) (allowL402Quote args) h
  end end.

(** [handleModeration] and [handleEmbedding], which are the same. *)
Definition handleInput (endpointPath : string) (args : value) (h : History)
  : Outcome :=
  if negb (has_prop args "input")
  then throwRuntime "invalid_input" "Missing required field: input" 400 h
  else
    let model := asString (prop args "model") in
    let body := [("input", default VUndefined (prop args "input"))] in
    let body := maybeAdd body "model" (VStr <$> model) in
    callJson endpointPath (VObj body) model (allowL402Quote args) h.

Definition handleModeration := handleInput.
Definition handleEmbedding := handleInput.

(** [obj.model === undefined] *)
Definition modelUndefined (fields : list (string * value)) : bool :=
  match assoc "model" fields with
  | None | Some VUndefined => true
  | Some _ => false
  end.

(** The JSON body of a full or raw call: [asRecord(args.body)] with
    the model set if it has none. On an array the model becomes a named
    property, which [JSON.stringify] leaves out. *)
Definition jsonBody (args : value) (model : option string) : value :=
  match asRecord (default VUndefined (prop args "body")), model with
  | VObj fields, Some m =>
      if modelUndefined fields then VObj (setProperty "model" (VStr m) fields)
      else VObj fields
  | body, _ => body
  end.

(** The fields of a full or raw multipart call, as [Object.entries]
    lists them: on an array the model comes after the items. *)
Definition multipartFields (args : value) (model : option string)
  : list (string * value) :=
  match asRecord (default VUndefined (prop args "fields")), model with
  | VObj fields, Some m =>
      if modelUndefined fields then setProperty "model" (VStr m) fields else fields
  | VArr items, Some m => entriesOf (VArr items) ++ [("model", VStr m)]
  | fields, _ => entriesOf fields
  end.

(** The multipart branch that [handleFullEndpoint] and [handleRawCall]
    share. *)
Definition callWithFile (endpointPath : string) (declaredFileField : option string)
    (args : value) (model : option string) (allow : bool) (h : History) : Outcome :=
  let fields := multipartFields args model in
  let fileField :=
    default "file" (nullish (asString (prop args "file_field")) declaredFileField) in
  match uploadFrom args EmptyString fileField "file" (truthy_opt declaredFileField) with
  | inl error => (inl (UploadRejection error), h)
  | inr upload => callMultipart endpointPath fields (option_list upload) model allow h
  end.

Definition handleFullEndpoint (endpointPath : string)
    (contentType : option EndpointContentType) (fileField : option string)
    (args : value) (h : History) : Outcome :=
  let model := asString (prop args "model") in
  let allow := allowL402Quote args in
  match contentType with
  | Some json => callJson endpointPath (jsonBody args model) model allow h
  | _ => callWithFile endpointPath fileField args model allow h
  end.

Definition handleRawCall (args : value) (h : History) : Outcome :=
  match requireString args "endpoint" with
  | inl error => (inl (RuntimeRejection error), h)
  | inr endpointPath =>
  match getCatalogState with
  | inl message => (inl (CatalogUnavailable message), h)
  | inr catalog =>
  match recordByPath catalog endpointPath with
  | None =>
      throwRuntime "endpoint_not_allowlisted"
        ("Endpoint is not present in current catalog: " +:+ endpointPath) 400 h
  | Some endpoint =>
      let allow := allowL402Quote args in
      let model := asString (prop args "model") in
      let contentType :=
        default (match contentType (descriptor endpoint) with
                 | json => "json"
                 | multipart => "multipart"
                 end)
          (asString (prop args "content_type")) in
      if bool_decide (contentType = "json")
      then callJson endpointPath (jsonBody args model) model allow h
      else if negb (bool_decide (contentType = "multipart"))
      then throwRuntime "invalid_input" "content_type must be json or multipart" 400 h
      else callWithFile endpointPath (fileField (descriptor endpoint)) args model allow h
  end end end.

(** [execute]. A tool of a kind that is bound to an endpoint has its
    [endpointPath]; a value of [PlannedTool] without it is none of the
    tools of the source ([None]). *)
Definition execute (tool : PlannedTool) (rawArgs : value) (h : History)
  : option Outcome :=
  let args := asRecord rawArgs in
  match kind tool with
  | catalog_get => Some (handleCatalogGet args h)
  | raw_call => Some (handleRawCall args h)
  | other =>
      match endpointPath tool with
      | None => None
      | Some p =>
          Some
            (match other with
             | text_generate => handleTextGenerate p args h
             | image_generate => handleImageGenerate p args h
             | image_edit => handleImageEdit p args h
             | audio_transcribe =>
                 handleAudioTranscribe p (translationEndpointPath tool) args h
             | audio_speech => handleAudioSpeech p args h
             | video_generate => handleVideoGenerate p args h
             | safety_moderate => handleModeration p args h
             | embedding_create => handleEmbedding p args h
             | _ => handleFullEndpoint p (toolContentType tool) (toolFileField tool)
                      args h
             end)
      end
  end.

End Execute.

End Executor.

(* ===================================================================== *)
(** * Properties *)
(* ===================================================================== *)

(** ** The JavaScript fragment *)

Module JsFacts.
Import Js.

Lemma search_found {A} (at_pos : string -> option A) (s : string) (r : A) :
  search at_pos s = Some r -> exists s', at_pos s' = Some r.
Proof.
  induction s as [|c s IH]; simpl.
  - destruct (at_pos EmptyString) eqn:E; [|discriminate].
    intros [= <-]. eauto.
  - destruct (at_pos (String c s)) eqn:E.
    + intros [= <-]. eauto.
    + auto.
Qed.

Lemma truthy_opt_Some (o : option string) :
  truthy_opt o = true -> exists s, o = Some s /\ truthy s = true.
Proof. destruct o as [s|]; simpl; [eauto | discriminate]. Qed.

Lemma prop_of_record (body : value) (k : string) :
  prop (if isRecord body then body else VObj []) k = prop body k.
Proof. destruct body; reflexivity. Qed.

Lemma asString_truthy (v : option value) (s : string) :
  asString v = Some s -> truthy s = true.
Proof.
  destruct v as [[| | | |s'| |]|]; simpl; try discriminate.
  destruct (truthy s') eqn:E; [|discriminate]. by intros [= <-].
Qed.

Lemma app_String (c : ascii) (a b : string) :
  String c a +:+ b = String c (a +:+ b).
Proof. reflexivity. Qed.

Lemma app_empty (b : string) : EmptyString +:+ b = b.
Proof. reflexivity. Qed.

Lemma append_assoc3 (a b c : string) : (a +:+ b) +:+ c = a +:+ (b +:+ c).
Proof. induction a as [|x a IH]; [done|]. by rewrite !app_String, IH. Qed.

End JsFacts.

(** ** l402.ts: the challenge parser *)

Module L402Spec.
Import Js L402 JsFacts.

Lemma extractParam_truthy (paramStr name m : string) :
  extractParam paramStr name = Some m -> truthy m = true.
Proof.
  unfold extractParam.
  destruct (truthy_opt (search (quoted_at name) paramStr)) eqn:E.
  - intros H. rewrite H in E. exact E.
  - intros H. apply search_found in H as [s' H].
    unfold unquoted_at in H.
    destruct (literal_ci _ s') as [rest|]; [|discriminate].
    destruct (span _ rest) as [group after].
    destruct (truthy group) eqn:T; [|discriminate]. by injection H as <-.
Qed.

(** The macaroon as the parser resolves it from the parameters. *)
Definition resolvedMacaroon (paramStr : string) : option string :=
  nullish (extractParam paramStr "macaroon") (extractParam paramStr "token").

(** The invoice as the parser resolves it from the parameters or the body. *)
Definition resolvedInvoice (paramStr : string) (body : value) : option string :=
  nullish (extractParam paramStr "invoice") (asString (prop body "invoice")).

Lemma resolvedMacaroon_truthy (p m : string) :
  resolvedMacaroon p = Some m -> truthy m = true.
Proof.
  unfold resolvedMacaroon, nullish.
  destruct (extractParam p "macaroon") eqn:E.
  - intros [= <-]. eauto using extractParam_truthy.
  - eauto using extractParam_truthy.
Qed.

Lemma resolvedInvoice_truthy (p : string) (body : value) (i : string) :
  resolvedInvoice p body = Some i -> truthy i = true.
Proof.
  unfold resolvedInvoice, nullish.
  destruct (extractParam p "invoice") eqn:E.
  - intros [= <-]. eauto using extractParam_truthy.
  - eauto using asString_truthy.
Qed.

(** The parser, case by case. *)
Lemma parseL402Challenge_unfold (headers : gmap string string) (body : value) :
  parseL402Challenge headers body =
  match headers !! "www-authenticate" with
  | None => None
  | Some wwwAuth =>
      match l402Scheme wwwAuth with
      | None => None
      | Some paramStr =>
          match resolvedMacaroon paramStr, resolvedInvoice paramStr body with
          | Some m, Some i =>
              Some (mkChallenge (if endsWithColon m then dropLast m else m) i
                      (default EmptyString (asString (prop body "payment_hash")))
                      (default 0%float (asNumber (prop body "amount_sats"))))
          | _, _ => None
          end
      end
  end.
Proof.
  unfold parseL402Challenge.
  destruct (headers !! "www-authenticate") as [w|] eqn:Hw; simpl; [|reflexivity].
  destruct (truthy w) eqn:Tw; simpl.
  2:{ destruct w; [|discriminate]. reflexivity. }
  destruct (l402Scheme w) as [p|]; [|reflexivity].
  rewrite !prop_of_record.
  fold (resolvedMacaroon p). fold (resolvedInvoice p body).
  destruct (resolvedMacaroon p) as [m|] eqn:Hm; simpl; [|reflexivity].
  rewrite (resolvedMacaroon_truthy _ _ Hm). simpl.
  destruct (resolvedInvoice p body) as [i|] eqn:Hi; simpl; [|reflexivity].
  rewrite (resolvedInvoice_truthy _ _ _ Hi). reflexivity.
Qed.

(** A quoted parameter of a [WWW-Authenticate] value. *)
Definition quoted_param (name val : string) : string :=
  name +:+ "=" +:+ DQ +:+ val +:+ DQ.

Definition wwwAuthenticate (value : string) : gmap string string :=
  {[ "www-authenticate" := value ]}.

Example parse_token_form :
  parseL402Challenge
    (wwwAuthenticate ("L402 " +:+ quoted_param "token" "mac_simple"))
    (VObj [("invoice", VStr "lnbc200n"); ("payment_hash", VStr "ph_002");
           ("amount_sats", VNum 50%float)])
  = Some (mkChallenge "mac_simple" "lnbc200n" "ph_002" 50%float).
Proof. vm_compute. reflexivity. Qed.

Example parse_not_l402 :
  parseL402Challenge (wwwAuthenticate "Bearer realm=test") (VObj []) = None.
Proof. vm_compute. reflexivity. Qed.

Example parse_no_macaroon :
  parseL402Challenge (wwwAuthenticate "L402 foo=bar") (VObj [("invoice", VStr "lnbc")])
  = None.
Proof. vm_compute. reflexivity. Qed.

Example parse_no_invoice :
  parseL402Challenge (wwwAuthenticate ("L402 " +:+ quoted_param "macaroon" "mac"))
    (VObj []) = None.
Proof. vm_compute. reflexivity. Qed.

Example parse_non_record_body :
  parseL402Challenge
    (wwwAuthenticate ("L402 " +:+ quoted_param "macaroon" "mac" +:+ ", "
                        +:+ quoted_param "invoice" "lnbc"))
    (VStr "not an object")
  = Some (mkChallenge "mac" "lnbc" EmptyString 0%float).
Proof. vm_compute. reflexivity. Qed.

(** An empty quoted value falls through to the unquoted form, which then
    captures the two quotes. *)
Example extractParam_empty_quotes :
  extractParam (quoted_param "macaroon" EmptyString) "macaroon" = Some (DQ +:+ DQ).
Proof. vm_compute. reflexivity. Qed.

(** *** The scheme of a header value, on its text *)

(** One or more white space code units. *)
Inductive blanks : string -> Prop :=
| blanks_one c : is_space c = true -> blanks (String c EmptyString)
| blanks_more c b : is_space c = true -> blanks b -> blanks (String c b).

Definition beginsWithSpace (s : string) : bool :=
  match s with
  | String c _ => is_space c
  | EmptyString => false
  end.

(** The header value [w] is of the L402 scheme, with the parameters [p]:
    [w] is the word L402, its letter in either case, then one or more
    white space code units, then [p], which does not begin with white
    space. *)
Definition ofL402Scheme (w p : string) : Prop :=
  exists word b,
    w = word +:+ b +:+ p
    /\ (word = "L402" \/ word = "l402")
    /\ blanks b
    /\ beginsWithSpace p = false.

Lemma ci_eq_letter (c : ascii) :
  ci_eq "L" c = true -> c = "L"%char \/ c = "l"%char.
Proof.
  destruct c as [[] [] [] [] [] [] [] []]; vm_compute; intros H;
    try discriminate; auto.
Qed.

Lemma ci_eq_four (c : ascii) : ci_eq "4" c = true -> c = "4"%char.
Proof.
  destruct c as [[] [] [] [] [] [] [] []]; vm_compute; intros H;
    try discriminate; reflexivity.
Qed.

Lemma ci_eq_zero (c : ascii) : ci_eq "0" c = true -> c = "0"%char.
Proof.
  destruct c as [[] [] [] [] [] [] [] []]; vm_compute; intros H;
    try discriminate; reflexivity.
Qed.

Lemma ci_eq_two (c : ascii) : ci_eq "2" c = true -> c = "2"%char.
Proof.
  destruct c as [[] [] [] [] [] [] [] []]; vm_compute; intros H;
    try discriminate; reflexivity.
Qed.

Lemma literal_L402 (w rest : string) :
  literal_ci "L402" w = Some rest <->
  exists word, w = word +:+ rest /\ (word = "L402" \/ word = "l402").
Proof.
  split.
  - destruct w as [|c1 [|c2 [|c3 [|c4 w]]]]; cbn [literal_ci];
      repeat match goal with
             | |- context [ci_eq ?a ?b] => destruct (ci_eq a b) eqn:?
             end; try discriminate.
    intros [= ->].
    apply ci_eq_letter in Heqb.
    apply ci_eq_four in Heqb0. apply ci_eq_zero in Heqb1.
    apply ci_eq_two in Heqb2.
    subst c2 c3 c4. destruct Heqb as [-> | ->].
    + exists "L402". split; [reflexivity|by left].
    + exists "l402". split; [reflexivity|by right].
  - intros (word & -> & [-> | ->]); reflexivity.
Qed.

Lemma span_blanks (s b p : string) :
  span is_space s = (b, p) /\ truthy b = true <->
  s = b +:+ p /\ blanks b /\ beginsWithSpace p = false.
Proof.
  split.
  - revert b p. induction s as [|c s IH]; intros b p [Hs Hb]; cbn [span] in Hs.
    + injection Hs as <- <-. discriminate.
    + destruct (is_space c) eqn:Hc.
      2:{ injection Hs as <- <-. discriminate. }
      destruct (span is_space s) as [run rest] eqn:Hrun.
      injection Hs as <- <-.
      destruct run as [|c' run].
      * destruct s as [|c' s]; cbn [span] in Hrun.
        -- injection Hrun as <-. repeat split; [by apply blanks_one].
        -- destruct (is_space c') eqn:Hc'.
           ++ destruct (span is_space s). discriminate.
           ++ injection Hrun as <-. repeat split; [by apply blanks_one|done].
      * destruct (IH (String c' run) rest) as (-> & Hbl & Hp); [done|].
        repeat split; [by apply blanks_more|done].
  - intros (-> & Hb & Hp). induction Hb as [c Hc|c b Hc Hb IH].
    + rewrite app_String, app_empty. cbn [span]. rewrite Hc.
      destruct p as [|c' p]; cbn [span]; [done|].
      cbn [beginsWithSpace] in Hp. by rewrite Hp.
    + rewrite app_String. cbn [span]. rewrite Hc.
      destruct IH as [-> _]. done.
Qed.

Lemma l402Scheme_text (w p : string) :
  l402Scheme w = Some p <-> ofL402Scheme w p.
Proof.
  unfold l402Scheme, ofL402Scheme. split.
  - destruct (literal_ci "L402" w) as [rest|] eqn:Hl; [|discriminate].
    apply literal_L402 in Hl as (word & -> & Hword).
    destruct (span is_space rest) as [b p'] eqn:Hs.
    destruct (truthy b) eqn:Hb; [|discriminate]. intros [= ->].
    destruct (proj1 (span_blanks rest b p) (conj Hs Hb)) as (-> & Hbl & Hp).
    by exists word, b.
  - intros (word & b & -> & Hword & Hbl & Hp).
    assert (Hl : literal_ci "L402" (word +:+ b +:+ p) = Some (b +:+ p)).
    { apply literal_L402. by exists word. }
    rewrite Hl.
    destruct (proj2 (span_blanks (b +:+ p) b p)) as [-> ->]; done.
Qed.

Lemma l402Scheme_None (w : string) :
  l402Scheme w = None <-> forall p, ~ ofL402Scheme w p.
Proof.
  split.
  - intros Hn p Hp. apply l402Scheme_text in Hp. congruence.
  - intros Hno. destruct (l402Scheme w) as [p|] eqn:E; [|done].
    destruct (Hno p). by apply l402Scheme_text.
Qed.

(** *** The parameters of a header value, on its text *)

(** The parameter [name] occurs in [p]: the name, in any case, and the
    equals sign. *)
Definition mentions (name p : string) : Prop :=
  exists before got after,
    p = before +:+ got +:+ after
    /\ toLowerCase got = toLowerCase (name +:+ "=").

Lemma literal_ci_text (lit s rest : string) :
  literal_ci lit s = Some rest ->
  exists got, s = got +:+ rest /\ toLowerCase got = toLowerCase lit.
Proof.
  revert s. induction lit as [|a lit IH]; intros s; cbn [literal_ci].
  - intros [= ->]. by exists EmptyString.
  - destruct s as [|b s]; [discriminate|].
    unfold ci_eq. case_bool_decide as E; [|discriminate].
    intros H. apply IH in H as (got & -> & Hgot).
    exists (String b got). split; [reflexivity|].
    cbn [toLowerCase]. by rewrite Hgot, E.
Qed.

Lemma literal_ci_app (a b s rest : string) :
  literal_ci (a +:+ b) s = Some rest ->
  exists mid, literal_ci a s = Some mid.
Proof.
  revert s. induction a as [|x a IH]; intros s.
  - rewrite app_empty. intros _. by exists s.
  - rewrite app_String. cbn [literal_ci]. destruct s as [|y s]; [discriminate|].
    destruct (ci_eq x y); [apply IH|discriminate].
Qed.

Lemma search_found_at {A} (at_pos : string -> option A) (s : string) (r : A) :
  search at_pos s = Some r ->
  exists before s', s = before +:+ s' /\ at_pos s' = Some r.
Proof.
  induction s as [|c s IH]; cbn [search].
  - destruct (at_pos EmptyString) eqn:E; [|discriminate].
    intros [= <-]. by exists EmptyString, EmptyString.
  - destruct (at_pos (String c s)) eqn:E.
    + intros [= <-]. by exists EmptyString, (String c s).
    + intros H. apply IH in H as (before & s' & -> & Hat).
      by exists (String c before), s'.
Qed.

Lemma mentions_at (name before s' mid : string) :
  literal_ci (name +:+ "=") s' = Some mid -> mentions name (before +:+ s').
Proof.
  intros H. apply literal_ci_text in H as (got & -> & Hgot).
  by exists before, got, mid.
Qed.

(** A parameter that is extracted occurs in the text. *)
Lemma extractParam_mentions (p name v : string) :
  extractParam p name = Some v -> mentions name p.
Proof.
  unfold extractParam.
  destruct (truthy_opt (search (quoted_at name) p)) eqn:E.
  - intros H. apply search_found_at in H as (before & s' & -> & Hat).
    unfold quoted_at in Hat.
    destruct (literal_ci (name +:+ "=" +:+ DQ) s') as [rest|] eqn:Hl; [|discriminate].
    rewrite <- append_assoc3 in Hl.
    apply literal_ci_app in Hl as [mid Hmid]. by eapply mentions_at.
  - intros H. apply search_found_at in H as (before & s' & -> & Hat).
    unfold unquoted_at in Hat.
    destruct (literal_ci (name +:+ "=") s') as [rest|] eqn:Hl; [|discriminate].
    by eapply mentions_at.
Qed.

Lemma resolvedMacaroon_mentions (p m : string) :
  resolvedMacaroon p = Some m -> mentions "macaroon" p \/ mentions "token" p.
Proof.
  unfold resolvedMacaroon, nullish.
  destruct (extractParam p "macaroon") eqn:E.
  - intros _. left. by eapply extractParam_mentions.
  - intros H. right. by eapply extractParam_mentions.
Qed.

Lemma resolvedInvoice_mentions (p : string) (body : value) (i : string) :
  resolvedInvoice p body = Some i ->
  mentions "invoice" p \/ (prop body "invoice" = Some (VStr i) /\ truthy i = true).
Proof.
  unfold resolvedInvoice, nullish.
  destruct (extractParam p "invoice") eqn:E.
  - intros _. left. by eapply extractParam_mentions.
  - intros H. right. unfold asString in H.
    destruct (prop body "invoice") as [[| | | |s| |]|]; try discriminate.
    destruct (truthy s) eqn:T; [|discriminate]. by injection H as <-.
Qed.

(** C7. [parseL402Challenge] on the header
    [L402 macaroon=Q mac_abc123 Q, invoice=Q lnbc100n Q] (Q the double
    quote) and the body [{payment_hash: ph_001, amount_sats: 30}] returns
    the challenge with exactly these four values; the same parameters
    under the scheme Bearer give [undefined]; a macaroon that ends in a
    colon loses that colon, in general and on the header
    [L402 macaroon=Q mac_test: Q]; the unquoted form of the parameters
    and the [token] parameter are read as well. A header value is of the
    L402 scheme exactly when its text is the word L402 (the letter in
    either case), white space and the parameters. The result is
    [undefined] whenever the [www-authenticate] header is absent, its
    value is not of the L402 scheme, or no macaroon or no invoice can be
    resolved: in particular when the parameters mention neither
    [macaroon=] nor [token=], or when they do not mention [invoice=] and
    the body has no [invoice] that is a non-empty string. *)
Theorem parseL402Challenge_claim :
  parseL402Challenge
    (wwwAuthenticate ("L402 " +:+ quoted_param "macaroon" "mac_abc123" +:+ ", "
                        +:+ quoted_param "invoice" "lnbc100n"))
    (VObj [("payment_hash", VStr "ph_001"); ("amount_sats", VNum 30%float)])
  = Some (mkChallenge "mac_abc123" "lnbc100n" "ph_001" 30%float)
  /\ parseL402Challenge
       (wwwAuthenticate ("Bearer " +:+ quoted_param "macaroon" "mac_abc123" +:+ ", "
                           +:+ quoted_param "invoice" "lnbc100n"))
       (VObj [("payment_hash", VStr "ph_001"); ("amount_sats", VNum 30%float)])
     = None
  /\ macaroon <$>
       parseL402Challenge
         (wwwAuthenticate ("L402 " +:+ quoted_param "macaroon" "mac_test:"))
         (VObj [("invoice", VStr "lnbc300n"); ("payment_hash", VStr "ph_003");
                ("amount_sats", VNum 10%float)])
     = Some "mac_test"
  /\ parseL402Challenge
       (wwwAuthenticate "l402   token=mac_simple:, Invoice=lnbc200n")
       (VStr "not an object")
     = Some (mkChallenge "mac_simple" "lnbc200n" EmptyString 0%float)
  /\ (forall w p, l402Scheme w = Some p <-> ofL402Scheme w p)
  /\ (forall (headers : gmap string string) (body : value) w p m c,
        headers !! "www-authenticate" = Some w ->
        ofL402Scheme w p ->
        resolvedMacaroon p = Some m ->
        endsWithColon m = true ->
        parseL402Challenge headers body = Some c ->
        macaroon c = dropLast m)
  /\ (forall (headers : gmap string string) (body : value),
        (headers !! "www-authenticate" = None ->
         parseL402Challenge headers body = None)
        /\ (forall w, headers !! "www-authenticate" = Some w ->
              (forall p, ~ ofL402Scheme w p) ->
              parseL402Challenge headers body = None)
        /\ (forall w p, headers !! "www-authenticate" = Some w ->
              ofL402Scheme w p ->
              resolvedMacaroon p = None ->
              parseL402Challenge headers body = None)
        /\ (forall w p, headers !! "www-authenticate" = Some w ->
              ofL402Scheme w p ->
              resolvedInvoice p body = None ->
              parseL402Challenge headers body = None)
        /\ (forall w p, headers !! "www-authenticate" = Some w ->
              ofL402Scheme w p ->
              ~ mentions "macaroon" p -> ~ mentions "token" p ->
              parseL402Challenge headers body = None)
        /\ (forall w p, headers !! "www-authenticate" = Some w ->
              ofL402Scheme w p ->
              ~ mentions "invoice" p ->
              (forall s, prop body "invoice" = Some (VStr s) -> s = EmptyString) ->
              parseL402Challenge headers body = None)).
Proof.
  split; [vm_compute; reflexivity|].
  split; [vm_compute; reflexivity|].
  split; [vm_compute; reflexivity|].
  split; [vm_compute; reflexivity|].
  split; [apply l402Scheme_text|].
  split.
  - intros headers body w p m c Hw Hp Hm Hcolon.
    apply l402Scheme_text in Hp.
    rewrite parseL402Challenge_unfold, Hw, Hp, Hm, Hcolon.
    destruct (resolvedInvoice p body); [|discriminate].
    by intros [= <-].
  - intros headers body. repeat split.
    + intros Hw. by rewrite parseL402Challenge_unfold, Hw.
    + intros w Hw Hs. apply l402Scheme_None in Hs.
      by rewrite parseL402Challenge_unfold, Hw, Hs.
    + intros w p Hw Hs Hm. apply l402Scheme_text in Hs.
      by rewrite parseL402Challenge_unfold, Hw, Hs, Hm.
    + intros w p Hw Hs Hi. apply l402Scheme_text in Hs.
      rewrite parseL402Challenge_unfold, Hw, Hs, Hi.
      by destruct (resolvedMacaroon p).
    + intros w p Hw Hs Hm Ht. apply l402Scheme_text in Hs.
      rewrite parseL402Challenge_unfold, Hw, Hs.
      destruct (resolvedMacaroon p) as [m|] eqn:E; [|done].
      apply resolvedMacaroon_mentions in E as [E|E]; [by destruct Hm|by destruct Ht].
    + intros w p Hw Hs Hi Hbody. apply l402Scheme_text in Hs.
      rewrite parseL402Challenge_unfold, Hw, Hs.
      destruct (resolvedInvoice p body) as [i|] eqn:E;
        [|by destruct (resolvedMacaroon p)].
      apply resolvedInvoice_mentions in E as [E|[E Ht]]; [by destruct Hi|].
      apply Hbody in E. subst i. discriminate.
Qed.

End L402Spec.

(** ** l402.ts: the token cache *)

Module CacheSpec.
Import Js L402.

Definition keys {V} (m : list (string * V)) : list string := m.*1.

(** A [Map] holds a key once. *)
Definition wf (c : L402TokenCache) : Prop := NoDup (keys (entries c)).

Lemma map_set_length {V} (k : string) (v : V) (m : list (string * V)) :
  (length (map_set k v m) <= S (length m))%nat.
Proof.
  induction m as [|[k' v'] m IH]; simpl; [lia|].
  case_bool_decide; simpl; lia.
Qed.

Lemma map_set_keys_present {V} (k : string) (v : V) (m : list (string * V)) :
  k ∈ keys m -> keys (map_set k v m) = keys m.
Proof.
  induction m as [|[k' v'] m IH]; simpl.
  - intros H. by apply elem_of_nil in H.
  - intros H. case_bool_decide as E; simpl; [by subst|].
    f_equal. apply IH. apply elem_of_cons in H as [->|H']; [done|exact H'].
Qed.

Lemma map_set_keys_absent {V} (k : string) (v : V) (m : list (string * V)) :
  k ∉ keys m -> keys (map_set k v m) = keys m ++ [k].
Proof.
  induction m as [|[k' v'] m IH]; simpl; [done|].
  intros H. apply not_elem_of_cons in H as [Hne H'].
  case_bool_decide as E; simpl; [by subst|].
  f_equal. by apply IH.
Qed.

Lemma map_set_NoDup {V} (k : string) (v : V) (m : list (string * V)) :
  NoDup (keys m) -> NoDup (keys (map_set k v m)).
Proof.
  intros H. destruct (decide (k ∈ keys m)) as [Hin|Hout].
  - by rewrite map_set_keys_present.
  - rewrite map_set_keys_absent by done.
    apply NoDup_app. split; [done|]. split.
    + intros x Hx Hk. apply list_elem_of_singleton in Hk. by subst.
    + apply NoDup_singleton.
Qed.

Lemma map_get_set {V} (k : string) (v : V) (m : list (string * V)) :
  map_get k (map_set k v m) = Some v.
Proof.
  unfold map_get. induction m as [|[k' v'] m IH]; simpl.
  - by rewrite bool_decide_eq_true_2.
  - case_bool_decide as E; simpl.
    + by rewrite bool_decide_eq_true_2.
    + by rewrite bool_decide_eq_false_2.
Qed.

Lemma filter_keys_sublist {V} (P : string * V -> Prop) `{!forall x, Decision (P x)}
    (m : list (string * V)) :
  keys (filter P m) `sublist_of` keys m.
Proof.
  induction m as [|kv m IH]; simpl; [constructor|].
  rewrite filter_cons. destruct (decide (P kv)); simpl.
  - by apply sublist_skip.
  - by apply sublist_cons.
Qed.

Lemma filter_NoDup {V} (P : string * V -> Prop) `{!forall x, Decision (P x)}
    (m : list (string * V)) :
  NoDup (keys m) -> NoDup (keys (filter P m)).
Proof. intros Hnd. eapply sublist_NoDup; [exact Hnd|]. apply filter_keys_sublist. Qed.

Lemma map_get_delete {V} (k : string) (m : list (string * V)) :
  map_get k (map_delete k m) = None.
Proof.
  unfold map_get, map_delete. induction m as [|[k' v'] m IH]; simpl; [done|].
  rewrite filter_cons. simpl. destruct (decide (k' ≠ k)) as [Hne|Heq]; simpl; [|done].
  by rewrite bool_decide_eq_false_2.
Qed.

Lemma map_get_delete_other {V} (k k' : string) (m : list (string * V)) :
  k' ≠ k -> map_get k' (map_delete k m) = map_get k' m.
Proof.
  intros Hne. unfold map_get, map_delete.
  induction m as [|[k0 v0] m IH]; simpl; [done|].
  rewrite filter_cons. simpl. destruct (decide (k0 ≠ k)) as [H0|H0]; simpl.
  - by rewrite IH.
  - apply dec_stable in H0. subst k0.
    rewrite bool_decide_eq_false_2 by done. exact IH.
Qed.

(** Deleting the first key of a map removes its first entry and no
    other. *)
Lemma map_delete_first {V} (k : string) (v : V) (m : list (string * V)) :
  NoDup (keys ((k, v) :: m)) -> map_delete k ((k, v) :: m) = m.
Proof.
  intros H. apply NoDup_cons in H as [Hout _].
  unfold map_delete. rewrite filter_cons. simpl.
  destruct (decide (k ≠ k)) as [?|_]; [done|].
  induction m as [|[k' v'] m IH]; [done|].
  simpl in Hout. apply not_elem_of_cons in Hout as [Hne Hout'].
  rewrite filter_cons. simpl. destruct (decide (k' ≠ k)) as [_|E].
  - f_equal. by apply IH.
  - destruct E. congruence.
Qed.

Lemma map_delete_first_length {V} (k : string) (v : V) (m : list (string * V)) :
  (length (map_delete k ((k, v) :: m)) <= length m)%nat.
Proof.
  unfold map_delete. rewrite filter_cons. simpl.
  destruct (decide (k ≠ k)) as [?|_]; [done|]. apply length_filter.
Qed.

Lemma purgeExpired_size (now : Z) (c : L402TokenCache) :
  size (purgeExpired now c).1 <= size c.
Proof.
  unfold size, purgeExpired. simpl.
  apply inj_le, length_filter.
Qed.

(** The entries that [set] inserts into, after the purge and the eviction
    it may run. *)
Definition room (nowPurge : Z) (c : L402TokenCache) : list (string * L402CacheEntry) :=
  let purged := if maxEntries c <=? size c then (purgeExpired nowPurge c).1 else c in
  if maxEntries c <=? size purged then tail (entries purged) else entries purged.

Definition newEntry (nowInsert : Z) (challenge : L402Challenge) (ttlMs : option Z)
    (c : L402TokenCache) : L402CacheEntry :=
  mkEntry (macaroon challenge) (invoice challenge) (paymentHash challenge)
    (amountSats challenge) (nowInsert + default (defaultTtlMs c) ttlMs).

Lemma set_entries (n1 n2 : Z) (ch : L402Challenge) (ttl : option Z) (c : L402TokenCache) :
  wf c ->
  entries (set n1 n2 ch ttl c)
  = map_set (paymentHash ch) (newEntry n2 ch ttl c) (room n1 c).
Proof.
  intros Hwf. unfold set, room, newEntry.
  set (c1 := if maxEntries c <=? size c then (purgeExpired n1 c).1 else c).
  assert (Hmax : maxEntries c1 = maxEntries c).
  { subst c1. by destruct (maxEntries c <=? size c). }
  assert (Hwf1 : wf c1).
  { subst c1. destruct (maxEntries c <=? size c); [|done].
    unfold wf, purgeExpired. simpl. by apply filter_NoDup. }
  rewrite Hmax. destruct (maxEntries c <=? size c1); [|reflexivity].
  destruct (entries c1) as [|[k v] m] eqn:E; simpl; [by rewrite E|].
  f_equal. apply map_delete_first. unfold wf in Hwf1. by rewrite E in Hwf1.
Qed.

Lemma set_maxEntries (n1 n2 : Z) (ch : L402Challenge) (ttl : option Z) (c : L402TokenCache) :
  maxEntries (set n1 n2 ch ttl c) = maxEntries c.
Proof.
  unfold set. simpl.
  destruct (maxEntries c <=? size c); simpl;
    repeat (match goal with |- context [if ?b then _ else _] => destruct b end; simpl);
    repeat (match goal with |- context [match ?b with _ => _ end] => destruct b end; simpl);
    reflexivity.
Qed.

Lemma set_wf (n1 n2 : Z) (ch : L402Challenge) (ttl : option Z) (c : L402TokenCache) :
  wf c -> wf (set n1 n2 ch ttl c).
Proof.
  intros Hwf. unfold wf. rewrite set_entries by done.
  apply map_set_NoDup. unfold room.
  set (c1 := if maxEntries c <=? size c then (purgeExpired n1 c).1 else c).
  assert (Hwf1 : NoDup (keys (entries c1))).
  { subst c1. destruct (maxEntries c <=? size c); [|done].
    unfold purgeExpired. simpl. by apply filter_NoDup. }
  destruct (maxEntries c <=? size c1); [|done].
  destruct (entries c1) as [|kv m]; simpl in *; [done|].
  by apply NoDup_cons in Hwf1 as [_ ?].
Qed.

Lemma set_size (n1 n2 : Z) (ch : L402Challenge) (ttl : option Z) (c : L402TokenCache) :
  1 <= maxEntries c -> size c <= maxEntries c ->
  size (set n1 n2 ch ttl c) <= maxEntries c.
Proof.
  intros Hpos Hle. unfold set.
  set (c1 := if maxEntries c <=? size c then (purgeExpired n1 c).1 else c).
  assert (Hmax : maxEntries c1 = maxEntries c).
  { subst c1. by destruct (maxEntries c <=? size c). }
  assert (H1 : size c1 <= size c).
  { subst c1. destruct (maxEntries c <=? size c); [apply purgeExpired_size|lia]. }
  rewrite Hmax.
  match goal with |- size (with_entries ?c2 _) <= _ =>
    assert (H2 : size c2 <= maxEntries c - 1) end.
  { destruct (Z.leb_spec (maxEntries c) (size c1)) as [Hfull|Hroom]; [|lia].
    destruct (entries c1) as [|[k v] m] eqn:E; simpl.
    - unfold size in Hfull. rewrite E in Hfull. simpl in Hfull. lia.
    - unfold size in *. simpl. rewrite E in H1. simpl in H1.
      pose proof (map_delete_first_length k v m). lia. }
  match goal with |- size (with_entries ?c2 (map_set ?k ?v _)) <= _ =>
    pose proof (map_set_length k v (entries c2)) as H3 end.
  unfold size in *. simpl. lia.
Qed.

Lemma get_size (now : Z) (key : string) (c : L402TokenCache) :
  size (get now key c).2 <= size c.
Proof.
  unfold get. destruct (map_get key (entries c)) as [e|]; simpl; [|lia].
  destruct (expiresAt e <? now); simpl; [|lia].
  unfold size. simpl. apply inj_le, length_filter.
Qed.

Lemma call_maxEntries (c : L402TokenCache) (op : cacheCall) :
  maxEntries (call c op) = maxEntries c.
Proof.
  destruct op as [n1 n2 ch ttl|now k|now|]; unfold call; try reflexivity.
  - apply set_maxEntries.
  - unfold get. destruct (map_get k (entries c)) as [e|]; [|reflexivity].
    by destruct (expiresAt e <? now).
Qed.

Lemma call_size (c : L402TokenCache) (op : cacheCall) :
  1 <= maxEntries c -> size c <= maxEntries c ->
  size (call c op) <= maxEntries c.
Proof.
  intros Hpos Hle. destruct op as [n1 n2 ch ttl|now k|now|]; unfold call.
  - by apply set_size.
  - pose proof (get_size now k c). lia.
  - pose proof (purgeExpired_size now c). lia.
  - unfold size. simpl. lia.
Qed.

Lemma call_wf (c : L402TokenCache) (op : cacheCall) : wf c -> wf (call c op).
Proof.
  intros Hwf. destruct op as [n1 n2 ch ttl|now k|now|]; unfold call.
  - by apply set_wf.
  - unfold get. destruct (map_get k (entries c)) as [e|]; [|done].
    destruct (expiresAt e <? now); [|done].
    unfold wf. simpl. by apply filter_NoDup.
  - unfold wf, purgeExpired. simpl. by apply filter_NoDup.
  - unfold wf. simpl. apply NoDup_nil_2.
Qed.

Lemma calls_invariant (ops : list cacheCall) (c : L402TokenCache) :
  1 <= maxEntries c -> size c <= maxEntries c -> wf c ->
  size (calls c ops) <= maxEntries c /\ wf (calls c ops).
Proof.
  revert c. induction ops as [|op ops IH]; intros c Hpos Hle Hwf; simpl; [done|].
  unfold calls in *. simpl.
  rewrite <- (call_maxEntries c op).
  apply IH.
  - by rewrite call_maxEntries.
  - rewrite call_maxEntries. by apply call_size.
  - by apply call_wf.
Qed.

(** The capacity of a cache made by the constructor. *)
Definition capacity (optMaxEntries : option Z) : Z := default 1000 optMaxEntries.

(** Six challenges, as in the test of the eviction. *)
Definition challengeNo (i : string) : L402Challenge :=
  mkChallenge ("mac_" +:+ i) ("lnbc_" +:+ i) ("ph_" +:+ i) 0%float.

Definition sixSets : list cacheCall :=
  map (fun i => CallSet 0 0 (challengeNo i) None) ["0"; "1"; "2"; "3"; "4"; "5"].

Example evicts_oldest :
  let c := calls (newCache (Some 5) (Some 1000)) sixSets in
  size c = 5
  /\ keys (entries c) = ["ph_1"; "ph_2"; "ph_3"; "ph_4"; "ph_5"].
Proof. vm_compute. done. Qed.

(** The oldest entry goes even when it is the one that expires last. *)
Example evicts_oldest_not_soonest :
  let c0 := calls (newCache (Some 2) None)
              [CallSet 0 0 (challengeNo "a") (Some 9000);
               CallSet 0 0 (challengeNo "b") (Some 10)] in
  keys (entries (set 5 5 (challengeNo "c") None c0)) = ["ph_b"; "ph_c"].
Proof. vm_compute. done. Qed.

(** C6, as the code has it: with a capacity of at least one, a cache made
    by the constructor never holds more than [maxEntries] entries, whatever
    calls are made on it; [set] on a cache at capacity first purges the
    expired entries and, if the cache is still at capacity, removes exactly
    the first entry in insertion order, whatever its expiry, before it
    inserts; and [get] of an entry whose expiry has passed returns
    [undefined] and removes that entry and no other, whether or not a
    purge has run. *)
Theorem tokenCache_claim :
  (forall (optMaxEntries optTtl : option Z) (ops : list cacheCall),
     1 <= capacity optMaxEntries ->
     let c := calls (newCache optMaxEntries optTtl) ops in
     size c <= capacity optMaxEntries /\ maxEntries c = capacity optMaxEntries /\ wf c)
  /\ (forall (c : L402TokenCache) nowPurge nowInsert challenge ttlMs,
        wf c -> maxEntries c <= size c ->
        let purged := (purgeExpired nowPurge c).1 in
        entries (set nowPurge nowInsert challenge ttlMs c)
        = map_set (paymentHash challenge) (newEntry nowInsert challenge ttlMs c)
            (if maxEntries c <=? size purged
             then tail (entries purged) else entries purged))
  /\ (forall (c : L402TokenCache) now key entry,
        map_get key (entries c) = Some entry ->
        expiresAt entry < now ->
        (get now key c).1 = None
        /\ map_get key (entries (get now key c).2) = None
        /\ forall other, other ≠ key ->
             map_get other (entries (get now key c).2) = map_get other (entries c)).
Proof.
  split; [|split].
  - intros optMax optTtl ops Hpos c.
    assert (Hmax : maxEntries (newCache optMax optTtl) = capacity optMax) by reflexivity.
    destruct (calls_invariant ops (newCache optMax optTtl)) as [Hsize Hwf].
    + by rewrite Hmax.
    + rewrite Hmax. unfold size. simpl. lia.
    + unfold wf. simpl. apply NoDup_nil_2.
    + split; [by rewrite Hmax in Hsize|]. split; [|exact Hwf].
      subst c. rewrite <- Hmax. clear.
      generalize (newCache optMax optTtl). induction ops as [|op ops IH]; intros c0; [done|].
      unfold calls in *. simpl. by rewrite IH, call_maxEntries.
  - intros c n1 n2 ch ttl Hwf Hfull purged.
    rewrite set_entries by done. unfold room.
    apply Z.leb_le in Hfull. by rewrite Hfull.
  - intros c now key entry Hget Hexp. unfold get. rewrite Hget.
    apply Z.ltb_lt in Hexp. rewrite Hexp. simpl.
    split; [done|]. split; [apply map_get_delete|].
    intros other Hne. by apply map_get_delete_other.
Qed.

(** The run of the eviction test stays within its capacity of five. *)
Lemma tokenCache_claim_witness :
  size (calls (newCache (Some 5) (Some 1000)) sixSets) <= 5.
Proof.
  apply (proj1 tokenCache_claim (Some 5) (Some 1000) sixSets).
  unfold capacity. simpl. lia.
Defined.

(** C6 as stated fails for a cache of capacity zero: [set] finds nothing
    to evict and inserts all the same. *)
Lemma tokenCache_capacity_zero :
  let c := set 0 0 (challengeNo "0") None (newCache (Some 0) None) in
  maxEntries c = 0 /\ size c = 1.
Proof. vm_compute. done. Qed.

End CacheSpec.

(** ** results.ts: the error code of a failure envelope *)

Module ResultsSpec.
Import Js Types Results.

(** The code the upstream declares in a record body: [error.code], else
    [code], else the [status] field. *)
Definition declaredCode (data : value) : option string :=
  nullish (asString (nested_prop (nestedErrorOf data) "code"))
    (nullish (asString (prop data "code")) (asString (prop data "status"))).

(** The status field of a record body. *)
Definition bodyStatus (data : value) : option string :=
  asString (prop data "status").

Lemma fromHttpResponse_failure (endpoint : string) (response : NormalizedHttpResponse)
    (model : option string) (priceSats : option float) :
  (200 <=? status response) && (status response <? 300) = false ->
  fromHttpResponse endpoint response model priceSats
  = NotOk (buildErrorResult endpoint (status response) (data response)
             (headers response) model).
Proof. unfold fromHttpResponse. by intros ->. Qed.

Lemma mapErrorCode_record (status : Z) (data : value) :
  isRecord data = true ->
  mapErrorCode status data =
  if (status =? 402) && is_string (bodyStatus data) "payment_required"
  then "payment_required"
  else if (status =? 402) && is_string (bodyStatus data) "insufficient_balance"
  then "insufficient_balance"
  else default (if status =? 401 then "invalid_token" else "upstream_error")
         (declaredCode data).
Proof. unfold mapErrorCode. by intros ->. Qed.

Lemma mapErrorCode_not_record (status : Z) (data : value) :
  isRecord data = false ->
  mapErrorCode status data =
  if status =? 401 then "invalid_token"
  else if status =? 402 then "payment_required"
  else if status =? 404 then "endpoint_not_found"
  else if status =? 413 then "request_too_large"
  else if status =? 429 then "rate_limited"
  else if 500 <=? status then "upstream_unavailable"
  else "upstream_error".
Proof. unfold mapErrorCode. by intros ->. Qed.

(** The 402 of the integration test: a quote with its payment data. *)
Definition quoteResponse : NormalizedHttpResponse :=
  mkResponse 402
    {[ "content-type" := "application/json"; "x-topup-url" := "/topup" ]}
    (VObj [("status", VStr "payment_required"); ("invoice", VStr "lnbc_test");
           ("payment_hash", VStr "hash"); ("amount_sats", VNum 30%float)]).

Example quote_envelope :
  fromHttpResponse "/v1/responses" quoteResponse (Some "gpt-4o-mini") (Some 30%float)
  = NotOk (mkError 402 "/v1/responses" (Some "gpt-4o-mini")
             (mkPayload "payment_required" "payment_required"
                [("amount_sats", VNum 30%float); ("invoice", VStr "lnbc_test");
                 ("payment_hash", VStr "hash"); ("topup_url", VStr "/topup")])).
Proof. vm_compute. reflexivity. Qed.

(** A record body without any code, on a 404. *)
Example not_found_empty_record :
  mapErrorCode 404 (VObj []) = "upstream_error".
Proof. reflexivity. Qed.

(** C5, as the code has it. A response whose status is not 2xx becomes a
    failure envelope, whose code is: for a 402 whose body is a record with
    the status field [payment_required] or [insufficient_balance], that
    field; for any other record body that declares a code ([error.code],
    else [code], else the status field), the declared code, whatever the
    status; for a record body that declares none and the status 401,
    [invalid_token]; and for a body that is not a record, the code given by
    the status alone: 401 [invalid_token], 402 [payment_required], 404
    [endpoint_not_found], 413 [request_too_large], 429 [rate_limited], 500
    and above [upstream_unavailable], anything else [upstream_error]. *)
Theorem errorCode_claim :
  forall (endpoint : string) (response : NormalizedHttpResponse)
         (model : option string) (priceSats : option float),
    let st := status response in
    let body := data response in
    (200 <=? st) && (st <? 300) = false ->
    exists e,
      fromHttpResponse endpoint response model priceSats = NotOk e
      /\ errorStatus e = st
      /\ errorEndpoint e = endpoint
      /\ (isRecord body = true -> st = 402 ->
          bodyStatus body = Some "payment_required" ->
          code (error e) = "payment_required")
      /\ (isRecord body = true -> st = 402 ->
          bodyStatus body = Some "insufficient_balance" ->
          code (error e) = "insufficient_balance")
      /\ (forall declared,
            isRecord body = true -> declaredCode body = Some declared ->
            ~ (st = 402 /\ (bodyStatus body = Some "payment_required"
                            \/ bodyStatus body = Some "insufficient_balance")) ->
            code (error e) = declared)
      /\ (isRecord body = true -> declaredCode body = None -> st = 401 ->
          code (error e) = "invalid_token")
      /\ (isRecord body = false ->
          (st = 401 -> code (error e) = "invalid_token")
          /\ (st = 402 -> code (error e) = "payment_required")
          /\ (st = 404 -> code (error e) = "endpoint_not_found")
          /\ (st = 413 -> code (error e) = "request_too_large")
          /\ (st = 429 -> code (error e) = "rate_limited")
          /\ (500 <= st -> code (error e) = "upstream_unavailable")
          /\ (st < 500 -> st ∉ [401; 402; 404; 413; 429] ->
              code (error e) = "upstream_error")).
Proof.
  intros endpoint response model priceSats st body Hfail.
  eexists. split; [by apply fromHttpResponse_failure|].
  simpl. fold st body.
  split; [done|]. split; [done|].
  split; [|split; [|split; [|split]]].
  - intros Hrec -> Hst. rewrite mapErrorCode_record by done.
    by rewrite Hst.
  - intros Hrec -> Hst. rewrite mapErrorCode_record by done.
    by rewrite Hst.
  - intros declared Hrec Hdecl Hnot. rewrite mapErrorCode_record by done.
    rewrite Hdecl. simpl.
    destruct (st =? 402) eqn:E; simpl; [|done].
    apply Z.eqb_eq in E. unfold is_string.
    rewrite !bool_decide_eq_false_2; [done| |]; intros H; apply Hnot; auto.
  - intros Hrec Hdecl ->. rewrite mapErrorCode_record by done.
    rewrite Hdecl. done.
  - intros Hrec. rewrite mapErrorCode_not_record by done.
    repeat split.
    + by intros ->.
    + by intros ->.
    + by intros ->.
    + by intros ->.
    + by intros ->.
    + intros H500.
      repeat (match goal with |- context [?a =? ?b] =>
                destruct (Z.eqb_spec a b); [lia|] end).
      destruct (Z.leb_spec 500 st); [done|lia].
    + intros Hlt Hnin.
      repeat (match goal with |- context [?a =? ?b] =>
                destruct (Z.eqb_spec a b);
                [exfalso; apply Hnin; subst; set_solver|] end).
      destruct (Z.leb_spec 500 st); [lia|done].
Qed.

(** The quote of the integration test is a [payment_required] failure. *)
Lemma errorCode_claim_witness :
  exists e,
    fromHttpResponse "/v1/responses" quoteResponse None None = NotOk e
    /\ code (error e) = "payment_required".
Proof.
  destruct (errorCode_claim "/v1/responses" quoteResponse None None eq_refl)
    as (e & He & _ & _ & Hpay & _).
  exists e. split; [exact He|]. by apply Hpay.
Defined.

(** C5 as stated fails on a 404 whose JSON body declares a code of its
    own: the envelope carries that code, not [endpoint_not_found]. *)
Lemma errorCode_404_declared :
  fromHttpResponse "/v1/responses"
    (mkResponse 404 {[ "content-type" := "application/json" ]}
       (VObj [("error", VObj [("code", VStr "model_not_found")])]))
    None None
  = NotOk (mkError 404 "/v1/responses" None
             (mkPayload "model_not_found"
                "Upstream request failed with status 404" [])).
Proof. vm_compute. reflexivity. Qed.

End ResultsSpec.

(** ** utils.ts: tool names *)

Module NameSpec.
Import Js Utils.

Fixpoint all_chars (P : ascii -> bool) (s : string) : bool :=
  match s with
  | EmptyString => true
  | String c s' => P c && all_chars P s'
  end.

Definition starts_with_underscore (s : string) : bool :=
  match s with
  | String c _ => is_underscore c
  | EmptyString => false
  end.

Fixpoint ends_with_underscore (s : string) : bool :=
  match s with
  | EmptyString => false
  | String c EmptyString => is_underscore c
  | String _ s' => ends_with_underscore s'
  end.

(** No underscore follows an underscore; [after_underscore] tells that the
    code unit before [s] is one. *)
Fixpoint single_underscores (after_underscore : bool) (s : string) : bool :=
  match s with
  | EmptyString => true
  | String c s' =>
      if is_underscore c
      then negb after_underscore && single_underscores true s'
      else single_underscores false s'
  end.

(** The names the host accepts: lower-case letters, digits and single
    underscores, none of them first or last. *)
Definition valid_name (s : string) : bool :=
  all_chars name_char s
  && negb (starts_with_underscore s)
  && negb (ends_with_underscore s)
  && single_underscores false s.

Lemma replace_other_runs_chars (b : bool) (s : string) :
  all_chars name_char (replace_other_runs b s) = true.
Proof.
  revert b. induction s as [|c s IH]; intros b; simpl; [done|].
  destruct (name_char c) eqn:E; simpl.
  - by rewrite E, IH.
  - destruct b; simpl; by rewrite ?IH.
Qed.

Lemma drop_leading_chars (P : ascii -> bool) (s : string) :
  all_chars P s = true -> all_chars P (drop_leading_underscores s) = true.
Proof.
  induction s as [|c s IH]; simpl; [done|].
  intros [Hc Hs]%andb_prop. destruct (is_underscore c); [by apply IH|].
  simpl. by rewrite Hc, Hs.
Qed.

Lemma drop_trailing_chars (P : ascii -> bool) (s : string) :
  all_chars P s = true -> all_chars P (drop_trailing_underscores s) = true.
Proof.
  induction s as [|c s IH]; simpl; [done|].
  intros [Hc Hs]%andb_prop.
  destruct (is_underscore c && negb (truthy (drop_trailing_underscores s))); [done|].
  simpl. by rewrite Hc, IH.
Qed.

Lemma collapse_chars (P : ascii -> bool) (b : bool) (s : string) :
  all_chars P s = true -> all_chars P (collapse_underscores b s) = true.
Proof.
  revert b. induction s as [|c s IH]; intros b; simpl; [done|].
  intros [Hc Hs]%andb_prop.
  destruct (is_underscore c); [destruct b|]; simpl; rewrite ?Hc, ?IH; done.
Qed.

Lemma drop_leading_start (s : string) :
  starts_with_underscore (drop_leading_underscores s) = false.
Proof.
  induction s as [|c s IH]; simpl; [done|].
  destruct (is_underscore c) eqn:E; [exact IH|]. simpl. exact E.
Qed.

Lemma drop_trailing_start (s : string) :
  starts_with_underscore s = false ->
  starts_with_underscore (drop_trailing_underscores s) = false.
Proof.
  destruct s as [|c s]; simpl; [done|].
  intros H. rewrite H. simpl. exact H.
Qed.

Lemma drop_trailing_end (s : string) :
  ends_with_underscore (drop_trailing_underscores s) = false.
Proof.
  induction s as [|c s IH]; simpl; [done|].
  destruct (is_underscore c) eqn:E; simpl.
  - destruct (drop_trailing_underscores s) as [|c' r] eqn:R; simpl; [done|].
    exact IH.
  - destruct (drop_trailing_underscores s) as [|c' r] eqn:R; simpl; [exact E|].
    exact IH.
Qed.

Lemma collapse_start (s : string) :
  starts_with_underscore s = false ->
  starts_with_underscore (collapse_underscores false s) = false.
Proof.
  destruct s as [|c s]; simpl; [done|].
  intros H. rewrite H. simpl. exact H.
Qed.

Lemma collapse_empty (b : bool) (s : string) :
  collapse_underscores b s = EmptyString ->
  s = EmptyString \/ (b = true /\ ends_with_underscore s = true).
Proof.
  revert b. induction s as [|c s IH]; intros b; simpl; [auto|].
  destruct (is_underscore c) eqn:E; [destruct b|]; try discriminate.
  intros H. right. split; [done|].
  destruct (IH true H) as [->|[_ Hs]]; [simpl; by rewrite ?E|].
  destruct s; [done|exact Hs].
Qed.

Lemma collapse_end (b : bool) (s : string) :
  ends_with_underscore s = false ->
  ends_with_underscore (collapse_underscores b s) = false.
Proof.
  revert b. induction s as [|c s IH]; intros b; simpl; [done|].
  intros H.
  assert (Hs : s = EmptyString \/ (s <> EmptyString /\ ends_with_underscore s = false)).
  { destruct s; [by left|right]. split; [done|exact H]. }
  destruct Hs as [->|[Hne Hs]].
  - simpl in *. rewrite H. simpl. exact H.
  - assert (Hrec : forall b', collapse_underscores b' s <> EmptyString).
    { intros b' Hb. apply collapse_empty in Hb as [?|[_ Hb]]; [done|congruence]. }
    destruct (is_underscore c); [destruct b|].
    + by apply IH.
    + simpl. specialize (Hrec true).
      destruct (collapse_underscores true s) eqn:R; [done|].
      rewrite <- R. by apply IH.
    + simpl. specialize (Hrec false).
      destruct (collapse_underscores false s) eqn:R; [done|].
      rewrite <- R. by apply IH.
Qed.

Lemma collapse_single (b : bool) (s : string) :
  single_underscores b (collapse_underscores b s) = true.
Proof.
  revert b. induction s as [|c s IH]; intros b; simpl; [done|].
  destruct (is_underscore c) eqn:E; [destruct b|]; simpl; rewrite ?E; simpl; apply IH.
Qed.

(** Whatever its input, [sanitizeToolName] returns a valid name (or the
    empty string). *)
Lemma sanitizeToolName_valid (input : string) :
  valid_name (sanitizeToolName input) = true.
Proof.
  unfold valid_name, sanitizeToolName, strip_underscores.
  set (r := replace_other_runs false (toLowerCase input)).
  rewrite collapse_chars, collapse_start, collapse_end, collapse_single; [done|..].
  - apply drop_trailing_end.
  - apply drop_trailing_start, drop_leading_start.
  - apply drop_trailing_chars, drop_leading_chars, replace_other_runs_chars.
Qed.

Example sanitize_path :
  sanitizeToolName "albom_openai_audio-speech" = "albom_openai_audio_speech".
Proof. vm_compute. reflexivity. Qed.

Example sanitize_mixed :
  sanitizeToolName "__Albom  Open.AI__v2__" = "albom_open_ai_v2".
Proof. vm_compute. reflexivity. Qed.

End NameSpec.

(** ** dedup.ts *)

Module DedupSpec.
Import Js Utils Catalog Dedup NameSpec.

(** *** Duplicate candidates *)

Example jaccard_identical :
  modelSetJaccard ["gpt-4o"; "gpt-4o-mini"] ["gpt-4o-mini"; "gpt-4o"] = 1%float.
Proof. vm_compute. reflexivity. Qed.

(** Five models in common out of six: below the threshold. *)
Example jaccard_five_of_six :
  PrimFloat.leb threshold
    (modelSetJaccard ["a"; "b"; "c"; "d"; "e"] ["a"; "b"; "c"; "d"; "e"; "f"]) = false.
Proof. vm_compute. reflexivity. Qed.

(** Nineteen models in common out of twenty: exactly the threshold. *)
Example jaccard_nineteen_of_twenty :
  let common := ["a"; "b"; "c"; "d"; "e"; "f"; "g"; "h"; "i"; "j"; "k"; "l"; "m";
                 "n"; "o"; "p"; "q"; "r"; "s"] in
  PrimFloat.leb threshold (modelSetJaccard common (common ++ ["t"])) = true.
Proof. vm_compute. reflexivity. Qed.

(** Two endpoints without models, as a catalog of flat-priced endpoints
    has them. *)
Definition flatEndpoint (p : string) : EndpointDescriptor :=
  mkEndpoint "openai" "OpenAI" p "POST" ("POST " +:+ p) json [] None "audio".

(** C10. [modelSetJaccard] of two empty lists is 1; so two endpoints that
    declare no models are duplicate candidates as soon as they agree on
    method, content type and family. *)
Theorem emptyModels_duplicateCandidate :
  modelSetJaccard [] [] = 1%float
  /\ forall a b : EndpointDescriptor,
       models a = [] -> models b = [] ->
       method a = method b ->
       contentType a = contentType b ->
       family a = family b ->
       isDuplicateCandidate a b = true.
Proof.
  split; [reflexivity|].
  intros a b Ha Hb Hm Hc Hf. unfold isDuplicateCandidate.
  rewrite Ha, Hb, Hm, Hc, Hf.
  rewrite !bool_decide_eq_true_2 by done. reflexivity.
Qed.

Lemma emptyModels_duplicateCandidate_witness :
  isDuplicateCandidate (flatEndpoint "/v1/audio/speech")
    (flatEndpoint "/v1/audio/translations") = true.
Proof.
  apply (proj2 emptyModels_duplicateCandidate); reflexivity.
Defined.

(** *** The compact profile *)

(** The tools of one kind, in order. *)
Definition ofKind (k : ToolKind) (tools : list PlannedTool) : list PlannedTool :=
  filter (fun tool => kind tool = k) tools.

Definition names (tools : list PlannedTool) : list string := map name tools.

Lemma endpointByPath_Some (catalog : CatalogState) (p : string) (e : EndpointDescriptor) :
  endpointByPath catalog p = Some e -> path e = p /\ method e = "POST".
Proof.
  unfold endpointByPath. induction (endpoints catalog) as [|x l IH]; simpl; [done|].
  destruct (bool_decide (path x = p) && bool_decide (method x = "POST")) eqn:E.
  - intros [= <-]. apply andb_prop in E as [H1 H2].
    split; by eapply bool_decide_eq_true_1.
  - exact IH.
Qed.


Lemma ofKind_app (k : ToolKind) (l1 l2 : list PlannedTool) :
  ofKind k (l1 ++ l2) = ofKind k l1 ++ ofKind k l2.
Proof. apply filter_app. Qed.




Ltac by_flags config :=
  destruct (includeVideo config), (includeModeration config),
    (includeEmbeddings config), (allowRawTool config).

Definition textTool (p : string) : PlannedTool :=
  endpointTool text_generate "albom_text_generate" "Text Generation"
    ("Generate text responses via " +:+ p +:+ ".") p DEFAULT_ANNOTATION.






(** A catalog like the fixture of the tests: both text endpoints with the
    same models, and the two image endpoints, five of whose six models
    are shared. *)
Definition fixtureEndpoint (p : string) (k : EndpointContentType) (ms : list string)
    (fam : string) : EndpointDescriptor :=
  mkEndpoint "openai" "OpenAI" p "POST" ("POST " +:+ p) k ms None fam.

Definition fixtureCatalog : CatalogState :=
  mkCatalog
    [fixtureEndpoint "/v1/chat/completions" json ["gpt-4o"; "gpt-4o-mini"] "text-generation";
     fixtureEndpoint "/v1/images/edits" multipart ["a"; "b"; "c"; "d"; "e"] "image";
     fixtureEndpoint "/v1/images/generations" json ["a"; "b"; "c"; "d"; "e"; "f"] "image";
     fixtureEndpoint "/v1/responses" json ["gpt-4o"; "gpt-4o-mini"] "text-generation"].


Section ToolState.
Variable sha256Hex : string -> string.
Variable JSON_stringify : value -> string.
Variable localeCompare : string -> string -> Z.

Abbreviation toolState := (buildToolState sha256Hex JSON_stringify localeCompare).


End ToolState.


Example fixture_images_not_candidates :
  isDuplicateCandidate
    (fixtureEndpoint "/v1/images/generations" json ["a"; "b"; "c"; "d"; "e"; "f"] "image")
    (fixtureEndpoint "/v1/images/edits" json ["a"; "b"; "c"; "d"; "e"] "image") = false.
Proof. vm_compute. reflexivity. Qed.

(** *** Tool names *)

Definition valid_tool (tool : PlannedTool) : Prop := valid_name (name tool) = true.

Lemma valid_push_if {A} (o : option A) (mk : A -> PlannedTool)
    (tools : list PlannedTool) :
  (forall x, valid_tool (mk x)) ->
  Forall valid_tool tools -> Forall valid_tool (push_if o mk tools).
Proof.
  intros Hmk Htools. destruct o as [x|]; simpl; [|done].
  apply Forall_app. split; [done|]. by apply Forall_singleton.
Qed.

Lemma makeCompactTools_valid (catalog : CatalogState) (config : AlbomConfig) :
  Forall valid_tool (makeCompactTools catalog config).
Proof.
  unfold makeCompactTools.
  by_flags config;
    repeat first
      [ apply valid_push_if; [intros ?; reflexivity|]
      | apply Forall_app; split; [|by apply Forall_singleton]
      | by apply Forall_singleton ].
Qed.

Lemma fullToolStep_valid (config : AlbomConfig) (st : list PlannedTool * gset string)
    (endpoint : EndpointDescriptor) :
  Forall valid_tool st.1 -> Forall valid_tool (fullToolStep config st endpoint).1.
Proof.
  destruct st as [tools used]. simpl. intros H.
  destruct (negb (bool_decide (method endpoint = "POST"))); [done|].
  destruct (negb (shouldIncludeFullEndpoint endpoint config)); [done|].
  simpl. apply Forall_app. split; [done|]. apply Forall_singleton.
  unfold valid_tool. simpl.
  destruct (bool_decide _); apply sanitizeToolName_valid.
Qed.

Lemma makeFullTools_valid (catalog : CatalogState) (config : AlbomConfig) :
  Forall valid_tool (makeFullTools catalog config).
Proof.
  unfold makeFullTools.
  assert (Hfold : forall l st, Forall valid_tool st.1 ->
                     Forall valid_tool (foldl (fullToolStep config) st l).1).
  { induction l as [|e l IH]; intros st H0; [done|].
    cbn [foldl]. by apply IH, fullToolStep_valid. }
  assert (H : Forall valid_tool
                (foldl (fullToolStep config)
                   ([catalogGetTool], list_to_set (map name [catalogGetTool]))
                   (endpoints catalog)).1).
  { apply Hfold. by apply Forall_singleton. }
  destruct (allowRawTool config); [|done].
  apply Forall_app. split; [done|]. by apply Forall_singleton.
Qed.

(** Every tool of a tool state has a valid name, in both profiles. *)
Lemma toolNames_valid sha256Hex JSON_stringify localeCompare
    (catalog : CatalogState) (config : AlbomConfig) :
  Forall valid_tool
    (tools (buildToolState sha256Hex JSON_stringify localeCompare catalog config)).
Proof.
  unfold buildToolState. simpl. destruct (toolProfile config).
  - apply makeCompactTools_valid.
  - apply makeFullTools_valid.
Qed.

(** The names of the compact profile, in the order of the tools. *)
Definition compactNames : list string :=
  ["albom_catalog_get"; "albom_text_generate"; "albom_image_generate";
   "albom_image_edit"; "albom_audio_transcribe"; "albom_audio_speech";
   "albom_video_generate"; "albom_safety_moderate"; "albom_embedding_create";
   "albom_raw_call"].

Lemma names_push_if {A} (o : option A) (mk : A -> PlannedTool)
    (tools : list PlannedTool) (n : string) (l : list string) :
  (forall x, name (mk x) = n) ->
  names tools `sublist_of` l ->
  names (push_if o mk tools) `sublist_of` l ++ [n].
Proof.
  intros Hmk Hsub. destruct o as [x|]; simpl.
  - unfold names. rewrite map_app. simpl. rewrite Hmk.
    by apply sublist_app.
  - rewrite <- (app_nil_r (names tools)). apply sublist_app; [done|].
    apply sublist_nil_l.
Qed.

Lemma names_skip (tools : list PlannedTool) (n : string) (l : list string) :
  names tools `sublist_of` l -> names tools `sublist_of` l ++ [n].
Proof.
  intros Hsub. rewrite <- (app_nil_r (names tools)).
  apply sublist_app; [done|]. apply sublist_nil_l.
Qed.

Lemma names_push (tools : list PlannedTool) (tool : PlannedTool) (l : list string) :
  names tools `sublist_of` l ->
  names (tools ++ [tool]) `sublist_of` l ++ [name tool].
Proof.
  intros Hsub. unfold names. rewrite map_app. by apply sublist_app.
Qed.

Lemma makeCompactTools_names (catalog : CatalogState) (config : AlbomConfig) :
  names (makeCompactTools catalog config) `sublist_of` compactNames.
Proof.
  unfold makeCompactTools.
  change compactNames with
    ((((((((([ "albom_catalog_get" ] ++ ["albom_text_generate"])
              ++ ["albom_image_generate"]) ++ ["albom_image_edit"])
            ++ ["albom_audio_transcribe"]) ++ ["albom_audio_speech"])
          ++ ["albom_video_generate"]) ++ ["albom_safety_moderate"])
        ++ ["albom_embedding_create"]) ++ ["albom_raw_call"]).
  by_flags config;
    repeat first
      [ apply (names_push _ rawCallTool)
      | apply names_push_if; [intros ?; reflexivity|]
      | apply names_skip
      | reflexivity ].
Qed.

(** In the compact profile no two tools share a name. *)
Lemma makeCompactTools_NoDup (catalog : CatalogState) (config : AlbomConfig) :
  NoDup (names (makeCompactTools catalog config)).
Proof.
  eapply sublist_NoDup; [|apply makeCompactTools_names].
  unfold compactNames.
  apply (bool_decide_unpack (NoDup _)). vm_compute. exact I.
Qed.

(** *** The full profile *)

Definition fullConfig : AlbomConfig := mkConfig full true true true false.

(** A name that is taken gets the method as a suffix; one that is free is
    kept. *)
Lemma fullToolStep_name (config : AlbomConfig) (tools : list PlannedTool)
    (used : gset string) (endpoint : EndpointDescriptor) :
  method endpoint = "POST" ->
  shouldIncludeFullEndpoint endpoint config = true ->
  let base := fullToolName (apiKey endpoint) (path endpoint) in
  let chosen := if bool_decide (base ∈ used)
                then sanitizeToolName (base +:+ "_post") else base in
  names (fullToolStep config (tools, used) endpoint).1 = names tools ++ [chosen]
  /\ (fullToolStep config (tools, used) endpoint).2 = {[ chosen ]} ∪ used.
Proof.
  intros Hpost Hincl base chosen. unfold fullToolStep.
  rewrite Hpost, Hincl. simpl.
  unfold names. rewrite map_app. simpl. done.
Qed.

Example full_names_fixture :
  names (makeFullTools fixtureCatalog fullConfig)
  = ["albom_catalog_get"; "albom_openai_chat_completions";
     "albom_openai_images_edits"; "albom_openai_images_generations";
     "albom_openai_responses"].
Proof. vm_compute. reflexivity. Qed.

(** Two endpoints of one name: the second gets the suffix. *)
Example full_names_two_collide :
  names (makeFullTools
           (mkCatalog [fixtureEndpoint "/v1/audio/speech" json [] "audio";
                       fixtureEndpoint "/v1/audio-speech" json [] "audio"])
           fullConfig)
  = ["albom_catalog_get"; "albom_openai_audio_speech";
     "albom_openai_audio_speech_post"].
Proof. vm_compute. reflexivity. Qed.

(** Three POST endpoints whose paths differ in punctuation only. *)
Definition collidingCatalog : CatalogState :=
  mkCatalog [fixtureEndpoint "/v1/audio/speech" json [] "audio";
             fixtureEndpoint "/v1/audio-speech" json [] "audio";
             fixtureEndpoint "/v1/audio_speech" json [] "audio"].

(** C9 on the code: the suffix is not checked against the names in use, so
    of three endpoints of one name the second and the third both get the
    suffixed name, and the tool state holds that name twice. *)
Theorem full_names_three_collide :
  forall sha256Hex JSON_stringify localeCompare,
    names (tools (buildToolState sha256Hex JSON_stringify localeCompare
                    collidingCatalog fullConfig))
    = ["albom_catalog_get"; "albom_openai_audio_speech";
       "albom_openai_audio_speech_post"; "albom_openai_audio_speech_post"].
Proof. intros. vm_compute. reflexivity. Qed.

(** The raw tool is added without a look at the names in use either. *)
Example full_names_raw_collide :
  names (makeFullTools
           (mkCatalog [mkEndpoint "raw" "Raw" "/v1/call" "POST" "POST /v1/call"
                         json [] None "call"])
           (mkConfig full true true true true))
  = ["albom_catalog_get"; "albom_raw_call"; "albom_raw_call"].
Proof. vm_compute. reflexivity. Qed.

End DedupSpec.

(** ** httpClient.ts *)

Module HttpSpec.
Import Js L402 Types HttpClient.

(** *** Header resolution *)

Definition accept : gmap string string := {[ "accept" := "*/*" ]}.

(** The four ways in which a call is authorized. *)
Definition hasCredentials (requestOptions : RequestOptions) : Prop :=
  is_Some (l402Auth requestOptions).
Definition hasBearer (options : HttpClientOptions) : Prop :=
  truthy_opt (bearerToken options) = true.
Definition hasAutoPay (options : HttpClientOptions) : Prop :=
  is_Some (l402Handler options).
Definition wantsQuote (requestOptions : RequestOptions) : Prop :=
  allowL402Quote requestOptions = true.

Definition authorized (options : HttpClientOptions) (requestOptions : RequestOptions)
  : Prop :=
  hasCredentials requestOptions \/ hasBearer options \/ hasAutoPay options
  \/ wantsQuote requestOptions.

Definition isMissingToken (e : AlbomRuntimeError) : Prop :=
  errorCode e = "missing_bearer_token" /\ errorStatus e = 401.

Lemma resolveHeaders_credentials options requestOptions auth :
  l402Auth requestOptions = Some auth ->
  resolveHeaders options requestOptions
  = Returns (<["authorization" :=
                 buildL402Authorization (authMacaroon auth) (authPreimage auth)]> accept).
Proof. unfold resolveHeaders. by intros ->. Qed.

Lemma resolveHeaders_bearer options requestOptions token :
  l402Auth requestOptions = None ->
  bearerToken options = Some token -> truthy token = true ->
  resolveHeaders options requestOptions
  = Returns (<["authorization" := "Bearer " +:+ token]> accept).
Proof. unfold resolveHeaders. intros -> -> Ht. simpl. by rewrite Ht. Qed.

Lemma resolveHeaders_autoPay options requestOptions :
  l402Auth requestOptions = None -> ~ hasBearer options -> hasAutoPay options ->
  resolveHeaders options requestOptions = Returns accept.
Proof.
  unfold resolveHeaders, hasBearer, hasAutoPay. intros -> Hb Hh.
  destruct (truthy_opt (bearerToken options)); [done|].
  by rewrite bool_decide_eq_true_2.
Qed.

Lemma resolveHeaders_quote options requestOptions :
  l402Auth requestOptions = None -> ~ hasBearer options -> ~ hasAutoPay options ->
  wantsQuote requestOptions ->
  resolveHeaders options requestOptions = Returns accept.
Proof.
  unfold resolveHeaders, hasBearer, hasAutoPay, wantsQuote. intros -> Hb Hh ->.
  destruct (truthy_opt (bearerToken options)); [done|].
  by rewrite bool_decide_eq_false_2.
Qed.

Lemma resolveHeaders_missing options requestOptions :
  ~ authorized options requestOptions ->
  exists e, resolveHeaders options requestOptions = Throws e /\ isMissingToken e.
Proof.
  unfold authorized, hasCredentials, hasBearer, hasAutoPay, wantsQuote, resolveHeaders.
  intros H.
  destruct (l402Auth requestOptions); [destruct H; eauto|].
  destruct (truthy_opt (bearerToken options)); [destruct H; eauto|].
  rewrite bool_decide_eq_false_2 by (intros ?; apply H; eauto).
  destruct (allowL402Quote requestOptions); [destruct H; eauto 6|].
  eexists. split; [reflexivity|]. by split.
Qed.

Lemma resolveHeaders_returns options requestOptions headers :
  resolveHeaders options requestOptions = Returns headers ->
  authorized options requestOptions.
Proof.
  unfold authorized, hasCredentials, hasBearer, hasAutoPay, wantsQuote, resolveHeaders.
  destruct (l402Auth requestOptions); [eauto|].
  destruct (truthy_opt (bearerToken options)); [eauto|].
  case_bool_decide; [eauto|].
  destruct (allowL402Quote requestOptions); [eauto 6|discriminate].
Qed.

Section EntryPoints.
Variable JSON_stringify : value -> string.
Variable String_of : value -> string.
Variable options : HttpClientOptions.
Variable world : World.

(** A call through one of the three entry points. *)
Inductive entryCall : Type :=
| CallPostJson (endpointPath : string) (body : value)
| CallPostMultipart (endpointPath : string) (fields : list (string * value))
    (uploads : list PreparedUpload)
| CallRawPost (endpointPath : string) (body : BodyInit) (contentType : option string).

Definition perform (c : entryCall) (requestOptions : RequestOptions) (h : History)
  : completion NormalizedHttpResponse * History :=
  match c with
  | CallPostJson p body => postJson JSON_stringify options world p body requestOptions h
  | CallPostMultipart p fields uploads =>
      postMultipart JSON_stringify String_of options world p fields uploads
        requestOptions h
  | CallRawPost p body contentType =>
      rawPost options world p body contentType requestOptions h
  end.

Definition endpointOf (c : entryCall) : string :=
  match c with
  | CallPostJson p _ | CallPostMultipart p _ _ | CallRawPost p _ _ => p
  end.

(** Each entry point resolves the headers and then either fails on the
    spot or hands a POST with these headers, and at most a content type
    more, to [requestWithRetries]. *)
Lemma perform_unfold (c : entryCall) (requestOptions : RequestOptions) (h : History) :
  match resolveHeaders options requestOptions with
  | Throws e => perform c requestOptions h = (Throws e, h)
  | Returns headers =>
      exists init,
        perform c requestOptions h
        = requestWithRetries options world
            (composeEndpointUrl (baseUrl options) (endpointOf c)) init h
        /\ requestMethod init = "POST"
        /\ requestHeaders init !! "authorization" = headers !! "authorization"
  end.
Proof.
  destruct (resolveHeaders options requestOptions) as [headers|e] eqn:E.
  - destruct c as [p body|p fields uploads|p body ct]; simpl.
    + unfold postJson. rewrite E. eexists. split; [reflexivity|].
      split; [done|]. simpl. by rewrite lookup_insert_ne.
    + unfold postMultipart. rewrite E. eexists. split; [reflexivity|]. done.
    + unfold rawPost. rewrite E. eexists. split; [reflexivity|].
      split; [done|]. simpl. destruct (truthy_opt ct); [|done].
      by rewrite lookup_insert_ne.
  - destruct c; simpl; unfold postJson, postMultipart, rawPost; by rewrite E.
Qed.

End EntryPoints.

(** *** The retry loop *)

Definition isAttempt (e : Event) : bool :=
  match e with Attempt _ _ _ => true | _ => false end.
Definition isReplay (e : Event) : bool :=
  match e with Replay _ _ => true | _ => false end.
Definition isSleep (e : Event) : bool :=
  match e with Sleep _ => true | _ => false end.
Definition isPay (e : Event) : bool :=
  match e with Pay _ => true | _ => false end.

Fixpoint count (p : Event -> bool) (h : History) : nat :=
  match h with
  | [] => 0
  | e :: h' => (if p e then 1 else 0) + count p h'
  end.

Lemma count_app (p : Event -> bool) (h1 h2 : History) :
  count p (h1 ++ h2) = (count p h1 + count p h2)%nat.
Proof. induction h1 as [|e h1 IH]; simpl; [done|]. rewrite IH. lia. Qed.

(** The statuses that the documentation of the client lists as final. *)
Definition finalStatuses : list Z := [400; 401; 402; 404; 413].

Lemma finalStatus_not_retryable (status : Z) :
  status ∈ finalStatuses -> isRetryableStatus status = false.
Proof.
  unfold finalStatuses. rewrite !elem_of_cons, elem_of_nil.
  intros [->|[->|[->|[->|[->|[]]]]]]; reflexivity.
Qed.

Lemma retryable_status (status : Z) :
  isRetryableStatus status = true <-> status = 429 \/ 500 <= status.
Proof.
  unfold isRetryableStatus. rewrite orb_true_iff, Z.eqb_eq, Z.leb_le. done.
Qed.

(** [Math.round] of an integer plus a fraction. *)
Lemma Math_round_shift (n : Z) (x : Q) :
  Math_round (inject_Z n + x)%Q = n + Math_round x.
Proof.
  unfold Math_round.
  assert (E : (inject_Z n + x + (1 # 2) == inject_Z n + (x + (1 # 2)))%Q) by ring.
  rewrite E. destruct (x + (1 # 2))%Q as [a d].
  unfold Qfloor, Qplus, inject_Z. simpl.
  rewrite Z.mul_1_r. apply Z.div_add_l. lia.
Qed.

(** The jitter of a delay: [Math.random() * 80], rounded. *)
Definition jitterOf (random : Q) : Z := Math_round (random * 80)%Q.

Lemma jitterOf_range (random : Q) :
  (0 <= random)%Q -> (random < 1)%Q -> 0 <= jitterOf random <= 80.
Proof.
  intros H0 H1. unfold jitterOf, Math_round.
  assert (Hlo : Qfloor 0 <= Qfloor (random * 80 + (1 # 2))%Q)
    by (apply Qfloor_resp_le; lra).
  assert (Hhi : Qfloor (random * 80 + (1 # 2))%Q <= Qfloor (80 + (1 # 2))%Q)
    by (apply Qfloor_resp_le; lra).
  change (Qfloor 0) with 0 in Hlo.
  change (Qfloor (80 + (1 # 2))%Q) with 80 in Hhi.
  lia.
Qed.

(** The delay is 200 ms doubled per attempt, plus the jitter. *)
Lemma backoffMs_spec (attempt : nat) (random : Q) :
  backoffMs attempt random = 200 * 2 ^ Z.of_nat attempt + jitterOf random.
Proof. unfold backoffMs, jitterOf. apply Math_round_shift. Qed.

Section Loop.
Variable options : HttpClientOptions.
Variable world : World.
Variable url : string.
Variable requestInit : RequestInit.

Abbreviation iterate := (iteration options world url requestInit).
Abbreviation attempted n h := (h ++ [Attempt n url requestInit]).
Abbreviation lastAttempt n := (bool_decide (n < maxAttempts options - 1)%nat).

(** The delay after attempt [n], started from the history [h]. *)
Definition delay (n : nat) (h : History) : Z :=
  backoffMs n (random world (attempted n h)).

(** The response of the attempt started from [h], once it is read in
    full. *)
Definition answered (h : History) (r : Response) (data : value) : Prop :=
  fetchFn world h url requestInit = Resolves r
  /\ parseResponseData world r = Resolves data.

(** A run of the loop from iteration [n]: the iterations that continue,
    in order, and then the one that returns. *)
Inductive Run : nat -> History -> completion NormalizedHttpResponse * History -> Prop :=
| run_return n h result h' :
    iterate n h = (Return result, h') -> Run n h (result, h')
| run_continue n h h' final :
    iterate n h = (Continue, h') -> Run (S n) h' final -> Run n h final.

Lemma catchBlock_Continue n error h h' :
  catchBlock options world n error h = (Continue, h') ->
  (n < maxRetries options)%nat
  /\ h' = h ++ [Sleep (backoffMs n (random world h))].
Proof.
  unfold catchBlock, maxAttempts. case_bool_decide; [|discriminate].
  intros [= <-]. split; [lia|done].
Qed.

Lemma catchBlock_Return n error h result h' :
  catchBlock options world n error h = (Return result, h') -> h' = h.
Proof.
  unfold catchBlock. case_bool_decide; [discriminate|]. by intros [= _ <-].
Qed.

Lemma autoPay_history handler responseHeaders data h :
  exists extra,
    (autoPay world url requestInit handler responseHeaders data h).2 = h ++ extra
    /\ count isAttempt extra = 0%nat /\ count isSleep extra = 0%nat
    /\ (count isReplay extra <= 1)%nat /\ (count isPay extra <= 1)%nat.
Proof.
  unfold autoPay.
  destruct (parseL402Challenge responseHeaders data) as [ch|].
  2:{ exists []. rewrite app_nil_r. simpl. repeat split; lia. }
  destruct (handler h ch) as [preimage|e].
  2:{ exists [Pay ch]. simpl. repeat split; lia. }
  match goal with |- context [fetchFn world ?h' url ?i] =>
    exists [Pay ch; Replay url i]; destruct (fetchFn world h' url i) as [r|e] end.
  - destruct (parseResponseData world r); simpl; rewrite <- app_assoc; repeat split; lia.
  - simpl. rewrite <- app_assoc. repeat split; lia.
Qed.

(** An iteration that continues: it was not the last one, it made one
    request and slept for the backoff delay, and its request was answered
    by a rejection, by a response that could not be read, or by a
    retryable status. *)
Lemma iterate_Continue n h h' :
  iterate n h = (Continue, h') ->
  (n < maxRetries options)%nat
  /\ h' = attempted n h ++ [Sleep (delay n h)]
  /\ forall r data, answered h r data ->
       isRetryableStatus (responseStatus r) = true.
Proof.
  unfold iteration, answered, delay.
  destruct (fetchFn world h url requestInit) as [r|e].
  2:{ intros Hc. apply catchBlock_Continue in Hc as [Hn ->].
      repeat split; [done|]. intros r data [? _]. discriminate. }
  destruct (if responseStatus r =? 402 then l402Handler options else None)
    as [handler|].
  - destruct (parseResponseData world r) as [data|e] eqn:P.
    + destruct (autoPay _ _ _ _ _ _ _). discriminate.
    + intros Hc. apply catchBlock_Continue in Hc as [Hn ->].
      repeat split; [done|]. intros r' data [[= <-] ?]. congruence.
  - destruct (isRetryableStatus (responseStatus r)) eqn:R; simpl.
    + unfold maxAttempts. case_bool_decide.
      * intros [= <-]. repeat split; [lia|]. by intros r' data [[= <-] _].
      * destruct (parseResponseData world r) as [data|e] eqn:P; [discriminate|].
        intros Hc. apply catchBlock_Continue in Hc as [Hn ->].
        repeat split; [done|]. by intros r' data [[= <-] _].
    + destruct (parseResponseData world r) as [data|e] eqn:P; [discriminate|].
      intros Hc. apply catchBlock_Continue in Hc as [Hn ->].
      repeat split; [done|]. intros r' data [[= <-] ?]. congruence.
Qed.

(** An iteration that returns: it made one request and, at most, one
    payment and one replay after it, and did not sleep. *)
Lemma iterate_Return n h result h' :
  iterate n h = (Return result, h') ->
  exists extra,
    h' = attempted n h ++ extra
    /\ count isAttempt extra = 0%nat /\ count isSleep extra = 0%nat
    /\ (count isReplay extra <= 1)%nat /\ (count isPay extra <= 1)%nat
    /\ (l402Handler options = None -> extra = []).
Proof.
  assert (Hnil : forall k, catchBlock options world n k (attempted n h) = (Return result, h') ->
    exists extra, h' = attempted n h ++ extra
      /\ count isAttempt extra = 0%nat /\ count isSleep extra = 0%nat
      /\ (count isReplay extra <= 1)%nat /\ (count isPay extra <= 1)%nat
      /\ (l402Handler options = None -> extra = [])).
  { intros k H. apply catchBlock_Return in H as ->.
    exists []. rewrite app_nil_r. simpl. repeat split; lia. }
  unfold iteration.
  destruct (fetchFn world h url requestInit) as [r|e]; [|apply Hnil].
  destruct (if responseStatus r =? 402 then l402Handler options else None)
    as [handler|] eqn:Hh.
  - destruct (parseResponseData world r) as [data|e] eqn:P; [|apply Hnil].
    destruct (autoPay_history handler
                (headersToRecord (headerEntries r)) data (attempted n h))
      as (extra & He & Ha & Hs & Hr & Hp).
    destruct (autoPay _ _ _ _ _ _ _) as [res hp]. simpl in He.
    intros [= _ <-]. exists extra. repeat split; try done.
    intros Hnone. rewrite Hnone in Hh. by destruct (responseStatus r =? 402).
  - destruct (isRetryableStatus (responseStatus r) && lastAttempt n); [discriminate|].
    destruct (parseResponseData world r) as [data|e] eqn:P; [|apply Hnil].
    intros [= _ <-]. exists []. rewrite app_nil_r. simpl. repeat split; lia.
Qed.

Lemma retryLoop_Run (todo n : nat) (h : History) :
  (n + todo = maxAttempts options)%nat -> (1 <= todo)%nat ->
  Run n h (retryLoop options world url requestInit todo n h)
  /\ exists added,
       (retryLoop options world url requestInit todo n h).2 = h ++ added
       /\ (1 <= count isAttempt added <= todo)%nat
       /\ S (count isSleep added) = count isAttempt added
       /\ (count isReplay added <= 1)%nat
       /\ (l402Handler options = None -> count isReplay added = 0%nat).
Proof.
  revert n h. induction todo as [|todo IH]; intros n h Hsum Hpos; [lia|].
  simpl. destruct (iterate n h) as [[result|] h'] eqn:E.
  - split; [by apply run_return|].
    apply iterate_Return in E as (extra & -> & Ha & Hs & Hr & _ & Hnone).
    exists (Attempt n url requestInit :: extra).
    split; [by rewrite <- app_assoc|]. simpl. rewrite Ha, Hs.
    repeat split; try lia. intros Hn. by rewrite (Hnone Hn).
  - pose proof (iterate_Continue _ _ _ E) as (Hn & -> & _).
    destruct (IH (S n) (attempted n h ++ [Sleep (delay n h)])) as [Hrun Hadded];
      [unfold maxAttempts in *; lia|unfold maxAttempts in *; lia|].
    split; [by eapply run_continue|].
    destruct Hadded as (added & -> & Ha & Hs & Hr & Hnone).
    exists (Attempt n url requestInit :: Sleep (delay n h) :: added).
    split; [by rewrite <- !app_assoc|]. simpl.
    repeat split; try lia. intros Hno. by rewrite (Hnone Hno).
Qed.

End Loop.

(** *** The requests of a call *)

(** An attempt of the history is the request [init] sent to [url]. *)
Definition attemptOf (url : string) (init : RequestInit) (e : Event) : Prop :=
  match e with
  | Attempt _ u i => u = url /\ i = init
  | _ => True
  end.

Lemma no_attempt (url : string) (init : RequestInit) (extra : History) :
  count isAttempt extra = 0%nat -> Forall (attemptOf url init) extra.
Proof.
  induction extra as [|e extra IH]; [constructor|]. cbn [count].
  destruct e; cbn [isAttempt]; try discriminate; intros H;
    (constructor; [exact I|by apply IH]).
Qed.

Section Arrival.
Variable options : HttpClientOptions.
Variable world : World.
Variable url : string.
Variable requestInit : RequestInit.

Abbreviation iterate := (iteration options world url requestInit).
Abbreviation loop := (retryLoop options world url requestInit).



(** Every attempt of the loop is the same request. *)
Lemma retryLoop_attempts (todo n : nat) (h : History) :
  (n + todo = maxAttempts options)%nat -> (1 <= todo)%nat ->
  exists added,
    (loop todo n h).2 = h ++ added
    /\ (1 <= count isAttempt added)%nat
    /\ Forall (attemptOf url requestInit) added.
Proof.
  revert n h. induction todo as [|todo IH]; intros n h Hsum Hpos; [lia|].
  cbn [retryLoop]. destruct (iterate n h) as [[result|] h'] eqn:E.
  - apply iterate_Return in E as (extra & -> & Ha & _).
    exists (Attempt n url requestInit :: extra).
    split; [by rewrite <- app_assoc|]. split; [cbn; lia|].
    constructor; [done|by apply no_attempt].
  - apply iterate_Continue in E as (Hn & -> & _).
    destruct (IH (S n) ((h ++ [Attempt n url requestInit])
                          ++ [Sleep (delay world url requestInit n h)]))
      as (added & Hadded & Hone & Hall);
      [unfold maxAttempts in *; lia|unfold maxAttempts in *; lia|].
    exists (Attempt n url requestInit
              :: Sleep (delay world url requestInit n h) :: added).
    split; [by rewrite Hadded, <- !app_assoc|]. split; [cbn; lia|].
    constructor; [done|]. constructor; [exact I|done].
Qed.

End Arrival.

(** *** The header that the requests carry *)

Section Calls.
Variable JSON_stringify : value -> string.
Variable String_of : value -> string.
Variable options : HttpClientOptions.
Variable world : World.

Abbreviation performed := (perform JSON_stringify String_of options world).

(** The requests that a call made after the history [h]: there is at
    least one attempt, and every attempt is a POST whose [Authorization]
    header is [authorization] (no such header for [None]). *)
Definition attemptsCarry (authorization : option string) (h : History)
    (call : completion NormalizedHttpResponse * History) : Prop :=
  exists added,
    call.2 = h ++ added
    /\ (1 <= count isAttempt added)%nat
    /\ Forall (fun e => match e with
                        | Attempt _ _ init =>
                            requestMethod init = "POST"
                            /\ requestHeaders init !! "authorization" = authorization
                        | _ => True
                        end) added.

Lemma perform_attempts (c : entryCall) (requestOptions : RequestOptions)
    (h : History) (headers : gmap string string) :
  resolveHeaders options requestOptions = Returns headers ->
  attemptsCarry (headers !! "authorization") h (performed c requestOptions h).
Proof.
  intros Hr. pose proof (perform_unfold JSON_stringify String_of options world
                           c requestOptions h) as Hp.
  rewrite Hr in Hp. destruct Hp as (init & -> & Hm & Ha).
  unfold requestWithRetries.
  destruct (retryLoop_attempts options world
              (composeEndpointUrl (baseUrl options) (endpointOf c)) init
              (maxAttempts options) 0 h) as (added & Hadded & Hone & Hall);
    [done|unfold maxAttempts; lia|].
  exists added. split; [done|]. split; [done|].
  eapply Forall_impl; [exact Hall|].
  intros [n u i| | |]; cbn; try done. by intros [_ ->].
Qed.

(** C3. The [Authorization] header of a call is resolved in a fixed
    order, and the requests of the call carry what was resolved:
    credentials of the caller (macaroon and preimage) give an L402 header;
    else a configured bearer token gives a Bearer header; else a
    configured auto-pay handler, and else an explicit opt-in to a quote,
    let the attempts go without the header; and with none of the four the
    call fails with [missing_bearer_token] and status 401 and leaves the
    history of the outside world as it was: no request is made. A call that
    does touch the outside world therefore has one of the four. *)
Theorem authorization_precedence :
  forall (c : entryCall) (requestOptions : RequestOptions) (h : History),
    let call := performed c requestOptions h in
    (forall auth,
       l402Auth requestOptions = Some auth ->
       let header := "L402 " +:+ authMacaroon auth +:+ ":" +:+ authPreimage auth in
       (exists headers,
          resolveHeaders options requestOptions = Returns headers
          /\ headers !! "authorization" = Some header)
       /\ attemptsCarry (Some header) h call)
    /\ (forall token,
          ~ hasCredentials requestOptions ->
          bearerToken options = Some token -> truthy token = true ->
          (exists headers,
             resolveHeaders options requestOptions = Returns headers
             /\ headers !! "authorization" = Some ("Bearer " +:+ token))
          /\ attemptsCarry (Some ("Bearer " +:+ token)) h call)
    /\ (~ hasCredentials requestOptions -> ~ hasBearer options ->
        hasAutoPay options ->
        (exists headers,
           resolveHeaders options requestOptions = Returns headers
           /\ headers !! "authorization" = None)
        /\ attemptsCarry None h call)
    /\ (~ hasCredentials requestOptions -> ~ hasBearer options ->
        ~ hasAutoPay options -> wantsQuote requestOptions ->
        (exists headers,
           resolveHeaders options requestOptions = Returns headers
           /\ headers !! "authorization" = None)
        /\ attemptsCarry None h call)
    /\ (~ authorized options requestOptions ->
        exists e, isMissingToken e /\ call = (Throws e, h))
    /\ (call.2 <> h -> authorized options requestOptions).
Proof.
  intros c requestOptions h call.
  assert (Hnone : ~ hasCredentials requestOptions -> l402Auth requestOptions = None).
  { unfold hasCredentials. destruct (l402Auth requestOptions); [|done].
    intros H. destruct H. eauto. }
  assert (Hsent : forall headers expected,
            resolveHeaders options requestOptions = Returns headers ->
            headers !! "authorization" = expected ->
            (exists headers,
               resolveHeaders options requestOptions = Returns headers
               /\ headers !! "authorization" = expected)
            /\ attemptsCarry expected h call).
  { intros headers expected Hr He. split; [by exists headers|].
    rewrite <- He. by apply perform_attempts. }
  split; [|split; [|split; [|split; [|split]]]].
  - intros auth Ha header. eapply Hsent; [by apply resolveHeaders_credentials|].
    by rewrite lookup_insert_eq.
  - intros token Hc Hb Ht. eapply Hsent; [by apply resolveHeaders_bearer; auto|].
    by rewrite lookup_insert_eq.
  - intros Hc Hb Hh. eapply Hsent; [by apply resolveHeaders_autoPay; auto|]. done.
  - intros Hc Hb Hh Hq. eapply Hsent; [by apply resolveHeaders_quote; auto|]. done.
  - intros Hno. destruct (resolveHeaders_missing _ _ Hno) as (e & He & Hm).
    exists e. split; [done|].
    pose proof (perform_unfold JSON_stringify String_of options world
                  c requestOptions h) as Hp.
    by rewrite He in Hp.
  - intros Hgrew.
    pose proof (perform_unfold JSON_stringify String_of options world
                  c requestOptions h) as Hp.
    destruct (resolveHeaders options requestOptions) as [headers|e] eqn:E.
    + by eapply resolveHeaders_returns.
    + unfold call in Hgrew. rewrite Hp in Hgrew. by destruct Hgrew.
Qed.

End Calls.

(** *** Worlds to run the client in *)

Definition jsonHeaders : list (string * string) :=
  [("Content-Type", "application/json")].

(** A response whose body can be read, as text and as bytes. *)
Definition responseOf (status : Z) (entries : list (string * string))
    (body : string) : Response :=
  mkHttpResponse status entries (Resolves body) (Resolves body).

(** The bodies of the examples, and a [JSON.parse] that knows them. *)
Definition okText : string := "{" +:+ DQ +:+ "ok" +:+ DQ +:+ ":true}".
Definition okData : value := VObj [("ok", VBool true)].

Definition quoteText : string :=
  "{" +:+ DQ +:+ "status" +:+ DQ +:+ ":" +:+ DQ +:+ "payment_required" +:+ DQ
  +:+ "," +:+ DQ +:+ "payment_hash" +:+ DQ +:+ ":" +:+ DQ +:+ "ph_001" +:+ DQ
  +:+ "," +:+ DQ +:+ "amount_sats" +:+ DQ +:+ ":30}".
Definition quoteData : value :=
  VObj [("status", VStr "payment_required"); ("payment_hash", VStr "ph_001");
        ("amount_sats", VNum 30%float)].

Definition parseExamples (text : string) : option value :=
  if bool_decide (text = okText) then Some okData
  else if bool_decide (text = quoteText) then Some quoteData
  else None.

Definition okResponse : Response := responseOf 200 jsonHeaders okText.

Definition busyResponse : Response := responseOf 500 jsonHeaders "busy".

Definition challengeResponse : Response :=
  responseOf 402
    (("WWW-Authenticate",
      "L402 macaroon=" +:+ DQ +:+ "mac_abc123" +:+ DQ +:+ ", invoice="
        +:+ DQ +:+ "lnbc100n" +:+ DQ) :: jsonHeaders)
    quoteText.

Lemma half_in_range (h : History) : (0 <= 1 # 2)%Q /\ (1 # 2 < 1)%Q.
Proof. split; [discriminate|reflexivity]. Qed.

Lemma zero_in_range (h : History) : (0 <= 0)%Q /\ (0 < 1)%Q.
Proof. split; [discriminate|reflexivity]. Qed.

(** Two server errors, then a success. *)
Definition flakyWorld : World :=
  mkWorld parseExamples (fun bytes => bytes) (fun h _ _ =>
             if (count isAttempt h <? 2)%nat then Resolves busyResponse
             else Resolves okResponse)
          (fun _ => 1 # 2)%Q half_in_range.

(** A server that asks for payment until the request carries an
    [Authorization] header. *)
Definition payingWorld : World :=
  mkWorld parseExamples (fun bytes => bytes) (fun _ _ init =>
             match requestHeaders init !! "authorization" with
             | Some _ => Resolves okResponse
             | None => Resolves challengeResponse
             end)
          (fun _ => 0%Q) zero_in_range.

Example body_not_json :
  parseResponseData flakyWorld busyResponse = Resolves (VObj [("raw", VStr "busy")]).
Proof. vm_compute. reflexivity. Qed.

Example body_empty :
  parseResponseData flakyWorld (responseOf 204 jsonHeaders EmptyString)
  = Resolves (VObj []).
Proof. vm_compute. reflexivity. Qed.

Example body_text :
  parseResponseData flakyWorld
    (responseOf 200 [("content-type", "Text/Plain; charset=utf-8")] "hello")
  = Resolves (VStr "hello").
Proof. vm_compute. reflexivity. Qed.

Example body_binary :
  parseResponseData flakyWorld (responseOf 200 [] "abc")
  = Resolves (VObj [("mime_type", VStr "application/octet-stream");
                    ("base64", VStr "abc"); ("size_bytes", VNum 3%float)]).
Proof. vm_compute. reflexivity. Qed.

Definition wallet : L402Handler := fun _ _ => Resolves "preimage_xyz".

Definition plainOptions : HttpClientOptions :=
  mkOptions "https://alittlebitofmoney.com" (Some "token") None 2.

Definition autoPayOptions : HttpClientOptions :=
  mkOptions "https://alittlebitofmoney.com" None (Some wallet) 2.

Definition noRequestOptions : RequestOptions := mkRequestOptions false None.

Definition statusOf (c : completion NormalizedHttpResponse) : option Z :=
  match c with
  | Returns r => Some (status r)
  | Throws _ => None
  end.

(** The history, without the requests' contents. *)
Definition shape (e : Event) : string + Z :=
  match e with
  | Attempt n _ _ => inl ("attempt " +:+ Results.string_of_status (Z.of_nat n))
  | Replay _ _ => inl "replay"
  | Sleep ms => inr ms
  | Pay _ => inl "pay"
  end.

Example flaky_run :
  let run := postJson (fun _ => "{}") plainOptions flakyWorld "/v1/responses"
               (VObj []) noRequestOptions [] in
  statusOf run.1 = Some 200
  /\ map shape run.2
     = [inl "attempt 0"; inr 240; inl "attempt 1"; inr 440; inl "attempt 2"].
Proof. vm_compute. done. Qed.

(** With no retry left the retryable status is returned as it is. *)
Example busy_run :
  let run := postJson (fun _ => "{}")
               (mkOptions "https://alittlebitofmoney.com" (Some "token") None 1)
               flakyWorld "/v1/responses" (VObj []) noRequestOptions [] in
  statusOf run.1 = Some 500
  /\ map shape run.2 = [inl "attempt 0"; inr 240; inl "attempt 1"].
Proof. vm_compute. done. Qed.

Section Policy.
Variable JSON_stringify : value -> string.
Variable String_of : value -> string.

(** C1, as the code has it. A call through [postJson], [postMultipart] or
    [rawPost] makes at most [maxRetries + 1] attempts, with one sleep
    between two attempts, and no request besides: the one replay of a
    paid 402 apart, which needs an auto-pay handler. An attempt is followed by another only if it
    was not the last one, and then after a sleep of 200 ms doubled per
    attempt plus a jitter of at most 80 ms; if its response was read in
    full, its status was 429 or at least 500. A response read in full with
    status 400, 401, 404 or 413, and one with status 402 when no auto-pay
    handler is configured, ends the call and is its result, normalized. *)
Theorem retry_policy :
  forall (options : HttpClientOptions) (world : World),
    (forall (c : entryCall) (requestOptions : RequestOptions) (h : History),
       exists added,
         (perform JSON_stringify String_of options world c requestOptions h).2
         = h ++ added
         /\ (count isAttempt added <= maxRetries options + 1)%nat
         /\ (count isSleep added <= count isAttempt added - 1)%nat
         /\ (count isReplay added <= 1)%nat
         /\ (l402Handler options = None -> count isReplay added = 0%nat))
    /\ (forall url init h,
          Run options world url init 0 h
            (requestWithRetries options world url init h))
    /\ (forall url init n h h',
          iteration options world url init n h = (Continue, h') ->
          (n < maxRetries options)%nat
          /\ (exists jitter,
                0 <= jitter <= 80
                /\ h' = h ++ [Attempt n url init;
                              Sleep (200 * 2 ^ Z.of_nat n + jitter)])
          /\ forall r data,
               answered world url init h r data ->
               responseStatus r = 429 \/ 500 <= responseStatus r)
    /\ (forall url init n h r data,
          answered world url init h r data ->
          responseStatus r ∈ [400; 401; 404; 413]
          \/ (responseStatus r = 402 /\ l402Handler options = None) ->
          iteration options world url init n h
          = (Return (Returns (normalized (responseStatus r) (headerEntries r) data)),
             h ++ [Attempt n url init])).
Proof.
  intros options world.
  assert (Hrun : forall url init h,
    Run options world url init 0 h (requestWithRetries options world url init h)
    /\ exists added,
         (requestWithRetries options world url init h).2 = h ++ added
         /\ (count isAttempt added <= maxRetries options + 1)%nat
         /\ (count isSleep added <= count isAttempt added - 1)%nat
         /\ (count isReplay added <= 1)%nat
         /\ (l402Handler options = None -> count isReplay added = 0%nat)).
  { intros url init h. unfold requestWithRetries.
    destruct (retryLoop_Run options world url init (maxAttempts options) 0 h)
      as [Hr (added & Ha & Hc & Hs & Hrep & Hnone)]; [done|unfold maxAttempts; lia|].
    split; [done|]. exists added. unfold maxAttempts in Hc.
    repeat split; [done|lia|lia|done|done]. }
  split; [|split; [|split]].
  - intros c requestOptions h.
    pose proof (perform_unfold JSON_stringify String_of options world c requestOptions h)
      as Hp.
    destruct (resolveHeaders options requestOptions) as [headers|e].
    + destruct Hp as (init & -> & _). apply Hrun.
    + rewrite Hp. exists []. rewrite app_nil_r. simpl. repeat split; lia.
  - intros url init h. apply Hrun.
  - intros url init n h h' Hc.
    apply iterate_Continue in Hc as (Hn & -> & Hret).
    split; [done|]. split.
    + exists (jitterOf (random world (h ++ [Attempt n url init]))).
      split; [apply jitterOf_range; apply random_range|].
      unfold delay. by rewrite backoffMs_spec, <- app_assoc.
    + intros r data Ha. by apply retryable_status, (Hret r data).
  - intros url init n h r data [Hf Hp] Hstatus. unfold iteration. rewrite Hf.
    assert (Hplain : (if responseStatus r =? 402 then l402Handler options else None)
                     = None).
    { destruct Hstatus as [Hin|[_ ->]]; [|by destruct (_ =? _)].
      rewrite !elem_of_cons, elem_of_nil in Hin.
      by destruct Hin as [->|[->|[->|[->|[]]]]]. }
    assert (Hfinal : isRetryableStatus (responseStatus r) = false).
    { destruct Hstatus as [Hin|[-> _]]; [|reflexivity].
      rewrite !elem_of_cons, elem_of_nil in Hin.
      by destruct Hin as [->|[->|[->|[->|[]]]]]. }
    by rewrite Hplain, Hfinal, Hp.
Qed.

End Policy.

(** The flaky world stays within its three attempts. *)
Lemma retry_policy_witness :
  exists added,
    (postJson (fun _ => "{}") plainOptions flakyWorld "/v1/responses"
       (VObj []) noRequestOptions []).2 = [] ++ added
    /\ (count isAttempt added <= 3)%nat
    /\ (count isSleep added <= count isAttempt added - 1)%nat
    /\ (count isReplay added <= 1)%nat
    /\ (l402Handler plainOptions = None -> count isReplay added = 0%nat).
Proof.
  exact (proj1 (retry_policy (fun _ => "{}") (fun _ => EmptyString)
                  plainOptions flakyWorld)
           (CallPostJson "/v1/responses" (VObj [])) noRequestOptions []).
Defined.

(** C1 as stated fails once an auto-pay handler is configured: the first
    response has status 402, and the call neither ends with it nor leaves
    it alone: the request goes out a second time, with the payment, and
    the call returns what that one is answered. *)
Lemma retry_policy_402_replayed :
  let run := postJson (fun _ => "{}") autoPayOptions payingWorld "/v1/responses"
               (VObj []) noRequestOptions [] in
  statusOf run.1 = Some 200
  /\ map shape run.2 = [inl "attempt 0"; inl "pay"; inl "replay"].
Proof. vm_compute. done. Qed.

(** *** Authorization, run *)

(** Without any of the four strategies the call fails before the world
    sees anything. *)
Example missing_token_is_local :
  let run := postJson (fun _ => "{}")
               (mkOptions "https://alittlebitofmoney.com" None None 2)
               payingWorld "/v1/responses" (VObj []) noRequestOptions [] in
  (errorCode <$> (match run.1 with Throws e => Some e | Returns _ => None end)
   = Some "missing_bearer_token")
  /\ (HttpClient.errorStatus <$>
        (match run.1 with Throws e => Some e | Returns _ => None end) = Some 401)
  /\ run.2 = [].
Proof. vm_compute. done. Qed.

(** The credentials of the caller win over a configured bearer token. *)
Example credentials_before_bearer :
  resolveHeaders plainOptions
    (mkRequestOptions true (Some (mkAuth "mac_abc" "preimage_xyz")))
  = Returns (<["authorization" := "L402 mac_abc:preimage_xyz"]> accept).
Proof. reflexivity. Qed.

(** An empty bearer token counts as none. *)
Example empty_bearer_is_none :
  resolveHeaders (mkOptions "https://alittlebitofmoney.com" (Some EmptyString) None 2)
    (mkRequestOptions true None)
  = Returns accept.
Proof. reflexivity. Qed.

(** *** Auto-pay *)





(** The wallet fails: the 402 comes back as it was received. *)
Example wallet_fails :
  let options := mkOptions "https://alittlebitofmoney.com" None
                   (Some (fun _ _ => Rejects (mkJsError false "insufficient funds"))) 2 in
  let run := postJson (fun _ => "{}") options payingWorld "/v1/responses"
               (VObj []) noRequestOptions [] in
  statusOf run.1 = Some 402
  /\ map shape run.2 = [inl "attempt 0"; inl "pay"].
Proof. vm_compute. done. Qed.

(** The 402 arrives on the last attempt, after two retries: it is paid
    and replayed all the same. *)
Example paid_after_retries :
  let world :=
    mkWorld parseExamples (fun bytes => bytes) (fun h url init =>
               if (count isAttempt h <? 2)%nat then Resolves busyResponse
               else fetchFn payingWorld h url init)
            (fun _ => 0%Q) zero_in_range in
  let run := postJson (fun _ => "{}") autoPayOptions world "/v1/responses"
               (VObj []) noRequestOptions [] in
  statusOf run.1 = Some 200
  /\ map shape run.2
     = [inl "attempt 0"; inr 200; inl "attempt 1"; inr 400; inl "attempt 2";
        inl "pay"; inl "replay"].
Proof. vm_compute. done. Qed.

Section AutoPay.
Variable JSON_stringify : value -> string.
Variable String_of : value -> string.


End AutoPay.



End HttpSpec.

(** ** tools/registry.ts *)

Module RegistrySpec.
Import Js Catalog Dedup Registry.

Fixpoint notifications (log : list ServerEvent) : nat :=
  match log with
  | [] => 0
  | e :: log' => (if isToolListChanged e then 1 else 0) + notifications log'
  end.

Lemma notifications_app (l1 l2 : list ServerEvent) :
  notifications (l1 ++ l2) = (notifications l1 + notifications l2)%nat.
Proof. induction l1 as [|e l1 IH]; simpl; [done|]. rewrite IH. lia. Qed.

Lemma notifications_removed (handles : list RegisteredToolHandle) :
  notifications (map (fun handle => Removed (handleName handle)) handles) = 0%nat.
Proof. induction handles as [|x l IH]; simpl; [done|exact IH]. Qed.

Lemma notifications_registered (tools : list PlannedTool) :
  notifications (map Registered tools) = 0%nat.
Proof. induction tools as [|x l IH]; simpl; [done|exact IH]. Qed.

(** The removals of all the handles the registry holds. *)
Definition removals (r : AlbomToolRegistry) : list ServerEvent :=
  map (fun handle => Removed (handleName handle)) (registeredTools r).

(** The handles of a tool list. *)
Definition handlesOf (tools : list PlannedTool) : list RegisteredToolHandle :=
  map (fun tool => mkHandle (name tool)) tools.

(** A stand-in for [JSON.stringify] to run examples with: the strings of
    a value, one after the other. *)
Fixpoint strings_of (v : value) : string :=
  match v with
  | VStr s => s +:+ ";"
  | VArr items =>
      (fix all (l : list value) : string :=
         match l with
         | [] => EmptyString
         | x :: l' => strings_of x +:+ all l'
         end) items
  | VObj fields =>
      (fix all (l : list (string * value)) : string :=
         match l with
         | [] => EmptyString
         | (_, x) :: l' => strings_of x +:+ all l'
         end) fields
  | _ => EmptyString
  end.

Definition byLength (a b : string) : Z :=
  Z.of_nat (String.length a) - Z.of_nat (String.length b).

Section Claim.
Variable sha256Hex : string -> string.
Variable JSON_stringify : value -> string.
Variable localeCompare : string -> string -> Z.
Variable config : AlbomConfig.

Abbreviation sync := (syncTools sha256Hex JSON_stringify localeCompare config).
Abbreviation toolStateOf :=
  (buildToolState sha256Hex JSON_stringify localeCompare).

Lemma replaceRegisteredTools_spec (next : ToolState) (r : AlbomToolRegistry)
    (log : list ServerEvent) :
  replaceRegisteredTools next r log
  = (mkRegistry (toolState r) (catalogState r) (handlesOf (tools next)),
     log ++ removals r ++ map Registered (tools next)).
Proof.
  unfold replaceRegisteredTools, handlesOf, removals.
  rewrite !map_map. simpl. by rewrite <- app_assoc.
Qed.

(** C4. A call of [syncTools] whose catalog fetch succeeds recomputes the
    tool state. If its signature is the one stored, the call returns
    [false] and does nothing to the server or to the registered tools. If
    it is another, or none is stored, the call removes every tool that was
    registered, registers every tool of the new list, stores the new tool
    state and returns [true]; it sends the list-changed notification once
    if [emitNotification] is set, a tool state was stored before and the
    server is connected, and not at all otherwise. [initialize] sends no
    notification. *)
Theorem syncTools_claim :
  forall (getState : bool -> option CatalogState) (isConnected : bool)
         (options : SyncOptions) (r : AlbomToolRegistry) (log : list ServerEvent)
         (catalog : CatalogState),
    getState (forceRefresh options) = Some catalog ->
    let next := toolStateOf catalog config in
    let run := sync getState isConnected options r log in
    let notify :=
      emitNotification options && bool_decide (is_Some (toolState r)) && isConnected in
    (signature <$> toolState r = Some (signature next) ->
       run = (Some false,
              mkRegistry (toolState r) (Some catalog) (registeredTools r), log))
    /\ (signature <$> toolState r <> Some (signature next) ->
          run = (Some true,
                 mkRegistry (Some next) (Some catalog) (handlesOf (tools next)),
                 log ++ removals r ++ map Registered (tools next)
                   ++ (if notify then [ToolListChanged] else []))
          /\ notifications run.2
             = (notifications log + (if notify then 1 else 0))%nat)
    /\ (forall getState' r' log',
          notifications
            (initialize sha256Hex JSON_stringify localeCompare config getState'
               isConnected r' log').2
          = notifications log').
Proof.
  intros getState isConnected options r log catalog Hget next run notify.
  assert (Hsame : forall gs c o r0 log0,
            gs (forceRefresh o) = Some c ->
            signature <$> toolState r0 = Some (signature (toolStateOf c config)) ->
            sync gs isConnected o r0 log0
            = (Some false, mkRegistry (toolState r0) (Some c) (registeredTools r0), log0)).
  { intros gs c o r0 log0 Hg Hs. unfold syncTools. rewrite Hg.
    cbn -[buildToolState]. by rewrite bool_decide_eq_true_2. }
  assert (Hchanged : forall gs c o r0 log0,
            gs (forceRefresh o) = Some c ->
            signature <$> toolState r0 <> Some (signature (toolStateOf c config)) ->
            sync gs isConnected o r0 log0
            = (Some true,
               mkRegistry (Some (toolStateOf c config)) (Some c)
                 (handlesOf (tools (toolStateOf c config))),
               log0 ++ removals r0 ++ map Registered (tools (toolStateOf c config))
                 ++ (if emitNotification o && bool_decide (is_Some (toolState r0))
                        && isConnected
                     then [ToolListChanged] else []))).
  { intros gs c o r0 log0 Hg Hs. unfold syncTools. rewrite Hg.
    cbn -[replaceRegisteredTools buildToolState].
    rewrite bool_decide_eq_false_2 by done.
    cbn -[replaceRegisteredTools buildToolState].
    rewrite replaceRegisteredTools_spec.
    cbn -[buildToolState]. unfold removals. cbn -[buildToolState].
    destruct (emitNotification o && bool_decide (is_Some (toolState r0)) && isConnected).
    - by rewrite <- !app_assoc.
    - by rewrite app_nil_r. }
  split; [|split].
  - intros Hs. by apply Hsame.
  - intros Hs. subst run. rewrite (Hchanged _ _ _ _ _ Hget Hs).
    split; [done|]. simpl.
    rewrite !notifications_app, notifications_registered.
    unfold removals. rewrite notifications_removed.
    fold notify. destruct notify; simpl; lia.
  - intros gs r0 log0. unfold initialize.
    destruct (gs true) as [c|] eqn:Hg.
    + destruct (decide (signature <$> toolState r0
                        = Some (signature (toolStateOf c config)))) as [Hs|Hs].
      * by rewrite (Hsame gs c (mkSyncOptions true false) r0 log0 Hg Hs).
      * rewrite (Hchanged gs c (mkSyncOptions true false) r0 log0 Hg Hs). simpl.
        rewrite !notifications_app, notifications_registered.
        unfold removals. rewrite notifications_removed. simpl. lia.
    + unfold syncTools. simpl. by rewrite Hg.
Qed.

End Claim.

(** The scenario of the registry test: the first catalog has the
    responses endpoint, the second the image generation too. *)
Definition firstCatalog : CatalogState :=
  mkCatalog [DedupSpec.fixtureEndpoint "/v1/responses" json ["gpt-4o-mini"]
               "text-generation"].

Definition secondCatalog : CatalogState :=
  mkCatalog [DedupSpec.fixtureEndpoint "/v1/images/generations" json ["gpt-image-1"]
               "image";
             DedupSpec.fixtureEndpoint "/v1/responses" json ["gpt-4o-mini"]
               "text-generation"].

Definition testConfig : AlbomConfig := mkConfig full true true true false.

Definition testSync (catalog : CatalogState) (options : SyncOptions)
    (r : AlbomToolRegistry) (log : list ServerEvent) :=
  syncTools (fun s => s) strings_of byLength testConfig (fun _ => Some catalog) true
    options r log.

Definition refreshAndNotify : SyncOptions := mkSyncOptions true true.

Example registry_scenario :
  let '(_, r1, log1) :=
    initialize (fun s => s) strings_of byLength testConfig
      (fun _ => Some firstCatalog) true newRegistry [] in
  let '(changed, r2, log2) := testSync secondCatalog refreshAndNotify r1 log1 in
  let '(changedAgain, r3, log3) := testSync secondCatalog refreshAndNotify r2 log2 in
  notifications log1 = 0%nat
  /\ changed = Some true /\ notifications log2 = 1%nat
  /\ changedAgain = Some false /\ log3 = log2
  /\ map handleName (registeredTools r3)
     = ["albom_catalog_get"; "albom_openai_images_generations"; "albom_openai_responses"].
Proof. vm_compute. done. Qed.

(** The first sync of a fresh registry: everything is registered, nothing
    is announced, even with [emitNotification] set. *)
Lemma syncTools_claim_witness :
  testSync firstCatalog refreshAndNotify newRegistry []
  = (Some true,
     mkRegistry
       (Some (buildToolState (fun s => s) strings_of byLength firstCatalog testConfig))
       (Some firstCatalog)
       (handlesOf (tools (buildToolState (fun s => s) strings_of byLength
                            firstCatalog testConfig))),
     [] ++ removals newRegistry
       ++ map Registered (tools (buildToolState (fun s => s) strings_of byLength
                                   firstCatalog testConfig))
       ++ []).
Proof.
  refine (proj1 (proj1 (proj2 (syncTools_claim (fun s => s) strings_of byLength
                                 testConfig (fun _ => Some firstCatalog) true
                                 refreshAndNotify newRegistry [] firstCatalog eq_refl))
                   _)).
  discriminate.
Defined.

End RegistrySpec.

(* ===================================================================== *)
(** * Further properties of the code *)
(* ===================================================================== *)

(** ** utils.ts: sanitizeToolName is a normal form *)

Module NameMore.
Import Js Utils NameSpec.

Lemma name_char_lower (c : ascii) : name_char c = true -> lower_char c = c.
Proof.
  unfold name_char, lower_char, is_lower_az, is_digit, is_underscore, between.
  intros H.
  destruct (((65 <=? code c)%N && (code c <=? 90)%N)
            || ((192 <=? code c)%N && (code c <=? 222)%N && negb (code c =? 215)%N))
    eqn:E; [|done].
  exfalso.
  repeat (apply orb_prop in H as [H|H] || apply andb_prop in H as [H ?]);
    repeat (apply orb_prop in E as [E|E] || apply andb_prop in E as [E ?]);
    repeat match goal with
           | X : (_ <=? _)%N = true |- _ => apply N.leb_le in X
           | X : (_ =? _)%N = true |- _ => apply N.eqb_eq in X
           end; lia.
Qed.

Lemma toLowerCase_fixed (s : string) :
  all_chars name_char s = true -> toLowerCase s = s.
Proof.
  induction s as [|c s IH]; simpl; [done|].
  intros [Hc Hs]%andb_prop. by rewrite name_char_lower, IH.
Qed.

Lemma replace_other_runs_fixed (b : bool) (s : string) :
  all_chars name_char s = true -> replace_other_runs b s = s.
Proof.
  revert b. induction s as [|c s IH]; intros b; simpl; [done|].
  intros [Hc Hs]%andb_prop. by rewrite Hc, IH.
Qed.

Lemma drop_leading_fixed (s : string) :
  starts_with_underscore s = false -> drop_leading_underscores s = s.
Proof. destruct s as [|c s]; simpl; [done|]. by intros ->. Qed.

Lemma drop_trailing_fixed (s : string) :
  ends_with_underscore s = false -> drop_trailing_underscores s = s.
Proof.
  induction s as [|c s IH]; simpl; [done|].
  destruct s as [|c' s'].
  - intros ->. done.
  - intros H. rewrite (IH H). simpl. by rewrite andb_false_r.
Qed.

Lemma collapse_fixed (b : bool) (s : string) :
  single_underscores b s = true -> collapse_underscores b s = s.
Proof.
  revert b. induction s as [|c s IH]; intros b; simpl; [done|].
  destruct (is_underscore c).
  - intros [Hb Hs]%andb_prop. destruct b; [done|]. by rewrite IH.
  - intros Hs. by rewrite IH.
Qed.

(** X1. [sanitizeToolName] returns, for every input, a name made of
    lower-case letters, digits and single underscores that neither starts
    nor ends with an underscore; and it returns a name of that form as it
    is. So sanitizing twice is sanitizing once. *)
Theorem sanitizeToolName_normal_form :
  forall input : string,
    valid_name (sanitizeToolName input) = true
    /\ (valid_name input = true -> sanitizeToolName input = input)
    /\ sanitizeToolName (sanitizeToolName input) = sanitizeToolName input.
Proof.
  assert (Hfix : forall s, valid_name s = true -> sanitizeToolName s = s).
  { intros s. unfold valid_name.
    intros [[[Hc Hs]%andb_prop He]%andb_prop Hu]%andb_prop.
    apply negb_true_iff in Hs, He.
    unfold sanitizeToolName, strip_underscores.
    rewrite toLowerCase_fixed, replace_other_runs_fixed by done.
    rewrite drop_leading_fixed, drop_trailing_fixed by done.
    by apply collapse_fixed. }
  intros input. split; [apply sanitizeToolName_valid|]. split; [apply Hfix|].
  apply Hfix, sanitizeToolName_valid.
Qed.

End NameMore.

(** ** dedup.ts: duplicate candidates, routes and the shape of the tool list *)

Module DedupMore.
Import Js Utils Catalog Dedup NameSpec DedupSpec.

(** *** The Jaccard similarity reads its arguments as sets *)

Lemma set_add_elem (acc : list string) (x y : string) :
  y ∈ set_add acc x <-> y ∈ acc \/ y = x.
Proof.
  unfold set_add. case_bool_decide as Hx.
  - split; [by left|]. intros [?| ->]; done.
  - rewrite elem_of_app, list_elem_of_singleton. done.
Qed.

Lemma set_add_NoDup (acc : list string) (x : string) :
  NoDup acc -> NoDup (set_add acc x).
Proof.
  intros Hnd. unfold set_add. case_bool_decide as Hx; [done|].
  apply NoDup_app. split; [done|]. split; [|apply NoDup_singleton].
  intros y Hy ->%list_elem_of_singleton. done.
Qed.

Lemma foldl_set_add (l acc : list string) :
  NoDup acc ->
  NoDup (foldl set_add acc l)
  /\ forall y, y ∈ foldl set_add acc l <-> y ∈ acc \/ y ∈ l.
Proof.
  revert acc. induction l as [|x l IH]; intros acc Hnd; simpl.
  - split; [done|]. intros y. rewrite elem_of_nil. tauto.
  - destruct (IH (set_add acc x) (set_add_NoDup _ _ Hnd)) as [H1 H2].
    split; [done|]. intros y. rewrite H2, set_add_elem, elem_of_cons. tauto.
Qed.

Lemma newSet_NoDup (l : list string) : NoDup (newSet l).
Proof. apply (foldl_set_add l []), NoDup_nil_2. Qed.

Lemma newSet_elem (l : list string) (y : string) : y ∈ newSet l <-> y ∈ l.
Proof.
  unfold newSet. rewrite (proj2 (foldl_set_add l [] (NoDup_nil_2))).
  rewrite elem_of_nil. tauto.
Qed.

(** Same members. *)
Definition same (l k : list string) : Prop := forall x, x ∈ l <-> x ∈ k.

Lemma newSet_length (l k : list string) :
  same l k -> length (newSet l) = length (newSet k).
Proof.
  intros Hlk. apply Permutation_length, NoDup_Permutation; try apply newSet_NoDup.
  intros x. rewrite !newSet_elem. apply Hlk.
Qed.

(** The members of [setA] that [setB] has. *)
Definition common (setA setB : list string) : list string :=
  filter (fun value => value ∈ setB) setA.

Lemma intersection_count (setA setB : list string) (n : nat) :
  foldl (fun n value => if bool_decide (value ∈ setB) then S n else n) n setA
  = (n + length (common setA setB))%nat.
Proof.
  revert n. induction setA as [|x l IH]; intros n; simpl; [lia|].
  unfold common. rewrite filter_cons. fold (common l setB).
  rewrite IH. case_bool_decide as Hx.
  - rewrite decide_True by done. simpl. lia.
  - rewrite decide_False by done. lia.
Qed.

Lemma common_length (a a' b b' : list string) :
  NoDup a -> NoDup a' -> same a a' -> same b b' ->
  length (common a b) = length (common a' b').
Proof.
  intros Ha Ha' Haa Hbb.
  apply Permutation_length, NoDup_Permutation; try by apply NoDup_filter.
  intros x. unfold common. rewrite !list_elem_of_filter, (Haa x), (Hbb x). done.
Qed.

Lemma common_comm (a b : list string) :
  NoDup a -> NoDup b -> length (common a b) = length (common b a).
Proof.
  intros Ha Hb.
  apply Permutation_length, NoDup_Permutation; try by apply NoDup_filter.
  intros x. unfold common. rewrite !list_elem_of_filter. tauto.
Qed.

Lemma modelSetJaccard_unfold (a b : list string) :
  modelSetJaccard a b
  = if bool_decide (length (newSet a) = 0%nat) && bool_decide (length (newSet b) = 0%nat)
    then 1%float
    else if bool_decide (length (newSet (newSet a ++ newSet b)) = 0%nat) then 0%float
    else PrimFloat.div (number_of_nat (length (common (newSet a) (newSet b))))
           (number_of_nat (length (newSet (newSet a ++ newSet b)))).
Proof. unfold modelSetJaccard. cbv zeta. by rewrite intersection_count. Qed.

Lemma modelSetJaccard_same (a a' b b' : list string) :
  same a a' -> same b b' -> modelSetJaccard a b = modelSetJaccard a' b'.
Proof.
  intros Ha Hb. rewrite !modelSetJaccard_unfold.
  rewrite (newSet_length a a' Ha), (newSet_length b b' Hb).
  assert (Hu : length (newSet (newSet a ++ newSet b))
               = length (newSet (newSet a' ++ newSet b'))).
  { apply newSet_length. intros x. rewrite !elem_of_app, !newSet_elem, (Ha x), (Hb x). done. }
  assert (Hi : length (common (newSet a) (newSet b))
               = length (common (newSet a') (newSet b'))).
  { apply common_length; try apply newSet_NoDup.
    - intros x. rewrite !newSet_elem. apply Ha.
    - intros x. rewrite !newSet_elem. apply Hb. }
  by rewrite Hu, Hi.
Qed.

Lemma modelSetJaccard_comm (a b : list string) :
  modelSetJaccard a b = modelSetJaccard b a.
Proof.
  rewrite !modelSetJaccard_unfold.
  rewrite (andb_comm (bool_decide (length (newSet b) = 0%nat))).
  assert (Hu : length (newSet (newSet a ++ newSet b))
               = length (newSet (newSet b ++ newSet a))).
  { apply newSet_length. intros x. rewrite !elem_of_app. tauto. }
  rewrite Hu, (common_comm (newSet a) (newSet b)) by apply newSet_NoDup.
  done.
Qed.

(** X2. [modelSetJaccard] depends on the two model lists as sets only: the
    order of the models and repeated models make no difference, and the
    two arguments can be exchanged. [isDuplicateCandidate] is therefore a
    symmetric relation on endpoints. *)
Theorem duplicate_candidates_symmetric :
  (forall a a' b b' : list string,
     (forall m, m ∈ a <-> m ∈ a') -> (forall m, m ∈ b <-> m ∈ b') ->
     modelSetJaccard a b = modelSetJaccard a' b')
  /\ (forall a b : list string, modelSetJaccard a b = modelSetJaccard b a)
  /\ (forall a b : EndpointDescriptor,
        isDuplicateCandidate a b = isDuplicateCandidate b a).
Proof.
  split; [exact modelSetJaccard_same|]. split; [exact modelSetJaccard_comm|].
  intros a b. unfold isDuplicateCandidate. cbv zeta.
  rewrite (modelSetJaccard_comm (models a) (models b)).
  rewrite (bool_decide_ext (method a = method b) (method b = method a)) by done.
  rewrite (bool_decide_ext (contentType a = contentType b)
             (contentType b = contentType a)) by done.
  rewrite (bool_decide_ext (family a = family b) (family b = family a)) by done.
  by rewrite (andb_comm (isTextPath (path a))).
Qed.

(** *** Where the tools route to *)

(** The endpoint paths a tool can send a request to. *)
Definition routes (tool : PlannedTool) : list string :=
  option_list (endpointPath tool) ++ option_list (translationEndpointPath tool).

Lemma endpointByPath_found (catalog : CatalogState) (e : EndpointDescriptor) :
  e ∈ endpoints catalog -> method e = "POST" ->
  is_Some (endpointByPath catalog (path e)).
Proof.
  unfold endpointByPath. intros Hin Hpost.
  induction (endpoints catalog) as [|x l IH]; [by apply elem_of_nil in Hin|].
  simpl. destruct (bool_decide (path x = path e) && bool_decide (method x = "POST")) eqn:E;
    [by eexists|].
  apply elem_of_cons in Hin as [->|Hin]; [|by apply IH].
  rewrite Hpost, !bool_decide_eq_true_2 in E by done. done.
Qed.

Lemma endpointByPath_again (catalog : CatalogState) (p : string) (e : EndpointDescriptor) :
  endpointByPath catalog p = Some e -> endpointByPath catalog (path e) = Some e.
Proof.
  intros H. by rewrite (proj1 (endpointByPath_Some catalog p e H)).
Qed.

Lemma chooseCompactTextEndpoint_Some (catalog : CatalogState) (e : EndpointDescriptor) :
  chooseCompactTextEndpoint catalog = Some e ->
  endpointByPath catalog (path e) = Some e
  /\ (path e = "/v1/responses" \/ path e = "/v1/chat/completions").
Proof.
  unfold chooseCompactTextEndpoint.
  destruct (endpointByPath catalog "/v1/responses") as [r|] eqn:Hr;
    destruct (endpointByPath catalog "/v1/chat/completions") as [c|] eqn:Hc;
    try destruct (isDuplicateCandidate c r); intros [= <-];
    (split; [by eapply endpointByPath_again|]);
    first [ left; by eapply endpointByPath_Some
          | right; by eapply endpointByPath_Some ].
Qed.

Lemma push_if_Forall {A} (P : PlannedTool -> Prop) (o : option A)
    (mk : A -> PlannedTool) (tools : list PlannedTool) :
  (forall x, o = Some x -> P (mk x)) ->
  Forall P tools -> Forall P (push_if o mk tools).
Proof.
  intros Hmk Htools. destruct o as [x|]; simpl; [|done].
  apply Forall_app. split; [done|]. apply Forall_singleton. by apply Hmk.
Qed.

(** The optional paths that the configuration switches off. *)
Definition excluded (config : AlbomConfig) (p : string) : bool :=
  (negb (includeVideo config) && bool_decide (p = "/v1/video/generations"))
  || (negb (includeModeration config) && bool_decide (p = "/v1/moderations"))
  || (negb (includeEmbeddings config) && bool_decide (p = "/v1/embeddings")).

Lemma shouldInclude_excluded (e : EndpointDescriptor) (config : AlbomConfig) :
  shouldIncludeFullEndpoint e config = negb (excluded config (path e)).
Proof.
  unfold shouldIncludeFullEndpoint, excluded.
  destruct (includeVideo config), (includeModeration config), (includeEmbeddings config);
    simpl; repeat case_bool_decide; done.
Qed.

(** What the loop of [makeFullTools] adds: one tool per POST endpoint that
    is not excluded, in the order of the catalog, each carrying the path,
    the content type and the file field of its endpoint. *)
Definition billable (config : AlbomConfig) (e : EndpointDescriptor) : Prop :=
  method e = "POST" /\ shouldIncludeFullEndpoint e config = true.

#[local] Instance billable_dec config e : Decision (billable config e).
Proof. unfold billable. apply _. Defined.

Definition binding (tool : PlannedTool)
  : option string * option EndpointContentType * option string :=
  (endpointPath tool, toolContentType tool, toolFileField tool).

Definition bindingOf (e : EndpointDescriptor)
  : option string * option EndpointContentType * option string :=
  (Some (path e), Some (contentType e), fileField e).

Lemma fullTools_fold (config : AlbomConfig) (l : list EndpointDescriptor)
    (tools : list PlannedTool) (used : gset string) :
  exists added,
    (foldl (fullToolStep config) (tools, used) l).1 = tools ++ added
    /\ Forall (fun tool => kind tool = full_endpoint
                           /\ translationEndpointPath tool = None) added
    /\ map binding added = map bindingOf (filter (billable config) l).
Proof.
  revert tools used. induction l as [|e l IH]; intros tools used.
  - exists []. by rewrite app_nil_r.
  - cbn [foldl]. rewrite filter_cons. unfold fullToolStep at 2.
    destruct (bool_decide (method e = "POST")) eqn:Hpost; cbn [negb].
    + destruct (shouldIncludeFullEndpoint e config) eqn:Hincl; cbn [negb].
      * apply bool_decide_eq_true_1 in Hpost.
        rewrite decide_True by done.
        match goal with
        | |- context [foldl _ (tools ++ [?t], ?u) l] =>
            destruct (IH (tools ++ [t]) u) as (added & H1 & H2 & H3);
            exists (t :: added)
        end.
        rewrite H1, <- app_assoc. split; [done|]. split.
        -- by apply Forall_cons.
        -- cbn [map]. by rewrite H3.
      * rewrite decide_False by (intros [_ H']; congruence). apply IH.
    + apply bool_decide_eq_false_1 in Hpost.
      rewrite decide_False by (intros [H' _]; congruence). apply IH.
Qed.

Lemma ofKind_all (k : ToolKind) (l : list PlannedTool) :
  Forall (fun tool => kind tool = k) l -> ofKind k l = l.
Proof.
  induction 1 as [|x l Hx _ IH]; [done|].
  unfold ofKind. rewrite filter_cons, decide_True by done.
  fold (ofKind k l). by rewrite IH.
Qed.

(** X3. In the full profile the endpoint tools are, in the order of the
    catalog, exactly the POST endpoints that the configuration does not
    exclude: one tool per such endpoint, bound to its path, content type
    and file field. No endpoint is dropped and none is added. *)
Theorem full_profile_covers_catalog :
  forall (catalog : CatalogState) (config : AlbomConfig),
    map binding (ofKind full_endpoint (makeFullTools catalog config))
    = map bindingOf (filter (billable config) (endpoints catalog)).
Proof.
  intros catalog config. unfold makeFullTools. cbv zeta.
  destruct (fullTools_fold config (endpoints catalog) [catalogGetTool]
              (list_to_set (map name [catalogGetTool]))) as (added & H1 & H2 & H3).
  assert (Hk : ofKind full_endpoint ([catalogGetTool] ++ added) = added).
  { rewrite ofKind_app. change (ofKind full_endpoint [catalogGetTool]) with (@nil PlannedTool).
    apply ofKind_all. eapply Forall_impl; [exact H2|]. by intros ? [? _]. }
  destruct (allowRawTool config).
  - rewrite ofKind_app, H1, Hk.
    change (ofKind full_endpoint [rawCallTool]) with (@nil PlannedTool).
    by rewrite app_nil_r.
  - by rewrite H1, Hk.
Qed.

Definition wellRouted (catalog : CatalogState) (config : AlbomConfig)
    (tool : PlannedTool) : Prop :=
  Forall (fun p => is_Some (endpointByPath catalog p) /\ excluded config p = false)
    (routes tool).

Lemma wellRouted_one (catalog : CatalogState) (config : AlbomConfig)
    (k : ToolKind) (n t d p : string) (a : ToolAnnotations) :
  is_Some (endpointByPath catalog p) -> excluded config p = false ->
  wellRouted catalog config (endpointTool k n t d p a).
Proof. intros H1 H2. unfold wellRouted, routes. simpl. by apply Forall_singleton. Qed.

Lemma makeCompactTools_routed (catalog : CatalogState) (config : AlbomConfig) :
  Forall (wellRouted catalog config) (makeCompactTools catalog config).
Proof.
  assert (Hget : wellRouted catalog config catalogGetTool) by apply Forall_nil_2.
  assert (Hraw : wellRouted catalog config rawCallTool) by apply Forall_nil_2.
  assert (Hone : forall p k n t d a x,
             endpointByPath catalog p = Some x ->
             excluded config p = false ->
             wellRouted catalog config (endpointTool k n t d (path x) a)).
  { intros p k n t d a x Hx Hex.
    rewrite (proj1 (endpointByPath_Some _ _ _ Hx)).
    apply wellRouted_one; [by eexists|done]. }
  unfold makeCompactTools. cbv zeta.
  assert (Hplain : forall p : string,
             p = "/v1/responses" \/ p = "/v1/chat/completions"
             \/ p = "/v1/images/generations" \/ p = "/v1/images/edits"
             \/ p = "/v1/audio/transcriptions" \/ p = "/v1/audio/translations"
             \/ p = "/v1/audio/speech" ->
             excluded config p = false).
  { intros p Hp. unfold excluded.
    rewrite !bool_decide_eq_false_2, !andb_false_r; [done|..];
      intros ->; repeat (destruct Hp as [Hp|Hp]; try discriminate). }
  assert (Htools :
    Forall (wellRouted catalog config)
      (push_if (endpointByPath catalog "/v1/audio/speech")
         (fun audioSpeech =>
            endpointTool audio_speech "albom_audio_speech" "Audio Speech"
              "Synthesize speech from text input."
              (path audioSpeech) DEFAULT_ANNOTATION)
      (push_if (endpointByPath catalog "/v1/audio/transcriptions")
         (fun audioTranscribe =>
            mkTool audio_transcribe "albom_audio_transcribe" "Audio Transcribe"
              "Transcribe audio. Set translate_to_english=true to route to translation."
              (Some (path audioTranscribe))
              (path <$> endpointByPath catalog "/v1/audio/translations")
              None None DEFAULT_ANNOTATION)
      (push_if (endpointByPath catalog "/v1/images/edits")
         (fun imageEdit =>
            endpointTool image_edit "albom_image_edit" "Image Edit"
              "Edit an input image with prompt instructions."
              (path imageEdit) DEFAULT_ANNOTATION)
      (push_if (endpointByPath catalog "/v1/images/generations")
         (fun imageGenerate =>
            endpointTool image_generate "albom_image_generate" "Image Generation"
              "Generate new images from text prompts."
              (path imageGenerate) DEFAULT_ANNOTATION)
      (push_if (chooseCompactTextEndpoint catalog)
         (fun textEndpoint =>
            endpointTool text_generate "albom_text_generate" "Text Generation"
              ("Generate text responses via " +:+ path textEndpoint +:+ ".")
              (path textEndpoint) DEFAULT_ANNOTATION) [catalogGetTool])))))).
  { apply push_if_Forall; [intros x Hx; eapply Hone; [exact Hx|apply Hplain; tauto]|].
    apply push_if_Forall.
    { intros x Hx. unfold wellRouted, routes. cbn [endpointPath translationEndpointPath].
      apply Forall_app. split.
      - apply Forall_singleton. split; [|apply Hplain].
        + rewrite (endpointByPath_again _ _ _ Hx). by eexists.
        + rewrite (proj1 (endpointByPath_Some _ _ _ Hx)). tauto.
      - destruct (endpointByPath catalog "/v1/audio/translations") as [y|] eqn:Hy;
          [|apply Forall_nil_2].
        apply Forall_singleton. split; [|apply Hplain].
        + rewrite (endpointByPath_again _ _ _ Hy). by eexists.
        + rewrite (proj1 (endpointByPath_Some _ _ _ Hy)). tauto. }
    apply push_if_Forall; [intros x Hx; eapply Hone; [exact Hx|apply Hplain; tauto]|].
    apply push_if_Forall; [intros x Hx; eapply Hone; [exact Hx|apply Hplain; tauto]|].
    apply push_if_Forall; [|by apply Forall_singleton].
    intros x [Hx Hp]%chooseCompactTextEndpoint_Some.
    apply wellRouted_one; [by eexists|]. apply Hplain. tauto. }
  revert Htools. generalize
    (push_if (endpointByPath catalog "/v1/audio/speech")
         (fun audioSpeech =>
            endpointTool audio_speech "albom_audio_speech" "Audio Speech"
              "Synthesize speech from text input."
              (path audioSpeech) DEFAULT_ANNOTATION)
      (push_if (endpointByPath catalog "/v1/audio/transcriptions")
         (fun audioTranscribe =>
            mkTool audio_transcribe "albom_audio_transcribe" "Audio Transcribe"
              "Transcribe audio. Set translate_to_english=true to route to translation."
              (Some (path audioTranscribe))
              (path <$> endpointByPath catalog "/v1/audio/translations")
              None None DEFAULT_ANNOTATION)
      (push_if (endpointByPath catalog "/v1/images/edits")
         (fun imageEdit =>
            endpointTool image_edit "albom_image_edit" "Image Edit"
              "Edit an input image with prompt instructions."
              (path imageEdit) DEFAULT_ANNOTATION)
      (push_if (endpointByPath catalog "/v1/images/generations")
         (fun imageGenerate =>
            endpointTool image_generate "albom_image_generate" "Image Generation"
              "Generate new images from text prompts."
              (path imageGenerate) DEFAULT_ANNOTATION)
      (push_if (chooseCompactTextEndpoint catalog)
         (fun textEndpoint =>
            endpointTool text_generate "albom_text_generate" "Text Generation"
              ("Generate text responses via " +:+ path textEndpoint +:+ ".")
              (path textEndpoint) DEFAULT_ANNOTATION) [catalogGetTool]))))).
  intros base Hbase.
  destruct (includeVideo config) eqn:Hv, (includeModeration config) eqn:Hm,
    (includeEmbeddings config) eqn:He, (allowRawTool config);
    repeat first
      [ apply Forall_app; split; [|by apply Forall_singleton]
      | apply push_if_Forall;
        [ intros x Hx; eapply Hone; [exact Hx|];
          unfold excluded; rewrite ?Hv, ?Hm, ?He; reflexivity | ]
      | exact Hbase ].
Qed.

Lemma makeFullTools_routed (catalog : CatalogState) (config : AlbomConfig) :
  Forall (wellRouted catalog config) (makeFullTools catalog config).
Proof.
  unfold makeFullTools. cbv zeta.
  assert (Hfold : forall l tools used,
            (forall e, e ∈ l -> e ∈ endpoints catalog) ->
            Forall (wellRouted catalog config) tools ->
            Forall (wellRouted catalog config)
              (foldl (fullToolStep config) (tools, used) l).1).
  { induction l as [|e l IH]; intros tools used Hsub Htools; [done|].
    cbn [foldl]. unfold fullToolStep at 2.
    assert (Hl : forall e', e' ∈ l -> e' ∈ endpoints catalog).
    { intros e' He'. apply Hsub. by right. }
    destruct (bool_decide (method e = "POST")) eqn:Hpost; cbn [negb]; [|by apply IH].
    destruct (shouldIncludeFullEndpoint e config) eqn:Hincl; cbn [negb]; [|by apply IH].
    apply IH; [done|]. apply Forall_app. split; [done|].
    apply Forall_singleton. unfold wellRouted, routes. simpl.
    apply Forall_singleton. split.
    - apply endpointByPath_found; [apply Hsub; by left|].
      by apply bool_decide_eq_true_1 in Hpost.
    - rewrite shouldInclude_excluded in Hincl. by apply negb_true_iff in Hincl. }
  assert (H : Forall (wellRouted catalog config)
                (foldl (fullToolStep config)
                   ([catalogGetTool], list_to_set (map name [catalogGetTool]))
                   (endpoints catalog)).1).
  { apply Hfold; [done|]. apply Forall_singleton, Forall_nil_2. }
  destruct (allowRawTool config); [|done].
  apply Forall_app. split; [done|]. apply Forall_singleton, Forall_nil_2.
Qed.

(** X4. In both profiles, every path that a planned tool routes to (its
    endpoint path and, for audio transcription, its translation path) is
    found by [endpointByPath] in the catalog the tools were built from, so
    it belongs to a POST endpoint of that catalog; and no tool routes to
    the video, moderation or embeddings endpoint when the configuration
    switches that endpoint off. *)
Theorem tool_routes_exist_and_respect_config :
  forall sha256Hex JSON_stringify localeCompare
         (catalog : CatalogState) (config : AlbomConfig),
    Forall (fun tool =>
              Forall (fun p =>
                        is_Some (endpointByPath catalog p)
                        /\ excluded config p = false)
                (routes tool))
      (tools (buildToolState sha256Hex JSON_stringify localeCompare catalog config)).
Proof.
  intros. unfold buildToolState. simpl. destruct (toolProfile config).
  - apply makeCompactTools_routed.
  - apply makeFullTools_routed.
Qed.

(** *** The shape of the tool list *)

Definition inner (tool : PlannedTool) : Prop :=
  kind tool <> catalog_get /\ kind tool <> raw_call.

Definition framed (tools : list PlannedTool) : Prop :=
  exists middle, tools = catalogGetTool :: middle /\ Forall inner middle.

Lemma framed_push_if {A} (o : option A) (mk : A -> PlannedTool)
    (tools : list PlannedTool) :
  (forall x, inner (mk x)) -> framed tools -> framed (push_if o mk tools).
Proof.
  intros Hmk (middle & -> & Hmid). destruct o as [x|]; simpl; [|by exists middle].
  exists (middle ++ [mk x]). split; [done|].
  apply Forall_app. split; [done|]. by apply Forall_singleton.
Qed.

(** X5. In both profiles the tool list starts with the catalog tool, ends
    with the raw-call tool exactly when [allowRawTool] is set, and holds
    neither of the two kinds anywhere else: the raw caller is never
    exposed without the switch. *)
Theorem tool_list_frame :
  forall sha256Hex JSON_stringify localeCompare
         (catalog : CatalogState) (config : AlbomConfig),
    exists middle,
      tools (buildToolState sha256Hex JSON_stringify localeCompare catalog config)
      = catalogGetTool :: middle
          ++ (if allowRawTool config then [rawCallTool] else [])
      /\ Forall (fun tool => kind tool <> catalog_get /\ kind tool <> raw_call) middle.
Proof.
  intros. unfold buildToolState. simpl.
  assert (Hstart : framed [catalogGetTool]) by (by exists []).
  destruct (toolProfile config).
  - unfold makeCompactTools. cbv zeta.
    match goal with
    | |- context [if allowRawTool config then ?t ++ [rawCallTool] else ?t] =>
        assert (Hf : framed t)
    end.
    { destruct (includeVideo config), (includeModeration config),
        (includeEmbeddings config);
        repeat (apply framed_push_if; [intros ?; split; discriminate|]);
        exact Hstart. }
    destruct Hf as (middle & Hm & Hin). rewrite Hm. exists middle.
    split; [|done]. destruct (allowRawTool config); [done|].
    by rewrite app_nil_r.
  - unfold makeFullTools. cbv zeta.
    destruct (fullTools_fold config (endpoints catalog) [catalogGetTool]
                (list_to_set (map name [catalogGetTool]))) as (added & H1 & H2 & _).
    rewrite H1. exists added. split.
    + destruct (allowRawTool config); [done|]. by rewrite app_nil_r.
    + eapply Forall_impl; [exact H2|]. intros tool [Hk _]. rewrite Hk.
      split; discriminate.
Qed.

(** X6. The compact profile draws its tool names from ten fixed names, in
    a fixed order, whatever the catalog holds; so no two compact tools
    share a name, and every name is a valid tool name. *)
Theorem compact_names_fixed :
  forall (catalog : CatalogState) (config : AlbomConfig),
    names (makeCompactTools catalog config) `sublist_of` compactNames
    /\ NoDup (names (makeCompactTools catalog config))
    /\ Forall (fun n => valid_name n = true) (names (makeCompactTools catalog config)).
Proof.
  intros catalog config. split; [apply makeCompactTools_names|].
  split; [apply makeCompactTools_NoDup|].
  unfold names. apply Forall_fmap. apply makeCompactTools_valid.
Qed.

End DedupMore.

(** ** l402.ts: reading the token cache *)

Module CacheMore.
Import Js L402 CacheSpec.

Lemma calls_wf (ops : list cacheCall) (c : L402TokenCache) :
  wf c -> wf (calls c ops).
Proof.
  revert c. induction ops as [|op ops IH]; intros c Hwf; [done|].
  unfold calls. cbn [foldl]. apply IH. by apply call_wf.
Qed.

Lemma map_get_absent {V} (k : string) (m : list (string * V)) :
  k ∉ keys m -> map_get k m = None.
Proof.
  unfold map_get, keys. induction m as [|[k' v'] m IH]; simpl; [done|].
  intros Hk. apply not_elem_of_cons in Hk as [Hne Hk].
  rewrite bool_decide_eq_false_2 by done. by apply IH.
Qed.

(** Reading a map of unique keys after a filter. *)
Lemma map_get_filter {V} (P : string * V -> Prop) `{!forall x, Decision (P x)}
    (k : string) (m : list (string * V)) :
  NoDup (keys m) ->
  map_get k (filter P m)
  = match map_get k m with
    | Some v => if decide (P (k, v)) then Some v else None
    | None => None
    end.
Proof.
  unfold map_get, keys. induction m as [|[k' v'] m IH]; simpl; [done|].
  intros [Hk Hnd]%NoDup_cons. rewrite filter_cons.
  case_bool_decide as E.
  - subst k'. destruct (decide (P (k, v'))) as [Hp|Hp]; simpl.
    + by rewrite bool_decide_eq_true_2.
    + rewrite (IH Hnd). pose proof (map_get_absent k m Hk) as Habs.
      unfold map_get in Habs. by rewrite Habs.
  - destruct (decide (P (k', v'))); simpl; [|by apply IH].
    rewrite bool_decide_eq_false_2 by done. by apply IH.
Qed.

Lemma filter_split_length {A} (f : A -> bool) (l : list A) :
  Z.of_nat (length l) - Z.of_nat (length (filter (fun x => f x = false) l))
  = Z.of_nat (length (filter (fun x => f x = true) l)).
Proof.
  induction l as [|x l IH]; [done|].
  rewrite !filter_cons. destruct (f x) eqn:E.
  - rewrite decide_False, decide_True by done. cbn [length]. lia.
  - rewrite decide_True, decide_False by done. cbn [length]. lia.
Qed.

(** X7. A token that [set] stores can be read back under the payment hash
    of its challenge at any time up to its expiry (the clock read at the
    insertion plus the TTL given, else the default TTL), whatever the
    cache held before and whatever had to be purged or evicted to make
    room; the entry carries the macaroon, the invoice and the amount of
    the challenge, and the read leaves the cache as it is. After the
    expiry the read gives undefined. *)
Theorem stored_token_readable_until_expiry :
  forall (c : L402TokenCache) (nowPurge nowInsert : Z) (challenge : L402Challenge)
         (ttlMs : option Z) (now : Z),
    let stored := set nowPurge nowInsert challenge ttlMs c in
    let entry :=
      mkEntry (macaroon challenge) (invoice challenge) (paymentHash challenge)
        (amountSats challenge) (nowInsert + default (defaultTtlMs c) ttlMs) in
    (now <= expiresAt entry ->
     get now (paymentHash challenge) stored = (Some entry, stored))
    /\ (expiresAt entry < now ->
        (get now (paymentHash challenge) stored).1 = None).
Proof.
  intros c n1 n2 ch ttl now stored entry.
  assert (Hget : map_get (paymentHash ch) (entries stored) = Some entry).
  { unfold stored, set. cbv zeta. cbn [entries with_entries]. apply map_get_set. }
  unfold get. rewrite Hget. split; intros Hnow.
  - by rewrite (proj2 (Z.ltb_ge _ _) Hnow).
  - by rewrite (proj2 (Z.ltb_lt _ _) Hnow).
Qed.

Lemma stored_token_readable_until_expiry_witness :
  (get 300000 "ph_0" (set 0 0 (challengeNo "0") None (newCache None None))).1
  = Some (mkEntry "mac_0" "lnbc_0" "ph_0" 0%float 300000).
Proof.
  assert (H := stored_token_readable_until_expiry (newCache None None) 0 0
                 (challengeNo "0") None 300000).
  cbv zeta in H. destruct H as [H _].
  assert (Hnow : 300000 <= 0 + default (defaultTtlMs (newCache None None)) None)
    by (simpl; lia).
  exact (f_equal fst (H Hnow)).
Defined.

Lemma purge_get (c : L402TokenCache) (now now' : Z) (key : string) :
  wf c -> now <= now' ->
  (get now' key (purgeExpired now c).1).1 = (get now' key c).1.
Proof.
  intros Hwf Hle. unfold get, purgeExpired. cbn [fst entries with_entries].
  rewrite map_get_filter by exact Hwf.
  destruct (map_get key (entries c)) as [e|]; [|done].
  cbn [snd]. unfold expired.
  destruct (decide ((expiresAt e <? now) = false)) as [Hlive|Hdead].
  - by destruct (expiresAt e <? now').
  - apply not_false_is_true, Z.ltb_lt in Hdead.
    rewrite (proj2 (Z.ltb_lt (expiresAt e) now')) by lia. done.
Qed.

(** X8. On any cache reached from the constructor by calls of its methods,
    [purgeExpired] is invisible to readers: a [get] at the same or a later
    time returns what it would have returned without the purge. The purge
    removes the expired entries and no other; the number it returns is the
    number of expired entries. *)
Theorem purge_is_transparent :
  forall (optMaxEntries optTtl : option Z) (ops : list cacheCall) (now : Z),
    let c := calls (newCache optMaxEntries optTtl) ops in
    (forall now' key, now <= now' ->
       (get now' key (purgeExpired now c).1).1 = (get now' key c).1)
    /\ entries (purgeExpired now c).1
       = filter (fun kv => now <= expiresAt kv.2) (entries c)
    /\ (purgeExpired now c).2
       = Z.of_nat (length (filter (fun kv => expiresAt kv.2 < now) (entries c))).
Proof.
  intros a b ops now c.
  assert (Hwf : wf c) by (apply calls_wf, NoDup_nil_2).
  split; [intros now' key Hle; by apply purge_get|].
  unfold purgeExpired. cbn [fst snd entries with_entries]. split.
  - apply list_filter_iff. intros [k e]. unfold expired. cbn [snd].
    rewrite Z.ltb_ge. done.
  - rewrite (filter_split_length (fun kv => expired now kv.2)).
    f_equal. f_equal. apply list_filter_iff. intros [k e]. unfold expired. cbn [snd].
    by rewrite Z.ltb_lt.
Qed.

Lemma purge_is_transparent_witness :
  let c := calls (newCache (Some 5) (Some 1000)) sixSets in
  (get 2000 "ph_3" (purgeExpired 1500 c).1).1 = (get 2000 "ph_3" c).1.
Proof.
  apply (proj1 (purge_is_transparent (Some 5) (Some 1000) sixSets 1500)). lia.
Defined.

End CacheMore.

(** ** httpClient.ts: how a call fails *)

Module HttpMore.
Import Js L402 Types HttpClient HttpSpec.

(** The error that the [catch] block of [requestWithRetries] throws for a
    rejection. *)
Definition failureOf (error : JsError) : AlbomRuntimeError :=
  mkRuntimeError (if isAbortError error then "upstream_timeout" else "network_error")
    ("HTTP request failed: " +:+ errorMessage error)
    (if isAbortError error then 504 else 503).

Lemma parseResponseData_Rejects (world : World) (r : Response) (error : JsError) :
  parseResponseData world r = Rejects error ->
  text r = Rejects error \/ arrayBuffer r = Rejects error.
Proof.
  unfold parseResponseData. cbv zeta.
  destruct (includes _ _).
  - destruct (text r) as [t|e]; [|intros [= <-]; by left].
    destruct (negb (truthy t)); [discriminate|].
    destruct (JSON_parse world t); discriminate.
  - destruct (startsWith _ _).
    + destruct (text r) as [t|e]; [discriminate|intros [= <-]; by left].
    + destruct (arrayBuffer r) as [b|e]; [discriminate|intros [= <-]; by right].
Qed.

Section Failures.
Variable options : HttpClientOptions.
Variable world : World.
Variable url : string.
Variable requestInit : RequestInit.

(** The request sent from the history [h] failed with [error]: the fetch
    rejected, or the response arrived and its body could not be read. *)
Definition failed (h : History) (error : JsError) : Prop :=
  fetchFn world h url requestInit = Rejects error
  \/ exists r, fetchFn world h url requestInit = Resolves r
               /\ (text r = Rejects error \/ arrayBuffer r = Rejects error).

Lemma catchBlock_Throws n error h e h' :
  catchBlock options world n error h = (Return (Throws e), h') ->
  (maxRetries options <= n)%nat /\ h' = h /\ e = failureOf error.
Proof.
  unfold catchBlock, maxAttempts. cbv zeta. case_bool_decide as Hn; [discriminate|].
  intros [= <- <-]. split; [lia|done].
Qed.

Lemma autoPay_Returns handler responseHeaders data h :
  exists res, (autoPay world url requestInit handler responseHeaders data h).1
              = Returns res.
Proof.
  unfold autoPay. cbv zeta.
  destruct (parseL402Challenge responseHeaders data) as [ch|]; [|by eexists].
  destruct (handler h ch) as [preimage|e]; [|by eexists].
  match goal with |- context [fetchFn world ?h' url ?i] =>
    destruct (fetchFn world h' url i) as [r|e] end; [|by eexists].
  destruct (parseResponseData world r); by eexists.
Qed.

Lemma iterate_Throws n h e h' :
  iteration options world url requestInit n h = (Return (Throws e), h') ->
  (maxRetries options <= n)%nat
  /\ h' = h ++ [Attempt n url requestInit]
  /\ exists error, failed h error /\ e = failureOf error.
Proof.
  unfold iteration, failed. cbv zeta.
  destruct (fetchFn world h url requestInit) as [r|err].
  2:{ intros (Hn & -> & ->)%catchBlock_Throws. repeat split; [done|].
      exists err. split; [by left|done]. }
  assert (Hbody : forall err,
            parseResponseData world r = Rejects err ->
            catchBlock options world n err (h ++ [Attempt n url requestInit])
            = (Return (Throws e), h') ->
            (maxRetries options <= n)%nat
            /\ h' = h ++ [Attempt n url requestInit]
            /\ exists error,
                 (Resolves r = Rejects error
                  \/ exists r0, Resolves r = Resolves r0
                       /\ (text r0 = Rejects error \/ arrayBuffer r0 = Rejects error))
                 /\ e = failureOf error).
  { intros err Hp (Hn & -> & ->)%catchBlock_Throws. repeat split; [done|].
    exists err. split; [|done]. right. exists r. split; [done|].
    by apply (parseResponseData_Rejects world). }
  destruct (if responseStatus r =? 402 then l402Handler options else None)
    as [handler|].
  - destruct (parseResponseData world r) as [data|err] eqn:P; [|by apply Hbody].
    destruct (autoPay_Returns handler (headersToRecord (headerEntries r)) data
                (h ++ [Attempt n url requestInit])) as [res Hres].
    destruct (autoPay _ _ _ _ _ _ _) as [result hp]. simpl in Hres. subst result.
    discriminate.
  - destruct (isRetryableStatus (responseStatus r)
              && bool_decide (n < maxAttempts options - 1)%nat); [discriminate|].
    destruct (parseResponseData world r) as [data|err] eqn:P; [discriminate|].
    by apply Hbody.
Qed.

Lemma retryLoop_Throws (todo n : nat) (h : History) e h' :
  (n + todo = maxAttempts options)%nat -> (1 <= todo)%nat ->
  retryLoop options world url requestInit todo n h = (Throws e, h') ->
  exists added hlast error,
    h' = h ++ added
    /\ count isAttempt added = todo
    /\ h' = hlast ++ [Attempt (maxRetries options) url requestInit]
    /\ failed hlast error
    /\ e = failureOf error.
Proof.
  revert n h. induction todo as [|todo IH]; intros n h Hsum Hpos; [lia|].
  cbn [retryLoop].
  destruct (iteration options world url requestInit n h) as [[result|] h1] eqn:E.
  - intros [= -> ->].
    apply iterate_Throws in E as (Hn & -> & error & Hf & ->).
    unfold maxAttempts in Hsum.
    assert (n = maxRetries options) as -> by lia.
    assert (todo = 0%nat) as -> by lia.
    exists [Attempt (maxRetries options) url requestInit], h, error.
    repeat split; done.
  - pose proof (iterate_Continue _ _ _ _ _ _ _ E) as (Hn & -> & _).
    intros Hloop. unfold maxAttempts in Hsum.
    apply IH in Hloop as (added & hlast & error & -> & Hc & Hlast & Hf & ->);
      [|unfold maxAttempts; lia|lia].
    eexists (Attempt n url requestInit :: Sleep _ :: added), hlast, error.
    rewrite <- Hlast. repeat split; [by rewrite <- !app_assoc| |done].
    simpl. by rewrite Hc.
Qed.

End Failures.

(** X9. The only errors that a call through [postJson], [postMultipart]
    or [rawPost] throws are: [missing_bearer_token] with status 401,
    thrown before any request is made; and, after exactly
    [maxRetries + 1] attempts, [upstream_timeout] with status 504 or
    [network_error] with status 503, according to whether the last attempt
    ended in an [AbortError] or in another rejection (of the fetch or of
    the reading of the body), with the message of that rejection. An
    upstream status never makes the call throw, and the error
    [internal_retry_error] after the loop is never reached. *)
Theorem thrown_errors :
  forall (JSON_stringify String_of : value -> string)
         (options : HttpClientOptions) (world : World)
         (c : entryCall) (requestOptions : RequestOptions) (h : History)
         (e : AlbomRuntimeError) (h' : History),
    perform JSON_stringify String_of options world c requestOptions h = (Throws e, h') ->
    (errorCode e = "missing_bearer_token" /\ HttpClient.errorStatus e = 401 /\ h' = h)
    \/ exists init added hlast error,
         h' = h ++ added
         /\ count isAttempt added = (maxRetries options + 1)%nat
         /\ h' = hlast ++ [Attempt (maxRetries options)
                             (composeEndpointUrl (baseUrl options) (endpointOf c)) init]
         /\ failed world (composeEndpointUrl (baseUrl options) (endpointOf c)) init
              hlast error
         /\ errorCode e
            = (if isAbortError error then "upstream_timeout" else "network_error")
         /\ HttpClient.errorStatus e = (if isAbortError error then 504 else 503)
         /\ runtimeMessage e = "HTTP request failed: " +:+ errorMessage error.
Proof.
  intros JSON_stringify String_of options world c requestOptions h e h' Hthrow.
  pose proof (perform_unfold JSON_stringify String_of options world c requestOptions h)
    as Hp.
  destruct (resolveHeaders options requestOptions) as [headers|e0] eqn:E.
  - right. destruct Hp as (init & Hp & _). rewrite Hp in Hthrow.
    unfold requestWithRetries in Hthrow.
    apply retryLoop_Throws in Hthrow
      as (added & hlast & error & -> & Hc & Hlast & Hf & ->);
      [|done|unfold maxAttempts; lia].
    exists init, added, hlast, error. unfold maxAttempts in Hc.
    repeat split; done.
  - left. rewrite Hp in Hthrow. injection Hthrow as <- <-.
    unfold resolveHeaders in E.
    destruct (l402Auth requestOptions); [discriminate|].
    destruct (truthy_opt (bearerToken options)); [discriminate|].
    destruct (bool_decide (is_Some (l402Handler options))); [discriminate|].
    destruct (allowL402Quote requestOptions); [discriminate|].
    by injection E as <-.
Qed.

(** A network that refuses every connection, and one that times out. *)
Definition refusing (abort : bool) : World :=
  mkWorld parseExamples (fun bytes => bytes)
    (fun _ _ _ => Rejects (mkJsError abort "fetch failed"))
    (fun _ => 0%Q) zero_in_range.

Lemma thrown_errors_witness :
  exists e h',
    postJson (fun _ => "{}") plainOptions (refusing true) "/v1/responses"
      (VObj []) noRequestOptions [] = (Throws e, h')
    /\ ((errorCode e = "missing_bearer_token" /\ HttpClient.errorStatus e = 401 /\ h' = [])
        \/ exists init added hlast error,
             h' = [] ++ added
             /\ count isAttempt added = 3%nat
             /\ h' = hlast ++ [Attempt 2
                                 "https://alittlebitofmoney.com/openai/v1/responses" init]
             /\ failed (refusing true)
                  "https://alittlebitofmoney.com/openai/v1/responses" init hlast error
             /\ errorCode e
                = (if isAbortError error then "upstream_timeout" else "network_error")
             /\ HttpClient.errorStatus e = (if isAbortError error then 504 else 503)
             /\ runtimeMessage e = "HTTP request failed: " +:+ errorMessage error).
Proof.
  eexists _, _. split; [vm_compute; reflexivity|].
  apply (thrown_errors (fun _ => "{}") (fun _ => EmptyString) plainOptions
           (refusing true) (CallPostJson "/v1/responses" (VObj [])) noRequestOptions []).
  vm_compute. reflexivity.
Defined.

Section Persistent.
Variable options : HttpClientOptions.
Variable world : World.
Variable url : string.
Variable requestInit : RequestInit.

Lemma retryLoop_all_rejected (error : JsError) (todo n : nat) (h : History) :
  (forall h', fetchFn world h' url requestInit = Rejects error) ->
  (n + todo = maxAttempts options)%nat -> (1 <= todo)%nat ->
  exists added,
    retryLoop options world url requestInit todo n h
    = (Throws (failureOf error), h ++ added)
    /\ count isAttempt added = todo
    /\ S (count isSleep added) = todo
    /\ count isReplay added = 0%nat /\ count isPay added = 0%nat.
Proof.
  intros Hdead. revert n h. induction todo as [|todo IH]; intros n h Hsum Hpos; [lia|].
  cbn [retryLoop]. unfold iteration. cbv zeta. rewrite Hdead.
  unfold catchBlock. cbv zeta. unfold maxAttempts in *.
  case_bool_decide as Hn.
  - destruct (IH (S n) ((h ++ [Attempt n url requestInit])
                          ++ [Sleep (backoffMs n
                                       (random world (h ++ [Attempt n url requestInit])))]))
      as (added & -> & Ha & Hs & Hr & Hp); [lia|lia|].
    eexists (Attempt n url requestInit :: Sleep _ :: added).
    rewrite <- !app_assoc. split; [reflexivity|]. simpl. repeat split; lia.
  - assert (todo = 0%nat) as -> by lia.
    exists [Attempt n url requestInit]. split; [reflexivity|]. done.
Qed.

Lemma retryLoop_all_retryable (r : Response) (data : value) (todo n : nat) (h : History) :
  (forall h', fetchFn world h' url requestInit = Resolves r) ->
  isRetryableStatus (responseStatus r) = true ->
  parseResponseData world r = Resolves data ->
  (n + todo = maxAttempts options)%nat -> (1 <= todo)%nat ->
  exists added,
    retryLoop options world url requestInit todo n h
    = (Returns (normalized (responseStatus r) (headerEntries r) data), h ++ added)
    /\ count isAttempt added = todo
    /\ S (count isSleep added) = todo
    /\ count isReplay added = 0%nat /\ count isPay added = 0%nat.
Proof.
  intros Hbusy Hretry Hparse.
  assert (H402 : (responseStatus r =? 402) = false).
  { apply retryable_status in Hretry. apply Z.eqb_neq. lia. }
  revert n h. induction todo as [|todo IH]; intros n h Hsum Hpos; [lia|].
  cbn [retryLoop]. unfold iteration. cbv zeta. rewrite Hbusy, H402, Hretry.
  cbn [andb]. unfold maxAttempts in *.
  case_bool_decide as Hn.
  - destruct (IH (S n) ((h ++ [Attempt n url requestInit])
                          ++ [Sleep (backoffMs n
                                       (random world (h ++ [Attempt n url requestInit])))]))
      as (added & -> & Ha & Hs & Hr & Hp); [lia|lia|].
    eexists (Attempt n url requestInit :: Sleep _ :: added).
    rewrite <- !app_assoc. split; [reflexivity|]. simpl. repeat split; lia.
  - assert (todo = 0%nat) as -> by lia. rewrite Hparse.
    exists [Attempt n url requestInit]. split; [reflexivity|]. done.
Qed.

End Persistent.

(** X10. When every request to a URL is rejected with the same error (the
    host is unreachable, or every request times out), [requestWithRetries]
    makes exactly [maxRetries + 1] attempts with [maxRetries] sleeps
    between them, pays nothing and replays nothing, and then throws
    [upstream_timeout] (504) for an [AbortError] and [network_error] (503)
    for any other error. *)
Theorem unreachable_host_throws :
  forall (options : HttpClientOptions) (world : World) (url : string)
         (requestInit : RequestInit) (error : JsError) (h : History),
    (forall h', fetchFn world h' url requestInit = Rejects error) ->
    exists added,
      requestWithRetries options world url requestInit h
      = (Throws (mkRuntimeError
                   (if isAbortError error then "upstream_timeout" else "network_error")
                   ("HTTP request failed: " +:+ errorMessage error)
                   (if isAbortError error then 504 else 503)),
         h ++ added)
      /\ count isAttempt added = (maxRetries options + 1)%nat
      /\ count isSleep added = maxRetries options
      /\ count isReplay added = 0%nat /\ count isPay added = 0%nat.
Proof.
  intros options world url requestInit error h Hdead.
  destruct (retryLoop_all_rejected options world url requestInit error
              (maxAttempts options) 0 h Hdead)
    as (added & Hrun & Ha & Hs & Hr & Hp); [done|unfold maxAttempts; lia|].
  exists added. unfold requestWithRetries. unfold maxAttempts in *.
  split; [exact Hrun|]. repeat split; lia.
Qed.

Lemma unreachable_host_throws_witness :
  exists added,
    requestWithRetries autoPayOptions (refusing false) "https://host/openai/v1/x"
      (mkRequest "POST" ∅ (BodyText "{}")) []
    = (Throws (mkRuntimeError "network_error" "HTTP request failed: fetch failed" 503),
       [] ++ added)
    /\ count isAttempt added = 3%nat
    /\ count isSleep added = 2%nat
    /\ count isReplay added = 0%nat /\ count isPay added = 0%nat.
Proof.
  apply (unreachable_host_throws autoPayOptions (refusing false)
           "https://host/openai/v1/x" (mkRequest "POST" ∅ (BodyText "{}"))
           (mkJsError false "fetch failed") []).
  reflexivity.
Defined.

(** X11. When every request to a URL is answered by the same response
    with a retryable status (429, or 500 and above) and a readable body,
    [requestWithRetries] makes exactly [maxRetries + 1] attempts and then
    returns that response, normalized: an upstream failure that persists
    is handed to the caller as a response and is not thrown. *)
Theorem persistent_status_is_returned :
  forall (options : HttpClientOptions) (world : World) (url : string)
         (requestInit : RequestInit) (r : Response) (data : value) (h : History),
    (forall h', fetchFn world h' url requestInit = Resolves r) ->
    responseStatus r = 429 \/ 500 <= responseStatus r ->
    parseResponseData world r = Resolves data ->
    exists added,
      requestWithRetries options world url requestInit h
      = (Returns (mkResponse (responseStatus r) (headersToRecord (headerEntries r)) data),
         h ++ added)
      /\ count isAttempt added = (maxRetries options + 1)%nat
      /\ count isSleep added = maxRetries options
      /\ count isReplay added = 0%nat /\ count isPay added = 0%nat.
Proof.
  intros options world url requestInit r data h Hbusy Hstatus Hparse.
  destruct (retryLoop_all_retryable options world url requestInit r data
              (maxAttempts options) 0 h Hbusy)
    as (added & Hrun & Ha & Hs & Hr & Hp);
    [by apply retryable_status|done|done|unfold maxAttempts; lia|].
  exists added. unfold requestWithRetries. unfold maxAttempts in *.
  split; [exact Hrun|]. repeat split; lia.
Qed.

(** A server that is always busy. *)
Definition busyWorld : World :=
  mkWorld parseExamples (fun bytes => bytes) (fun _ _ _ => Resolves busyResponse)
    (fun _ => 0%Q) zero_in_range.

Lemma persistent_status_is_returned_witness :
  exists added,
    requestWithRetries autoPayOptions busyWorld "https://host/openai/v1/x"
      (mkRequest "POST" ∅ (BodyText "{}")) []
    = (Returns (mkResponse 500 (headersToRecord jsonHeaders)
                  (VObj [("raw", VStr "busy")])),
       [] ++ added)
    /\ count isAttempt added = 3%nat
    /\ count isSleep added = 2%nat
    /\ count isReplay added = 0%nat /\ count isPay added = 0%nat.
Proof.
  apply (persistent_status_is_returned autoPayOptions busyWorld
           "https://host/openai/v1/x" (mkRequest "POST" ∅ (BodyText "{}"))
           busyResponse (VObj [("raw", VStr "busy")]) []).
  - reflexivity.
  - right. simpl. lia.
  - vm_compute. reflexivity.
Defined.

End HttpMore.

(** ** l402.ts: the challenge that the parser returns *)

Module HeaderMore.
Import Js L402 Types HttpClient JsFacts L402Spec.



(** X13. A challenge that [parseL402Challenge] returns is usable: its
    invoice is not empty, its amount is a finite number, and its macaroon
    is the macaroon (or token) parameter of the header without one
    trailing colon. The macaroon is empty only for a header whose
    parameter is the colon alone. *)
Theorem parsed_challenge_is_usable :
  forall (headers : gmap string string) (body : value) (challenge : L402Challenge),
    parseL402Challenge headers body = Some challenge ->
    truthy (invoice challenge) = true
    /\ isFinite (amountSats challenge) = true
    /\ exists header paramStr m,
         headers !! "www-authenticate" = Some header
         /\ l402Scheme header = Some paramStr
         /\ resolvedMacaroon paramStr = Some m
         /\ truthy m = true
         /\ macaroon challenge = (if endsWithColon m then dropLast m else m)
         /\ (macaroon challenge = EmptyString -> m = ":").
Proof.
  intros headers body challenge. rewrite parseL402Challenge_unfold.
  destruct (headers !! "www-authenticate") as [header|] eqn:Hh; [|discriminate].
  destruct (l402Scheme header) as [paramStr|] eqn:Hs; [|discriminate].
  destruct (resolvedMacaroon paramStr) as [m|] eqn:Hm; [|discriminate].
  destruct (resolvedInvoice paramStr body) as [inv|] eqn:Hi; [|discriminate].
  pose proof (resolvedMacaroon_truthy _ _ Hm) as Hmt.
  pose proof (resolvedInvoice_truthy _ _ _ Hi) as Hit.
  intros [= <-]. cbn [invoice amountSats macaroon].
  split; [exact Hit|]. split.
  - destruct (asNumber _) as [x|] eqn:Hx; [|reflexivity]. cbn [default].
    unfold asNumber in Hx. destruct (prop _ _) as [[]|]; try discriminate.
    destruct (isFinite _) eqn:Hf; [|discriminate]. by injection Hx as <-.
  - exists header, paramStr, m. repeat split; try done.
    destruct (endsWithColon m) eqn:Hc; [|intros ->; discriminate].
    destruct m as [|c [|c' m']]; [discriminate| |].
    + intros _. destruct c as [[] [] [] [] [] [] [] []]; vm_compute in Hc;
        try discriminate. reflexivity.
    + unfold dropLast. cbn [unsnoc].
      destruct (unsnoc m') as [[i l]|]; discriminate.
Qed.

Lemma parsed_challenge_is_usable_witness :
  let headers :=
    wwwAuthenticate ("L402 " +:+ quoted_param "macaroon" "mac_abc:" +:+ ", "
                     +:+ quoted_param "invoice" "lnbc100n") in
  let challenge := mkChallenge "mac_abc" "lnbc100n" EmptyString 0%float in
  truthy (invoice challenge) = true
  /\ isFinite (amountSats challenge) = true
  /\ exists header paramStr m,
       headers !! "www-authenticate" = Some header
       /\ l402Scheme header = Some paramStr
       /\ resolvedMacaroon paramStr = Some m
       /\ truthy m = true
       /\ macaroon challenge = (if endsWithColon m then dropLast m else m)
       /\ (macaroon challenge = EmptyString -> m = ":").
Proof.
  apply (parsed_challenge_is_usable
           (wwwAuthenticate ("L402 " +:+ quoted_param "macaroon" "mac_abc:" +:+ ", "
                             +:+ quoted_param "invoice" "lnbc100n"))
           VNull (mkChallenge "mac_abc" "lnbc100n" EmptyString 0%float)).
  vm_compute. reflexivity.
Defined.

End HeaderMore.

(** ** results.ts: the failure envelope *)

Module ResultsMore.
Import Js L402 Types Results JsFacts ResultsSpec.

(** The keys that [extractPaymentMetadata] can set, in the order in which
    it sets them. *)
Definition metadataKeys : list string := paymentFields ++ ["topup_url"; "macaroon"].

Lemma nullish_truthy (a b : option string) (s : string) :
  (forall x, a = Some x -> truthy x = true) ->
  (forall x, b = Some x -> truthy x = true) ->
  nullish a b = Some s -> truthy s = true.
Proof. intros Ha Hb. destruct a; simpl; intros H; [by apply Ha|by apply Hb]. Qed.

Lemma mapErrorCode_truthy (status : Z) (data : value) :
  truthy (mapErrorCode status data) = true.
Proof.
  unfold mapErrorCode. destruct (isRecord data).
  - cbv zeta. destruct (_ && _); [done|]. destruct (_ && _); [done|].
    match goal with |- context [default _ ?o] => destruct o as [s|] eqn:E end.
    + simpl. revert E. apply nullish_truthy; [apply asString_truthy|].
      intros x. apply nullish_truthy; apply asString_truthy.
    + simpl. by destruct (status =? 401).
  - repeat (match goal with |- context [if ?b then _ else _] => destruct b end; [done|]).
    done.
Qed.

Lemma pickMessage_truthy (data : value) (fallback : string) :
  truthy fallback = true -> truthy (pickMessage data fallback) = true.
Proof.
  intros Hf. unfold pickMessage.
  assert (Hrec : truthy
            (default fallback
               (nullish (asString (nested_prop (nestedErrorOf data) "message"))
                  (nullish (asString (prop data "message"))
                     (asString (prop data "status"))))) = true).
  { match goal with |- context [default _ ?o] => destruct o as [s|] eqn:E end; [|done].
    simpl. revert E. apply nullish_truthy; [apply asString_truthy|].
    intros x. apply nullish_truthy; apply asString_truthy. }
  destruct data as [| |b|x|s|items|fields]; try done.
  by destruct (truthy s) eqn:E.
Qed.

Lemma picked_keys (data : value) (fields : list string) :
  (omap (fun field =>
           if has_prop data field
           then Some (field, default VUndefined (prop data field))
           else None) fields).*1 `sublist_of` fields.
Proof.
  induction fields as [|f fields IH]; simpl; [done|].
  destruct (has_prop data f); simpl.
  - by apply sublist_skip.
  - by apply sublist_cons.
Qed.

Lemma extractPaymentMetadata_keys (data : value) (headers : gmap string string) :
  (extractPaymentMetadata data headers).*1 `sublist_of` metadataKeys.
Proof.
  unfold extractPaymentMetadata, metadataKeys. destruct (negb (isRecord data)).
  { apply sublist_nil_l. }
  cbv zeta.
  change ["topup_url"; "macaroon"] with (["topup_url"] ++ ["macaroon"]).
  rewrite app_assoc.
  assert (Htop : forall (b : bool) (k : string) (v : value) (m : list (string * value)) l,
            m.*1 `sublist_of` l ->
            (if b then m ++ [(k, v)] else m).*1 `sublist_of` l ++ [k]).
  { intros b k v m l Hm. destruct b.
    - rewrite fmap_app. by apply sublist_app.
    - rewrite <- (app_nil_r (m.*1)). apply sublist_app; [done|apply sublist_nil_l]. }
  apply Htop, Htop, picked_keys.
Qed.

(** X14. The failure envelope that [buildErrorResult] makes of an upstream
    response always has a code and a message that are not empty, whatever
    the body holds; it keeps the status and the endpoint; and the keys
    spread into the payment metadata beside them are among
    [amount_sats], [invoice], [payment_hash], [expires_in],
    [required_sats], [available_sats], [topup_url] and [macaroon], each at
    most once and in this order, so that none of them can replace the code
    or the message. A body that is not a record gives no metadata, even
    with a challenge in the headers. *)
Theorem failure_envelope_is_well_formed :
  forall (endpoint : string) (status : Z) (data : value)
         (headers : gmap string string) (model : option string),
    let failure := buildErrorResult endpoint status data headers model in
    truthy (code (error failure)) = true
    /\ truthy (message (error failure)) = true
    /\ errorStatus failure = status
    /\ errorEndpoint failure = endpoint
    /\ (metadata (error failure)).*1 `sublist_of` metadataKeys
    /\ NoDup (metadata (error failure)).*1
    /\ (isRecord data = false -> metadata (error failure) = []).
Proof.
  intros endpoint status data headers model failure.
  unfold failure, buildErrorResult. cbn.
  split; [apply mapErrorCode_truthy|].
  split; [by apply pickMessage_truthy|].
  split; [done|]. split; [done|].
  split; [apply extractPaymentMetadata_keys|]. split.
  - eapply sublist_NoDup; [|apply extractPaymentMetadata_keys].
    apply (bool_decide_unpack (NoDup _)). vm_compute. exact I.
  - intros Hrec. unfold extractPaymentMetadata. by rewrite Hrec.
Qed.

Lemma failure_envelope_is_well_formed_witness :
  metadata (error (buildErrorResult "/v1/responses" 402 (VStr "pay first")
                     {[ "www-authenticate" := "L402 token=abc" ]} None)) = [].
Proof.
  apply (failure_envelope_is_well_formed "/v1/responses" 402 (VStr "pay first")
           {[ "www-authenticate" := "L402 token=abc" ]} None).
  reflexivity.
Defined.

End ResultsMore.

(** ** tools/registry.ts: the registry over its lifetime *)

Module RegistryMore.
Import Js Catalog Dedup Registry RegistrySpec FakeServer.

Lemma afterLog_app (log extra : list ServerEvent) :
  afterLog (log ++ extra) = foldl serve (afterLog log) extra.
Proof. unfold afterLog. by rewrite foldl_app. Qed.

Lemma names_removed (handles : list RegisteredToolHandle) (s : FakeServer) :
  registeredNames
    (foldl serve s (map (fun handle => Removed (handleName handle)) handles))
  = registeredNames s ∖ list_to_set (map handleName handles).
Proof.
  revert s. induction handles as [|x l IH]; intros s; cbn [map foldl list_to_set].
  - by rewrite difference_empty_L.
  - rewrite IH. cbn [serve remove registeredNames].
    by rewrite difference_difference_l_L.
Qed.

Lemma names_registered (tools : list PlannedTool) (s : FakeServer) :
  registeredNames (foldl serve s (map Registered tools))
  = list_to_set (map name tools) ∪ registeredNames s.
Proof.
  revert s. induction tools as [|t tools IH]; intros s; cbn [map foldl list_to_set].
  - by rewrite (left_id_L ∅ (∪)).
  - rewrite IH. cbn [serve registerTool registeredNames].
    by rewrite (assoc_L (∪)), (comm_L (∪) (list_to_set (map name tools))).
Qed.

Lemma handlesOf_names (tools : list PlannedTool) :
  map handleName (handlesOf tools) = map name tools.
Proof. unfold handlesOf. by rewrite map_map. Qed.

(** What a client of the registry can do, with what the catalog provider
    and the server answer at that time. *)
Inductive registryCall : Type :=
| DoInitialize (fetched : option CatalogState)
| DoSync (options : SyncOptions) (fetched : option CatalogState) (connected : bool)
| DoDispose.

Section Lifetime.
Variable sha256Hex : string -> string.
Variable JSON_stringify : value -> string.
Variable localeCompare : string -> string -> Z.
Variable config : AlbomConfig.

Abbreviation sync := (syncTools sha256Hex JSON_stringify localeCompare config).
Abbreviation toolStateOf :=
  (buildToolState sha256Hex JSON_stringify localeCompare).

Definition registryStep (st : AlbomToolRegistry * list ServerEvent)
    (c : registryCall) : AlbomToolRegistry * list ServerEvent :=
  match c with
  | DoInitialize fetched =>
      let '(_, r, log) :=
        initialize sha256Hex JSON_stringify localeCompare config
          (fun _ => fetched) true st.1 st.2 in
      (r, log)
  | DoSync options fetched connected =>
      let '(_, r, log) := sync (fun _ => fetched) connected options st.1 st.2 in
      (r, log)
  | DoDispose => dispose st.1 st.2
  end.

Definition lifetime (calls : list registryCall)
  : AlbomToolRegistry * list ServerEvent :=
  foldl registryStep (newRegistry, []) calls.

(** The names that the registry holds handles for. *)
Definition heldNames (r : AlbomToolRegistry) : list string :=
  map handleName (registeredTools r).

(** The registry and the server of the tests agree. *)
Definition mirrored (st : AlbomToolRegistry * list ServerEvent) : Prop :=
  registeredNames (afterLog st.2) = list_to_set (heldNames st.1)
  /\ (registeredTools st.1 = []
      \/ exists ts, toolState st.1 = Some ts
                    /\ registeredTools st.1 = handlesOf (tools ts)).

Lemma sync_run (fetched : option CatalogState) (connected : bool)
    (options : SyncOptions) (r : AlbomToolRegistry) (log : list ServerEvent) :
  match fetched with
  | None => sync (fun _ => fetched) connected options r log = (None, r, log)
  | Some c =>
      let next := toolStateOf c config in
      if bool_decide (signature <$> toolState r = Some (signature next))
      then sync (fun _ => fetched) connected options r log
           = (Some false, mkRegistry (toolState r) (Some c) (registeredTools r), log)
      else exists tail,
             sync (fun _ => fetched) connected options r log
             = (Some true, mkRegistry (Some next) (Some c) (handlesOf (tools next)),
                ((log ++ removals r) ++ map Registered (tools next)) ++ tail)
             /\ (tail = [] \/ tail = [ToolListChanged])
  end.
Proof.
  destruct fetched as [c|]; [|done]. cbv zeta.
  unfold syncTools. cbn -[replaceRegisteredTools buildToolState].
  case_bool_decide as Hs; cbn -[replaceRegisteredTools buildToolState]; [done|].
  rewrite replaceRegisteredTools_spec. cbn -[buildToolState].
  unfold removals. cbn -[buildToolState].
  destruct (emitNotification options && bool_decide (is_Some (toolState r)) && connected).
  - exists [ToolListChanged]. split; [|by right]. by rewrite <- !app_assoc.
  - exists []. split; [|by left]. by rewrite app_nil_r, <- !app_assoc.
Qed.

Lemma sync_mirrored (fetched : option CatalogState) (connected : bool)
    (options : SyncOptions) (st : AlbomToolRegistry * list ServerEvent) :
  mirrored st ->
  mirrored (let '(_, r, log) := sync (fun _ => fetched) connected options st.1 st.2 in
            (r, log)).
Proof.
  destruct st as [r log]. intros [Hlive Htools]. cbn [fst snd] in *.
  pose proof (sync_run fetched connected options r log) as Hrun.
  destruct fetched as [c|]; [|by rewrite Hrun].
  cbv zeta in Hrun. case_bool_decide as Hs.
  - rewrite Hrun. done.
  - destruct Hrun as (tail & -> & Htail). split; cbn [fst snd registeredTools toolState].
    + assert (Hnames : registeredNames
                (afterLog ((log ++ removals r)
                           ++ map Registered (tools (toolStateOf c config))))
              = list_to_set (map name (tools (toolStateOf c config)))).
      { rewrite !afterLog_app. unfold removals.
        rewrite names_registered, names_removed, Hlive. unfold heldNames.
        by rewrite difference_diag_L, (right_id_L ∅ (∪)). }
      unfold heldNames. cbn [registeredTools]. rewrite handlesOf_names.
      destruct Htail as [-> | ->]; [by rewrite app_nil_r|].
      rewrite afterLog_app. cbn [foldl serve sendToolListChanged registeredNames].
      exact Hnames.
    + right. by eexists.
Qed.

Lemma registryStep_mirrored (st : AlbomToolRegistry * list ServerEvent)
    (c : registryCall) :
  mirrored st -> mirrored (registryStep st c).
Proof.
  intros Hst. destruct c as [fetched|options fetched connected|].
  - unfold registryStep, initialize.
    pose proof (sync_mirrored fetched true (mkSyncOptions true false) st Hst) as H'.
    destruct (sync _ _ _ _ _) as [[res r] log]. exact H'.
  - by apply sync_mirrored.
  - destruct st as [r log]. destruct Hst as [Hlive _]. cbn [fst snd] in *.
    unfold registryStep, dispose, mirrored. cbn [fst snd registeredTools].
    split; [|by left].
    rewrite afterLog_app, names_removed, Hlive. unfold heldNames.
    cbn [registeredTools map list_to_set]. apply difference_diag_L.
Qed.

Lemma lifetime_mirrored (calls : list registryCall) : mirrored (lifetime calls).
Proof.
  unfold lifetime.
  assert (H0 : mirrored (newRegistry, [])) by (split; [done|by left]).
  revert H0. generalize (newRegistry, @nil ServerEvent).
  induction calls as [|c calls IH]; intros st Hst; [done|].
  cbn [foldl]. by apply IH, registryStep_mirrored.
Qed.

End Lifetime.

(** X15. Over any sequence of [initialize], [syncTools] and [dispose]
    calls on a new registry that was given the server of the tests, with
    any answers of the catalog provider (failures included) and any
    connection state, the registry and the server agree after every call:
    the names in the server's set are the names of the handles that the
    registry holds, as many as there are handles when the tool names are
    distinct; the handles are either none, or those of the tools of the
    stored tool state; and after [dispose] the server's set is empty. *)
Theorem fake_server_holds_the_registry_names :
  forall sha256Hex JSON_stringify localeCompare (config : AlbomConfig)
         (calls : list registryCall),
    let run := lifetime sha256Hex JSON_stringify localeCompare config in
    let held := heldNames (run calls).1 in
    registeredNames (afterLog (run calls).2) = list_to_set held
    /\ (NoDup held -> size (registeredNames (afterLog (run calls).2)) = length held)
    /\ (registeredTools (run calls).1 = []
        \/ exists ts, toolState (run calls).1 = Some ts
                      /\ held = map name (tools ts))
    /\ registeredNames (afterLog (run (calls ++ [DoDispose])).2) = ∅.
Proof.
  intros sha256Hex JSON_stringify localeCompare config calls run held.
  destruct (lifetime_mirrored sha256Hex JSON_stringify localeCompare config calls)
    as [Hlive Htools].
  split; [exact Hlive|]. split; [|split].
  - intros Hnd. unfold run. rewrite Hlive. by apply size_list_to_set.
  - destruct Htools as [Hnone|(ts & Hts & Hreg)]; [by left|].
    right. exists ts. split; [done|]. unfold held, heldNames, run.
    by rewrite Hreg, handlesOf_names.
  - destruct (lifetime_mirrored sha256Hex JSON_stringify localeCompare config
                (calls ++ [DoDispose])) as [Hlive' _].
    unfold run. rewrite Hlive'. unfold lifetime. rewrite foldl_app. done.
Qed.

End RegistryMore.

(** ** catalog.ts: validation and normalization *)

Module NormalizerSpec.
Import Stdlib.Sorting.Sorted.
Import Js Utils Catalog Dedup Normalizer.

(** *** parseCatalog *)

(** An endpoint that carries the price its price type needs. *)
Definition priced (endpoint : CatalogEndpoint) : bool :=
  match price_type endpoint with
  | per_model =>
      match rawModels endpoint with
      | Some (_ :: _) => true
      | _ => false
      end
  | flat =>
      match price_sats endpoint with
      | Some _ => true
      | None => false
      end
  end.

(** The endpoints of a catalog, API after API. *)
Definition allEndpoints (catalog : CatalogResponse) : list CatalogEndpoint :=
  flat_map (fun entry => apiEndpoints entry.2) (apis catalog).

(** The message for an endpoint without its price. *)
Definition unpricedMessage (endpoint : CatalogEndpoint) : string :=
  "Catalog endpoint " +:+ rawPath endpoint
  +:+ (match price_type endpoint with
       | per_model => " is per_model but has no models"
       | flat => " is flat but has no price_sats"
       end).

Lemma checkEndpoint_priced (endpoint : CatalogEndpoint) :
  checkEndpoint endpoint
  = if priced endpoint then None else Some (unpricedMessage endpoint).
Proof.
  unfold checkEndpoint, priced, unpricedMessage.
  destruct (price_type endpoint); simpl.
  - destruct (rawModels endpoint) as [[|m ms]|]; done.
  - destruct (price_sats endpoint) as [x|]; done.
Qed.

Lemma checkApis_flat (entries : list (string * CatalogApi)) :
  checkApis entries
  = checkEndpoints (flat_map (fun entry => apiEndpoints entry.2) entries).
Proof.
  induction entries as [|[k api] entries IH]; [done|].
  cbn [checkApis flat_map snd]. rewrite IH.
  induction (apiEndpoints api) as [|e es IHe]; [done|].
  cbn [app checkEndpoints]. by destruct (checkEndpoint e).
Qed.

Lemma checkEndpoints_None (endpoints : list CatalogEndpoint) :
  checkEndpoints endpoints = None <-> Forall (fun e => priced e = true) endpoints.
Proof.
  induction endpoints as [|e es IH]; cbn [checkEndpoints].
  - split; [by constructor|done].
  - rewrite checkEndpoint_priced. destruct (priced e) eqn:E.
    + rewrite IH. split; [by constructor|]. by inversion 1.
    + split; [done|]. inversion 1. congruence.
Qed.

Lemma checkEndpoints_first (before after : list CatalogEndpoint) (e : CatalogEndpoint) :
  Forall (fun e => priced e = true) before -> priced e = false ->
  checkEndpoints (before ++ e :: after) = Some (unpricedMessage e).
Proof.
  intros Hb He. induction Hb as [|x l Hx _ IH]; cbn [app checkEndpoints].
  - by rewrite checkEndpoint_priced, He.
  - by rewrite checkEndpoint_priced, Hx.
Qed.

(** X16. [parseCatalog] accepts a catalog that matches the schema exactly
    when every endpoint carries the price its price type needs: at least
    one model entry for [per_model], a [price_sats] for [flat]. An accepted
    catalog is returned as the schema parser gave it. A catalog with an
    endpoint without its price is rejected, and the message names the
    first such endpoint in the order of the catalog. *)
Theorem parseCatalog_validates_prices :
  forall (catalogSchema_parse : value -> string + CatalogResponse) (input : value)
         (parsed : CatalogResponse),
    catalogSchema_parse input = inr parsed ->
    (Forall (fun e => priced e = true) (allEndpoints parsed) ->
     parseCatalog catalogSchema_parse input = inr parsed)
    /\ (forall accepted,
          parseCatalog catalogSchema_parse input = inr accepted ->
          accepted = parsed /\ Forall (fun e => priced e = true) (allEndpoints parsed))
    /\ (forall before e after,
          allEndpoints parsed = before ++ e :: after ->
          Forall (fun e => priced e = true) before -> priced e = false ->
          parseCatalog catalogSchema_parse input = inl (unpricedMessage e)).
Proof.
  intros parse input parsed Hparse. unfold parseCatalog. rewrite Hparse.
  rewrite checkApis_flat. fold (allEndpoints parsed).
  split; [|split].
  - intros Hall. apply checkEndpoints_None in Hall. by rewrite Hall.
  - intros accepted.
    destruct (checkEndpoints (allEndpoints parsed)) eqn:E; [discriminate|].
    intros [= <-]. split; [done|]. by apply checkEndpoints_None.
  - intros before e after -> Hb He. by rewrite (checkEndpoints_first _ _ _ Hb He).
Qed.

(** A catalog with one flat endpoint that has no price. *)
Definition unpricedCatalog : CatalogResponse :=
  mkCatalogResponse None None
    [("openai", mkApi "OpenAI"
        [mkCatalogEndpoint "/v1/audio/speech" "POST" flat None None None None None])].

Lemma parseCatalog_validates_prices_witness :
  parseCatalog (fun _ => inr unpricedCatalog) VNull
  = inl "Catalog endpoint /v1/audio/speech is flat but has no price_sats".
Proof.
  apply (proj2 (proj2 (parseCatalog_validates_prices (fun _ => inr unpricedCatalog)
                         VNull unpricedCatalog eq_refl))
           [] (mkCatalogEndpoint "/v1/audio/speech" "POST" flat None None None None None)
           []); [reflexivity|constructor|reflexivity].
Defined.

(** *** normalizeCatalog *)

Section Normalized.
Variable sha256Hex : string -> string.
Variable JSON_stringify : value -> string.
Variable localeCompare : string -> string -> Z.

Abbreviation describe := (describeEndpoint sha256Hex JSON_stringify localeCompare).
Abbreviation normalize := (normalizeCatalog sha256Hex JSON_stringify localeCompare).

Lemma insert_record_perm (e : EndpointRecord) (l : list EndpointRecord) :
  insert_record localeCompare e l ≡ₚ e :: l.
Proof.
  induction l as [|x l IH]; [done|]. cbn [insert_record].
  destruct (0 <? compareRecords localeCompare e x); [|done].
  rewrite IH. apply Permutation_swap.
Qed.

Lemma sort_records_perm (l : list EndpointRecord) :
  sort_records localeCompare l ≡ₚ l.
Proof.
  induction l as [|x l IH]; [done|]. unfold sort_records. cbn [foldr].
  fold (sort_records localeCompare l). by rewrite insert_record_perm, IH.
Qed.

(** The descriptors before the sort. *)
Definition described (catalog : CatalogResponse) : list EndpointRecord :=
  flat_map (fun entry => map (describe entry.1 entry.2) (apiEndpoints entry.2))
    (apis catalog).

Lemma records_perm (catalog : CatalogResponse) (fetchedAt : string) :
  records (normalize catalog fetchedAt) ≡ₚ described catalog.
Proof. unfold normalizeCatalog. cbn [records]. apply sort_records_perm. Qed.

Lemma described_raw (catalog : CatalogResponse) :
  map raw (described catalog) = allEndpoints catalog.
Proof.
  unfold described, allEndpoints.
  induction (apis catalog) as [|[k api] entries IH]; [done|].
  cbn [flat_map fst snd]. rewrite map_app, IH. f_equal.
  rewrite map_map. apply map_id.
Qed.

Lemma described_inv (catalog : CatalogResponse) (r : EndpointRecord) :
  r ∈ described catalog ->
  exists apiKey api, (apiKey, api) ∈ apis catalog /\ raw r ∈ apiEndpoints api
                     /\ r = describe apiKey api (raw r).
Proof.
  unfold described. intros Hin.
  apply list_elem_of_In, in_flat_map in Hin as ([k api] & Hentry & Hin).
  apply in_map_iff in Hin as (e & <- & He). cbn [fst snd] in *.
  exists k, api. repeat split; by apply list_elem_of_In.
Qed.

Lemma filter_partition_length (l : list EndpointRecord) :
  length l
  = (length (filter (fun e => priceType e = per_model) l)
     + length (filter (fun e => priceType e = flat) l))%nat.
Proof.
  induction l as [|x l IH]; [done|]. rewrite !filter_cons.
  destruct (priceType x) eqn:E.
  - rewrite decide_True, decide_False by done. cbn [length]. lia.
  - rewrite decide_False, decide_True by done. cbn [length]. lia.
Qed.

(** X17. [normalizeCatalog] describes every endpoint of the catalog once:
    the raw endpoints of its records are those of the catalog up to the
    order, the endpoint count of the summary is their number and the sum
    of the per-model count and the flat count. On a catalog that
    [parseCatalog] accepts, every record can be priced: a flat record has
    its [flatPriceSats], a per-model record has at least one model
    price. *)
Theorem normalizeCatalog_keeps_every_endpoint :
  forall (catalog : CatalogResponse) (fetchedAt : string),
    let normalized := normalize catalog fetchedAt in
    map raw (records normalized) ≡ₚ allEndpoints catalog
    /\ endpointCount (summary normalized) = length (allEndpoints catalog)
    /\ endpointCount (summary normalized)
       = (perModelCount (summary normalized) + flatCount (summary normalized))%nat
    /\ rawCatalog normalized = catalog
    /\ (Forall (fun e => priced e = true) (allEndpoints catalog) ->
        Forall (fun r => match priceType r with
                         | flat => is_Some (flatPriceSats r)
                         | per_model => modelPrices r <> []
                         end) (records normalized)).
Proof.
  intros catalog fetchedAt normalized.
  pose proof (records_perm catalog fetchedAt) as Hperm. fold normalized in Hperm.
  assert (Hraw : map raw (records normalized) ≡ₚ allEndpoints catalog).
  { rewrite <- described_raw. by apply Permutation_map. }
  split; [exact Hraw|]. split; [|split; [|split; [done|]]].
  - change (endpointCount (summary normalized)) with (length (records normalized)).
    by rewrite <- (Permutation_length Hraw), length_map.
  - unfold normalized, normalizeCatalog. cbn [summary endpointCount perModelCount flatCount].
    apply filter_partition_length.
  - intros Hpriced. rewrite Hperm. apply Forall_forall. intros r Hr.
    destruct (described_inv catalog r Hr) as (k & api & Hentry & He & Hdesc).
    assert (Hp : priced (raw r) = true).
    { eapply (proj1 (Forall_forall _ _) Hpriced).
      rewrite <- described_raw. apply list_elem_of_fmap. by exists r. }
    rewrite Hdesc. unfold describeEndpoint. cbn [priceType flatPriceSats modelPrices].
    unfold priced in Hp. destruct (price_type (raw r)).
    + destruct (rawModels (raw r)) as [[|m ms]|]; done.
    + destruct (price_sats (raw r)); [by eexists|done].
Qed.

(** *** Families and methods *)

Lemma startsWith_prefix (s p q : string) :
  startsWith s (p +:+ q) = true -> startsWith s p = true.
Proof.
  revert s. induction p as [|c p IH]; intros s; [by destruct s|].
  destruct s as [|d s]; cbn; [done|].
  intros [Hc Hs]%andb_prop. rewrite Hc. cbn. by apply IH.
Qed.

Lemma isTextPath_family (p : string) :
  isTextPath p = true -> classifyFamily p = "text-generation".
Proof.
  unfold isTextPath, classifyFamily. intros [Hp|Hp]%orb_prop.
  - apply bool_decide_eq_true_1 in Hp. by subst p.
  - by rewrite (startsWith_prefix p "/v1/chat" "/" Hp).
Qed.

Lemma upper_char_fixed (c : ascii) : toUpperCase (upper_char c) = upper_char c.
Proof. destruct c as [[] [] [] [] [] [] [] []]; vm_compute; reflexivity. Qed.

Lemma append_cons (c : ascii) (s t : string) :
  String c s +:+ t = String c (s +:+ t).
Proof. reflexivity. Qed.

Lemma append_assoc (u s t : string) : u +:+ (s +:+ t) = (u +:+ s) +:+ t.
Proof.
  induction u as [|d u IHu]; [done|]. rewrite !append_cons. by rewrite IHu.
Qed.

Lemma toUpperCase_app (a b : string) :
  toUpperCase (a +:+ b) = toUpperCase a +:+ toUpperCase b.
Proof.
  induction a as [|c a IH]; [done|]. rewrite append_cons.
  cbn [toUpperCase]. by rewrite IH, append_assoc.
Qed.

Lemma toUpperCase_idem (s : string) : toUpperCase (toUpperCase s) = toUpperCase s.
Proof.
  induction s as [|c s IH]; [done|]. cbn [toUpperCase].
  by rewrite toUpperCase_app, upper_char_fixed, IH.
Qed.

Lemma records_described (catalog : CatalogResponse) (fetchedAt : string)
    (P : EndpointRecord -> Prop) :
  (forall apiKey api e, P (describe apiKey api e)) ->
  Forall P (records (normalize catalog fetchedAt)).
Proof.
  intros HP. rewrite records_perm. apply Forall_forall. intros r Hr.
  destruct (described_inv catalog r Hr) as (k & api & _ & _ & ->). apply HP.
Qed.

(** X18. In a normalized catalog the family of an endpoint is computed
    from its path by [classifyFamily], which puts every path that
    [isTextPath] accepts into the family text-generation. Two endpoints of
    a normalized catalog are therefore duplicate candidates exactly when
    they agree on method, content type and family and their model sets
    reach the threshold: the text-path clause of [isDuplicateCandidate]
    adds nothing. *)
Theorem duplicate_candidates_by_family :
  (forall p, isTextPath p = true -> classifyFamily p = "text-generation")
  /\ forall (catalog : CatalogResponse) (fetchedAt : string),
       let endpoints := endpoints (catalogState (normalize catalog fetchedAt)) in
       Forall (fun a =>
                 Forall (fun b =>
                           isDuplicateCandidate a b
                           = bool_decide (method a = method b)
                             && bool_decide (contentType a = contentType b)
                             && bool_decide (family a = family b)
                             && PrimFloat.leb threshold
                                  (modelSetJaccard (models a) (models b)))
                   endpoints)
         endpoints.
Proof.
  split; [exact isTextPath_family|]. intros catalog fetchedAt endpoints.
  assert (Hfam : Forall (fun d => family d = classifyFamily (path d)) endpoints).
  { unfold endpoints, catalogState. cbn [Catalog.endpoints].
    apply Forall_fmap. by apply records_described. }
  rewrite Forall_forall in Hfam.
  apply Forall_forall. intros a Ha. apply Forall_forall. intros b Hb.
  unfold isDuplicateCandidate. cbv zeta. f_equal. f_equal.
  destruct (isTextPath (path a) && isTextPath (path b)) eqn:E; [|by rewrite orb_false_r].
  apply andb_prop in E as [Ea Eb].
  rewrite bool_decide_eq_true_2; [done|].
  by rewrite (Hfam a Ha), (Hfam b Hb), !isTextPath_family.
Qed.

(** X19. A record of a normalized catalog keeps the path of its raw
    endpoint and holds its method in upper case; so an endpoint that the
    catalog lists with the method post, in any capitalisation, is found by
    [endpointByPath] under its path, and the tool synthesis can route to
    it. *)
Theorem posted_endpoints_are_found :
  forall (catalog : CatalogResponse) (fetchedAt : string),
    let normalized := normalize catalog fetchedAt in
    Forall (fun r =>
              path (descriptor r) = rawPath (raw r)
              /\ method (descriptor r) = toUpperCase (rawMethod (raw r))
              /\ toUpperCase (method (descriptor r)) = method (descriptor r)
              /\ (toLowerCase (rawMethod (raw r)) = "post" ->
                  is_Some (endpointByPath (catalogState normalized) (rawPath (raw r)))))
      (records normalized).
Proof.
  intros catalog fetchedAt normalized.
  assert (Hshape : Forall (fun r =>
                     path (descriptor r) = rawPath (raw r)
                     /\ method (descriptor r) = toUpperCase (rawMethod (raw r)))
                     (records normalized)).
  { by apply records_described. }
  rewrite Forall_forall in Hshape. apply Forall_forall. intros r Hr.
  destruct (Hshape r Hr) as [Hpath Hmethod].
  split; [done|]. split; [done|]. split; [by rewrite Hmethod, toUpperCase_idem|].
  intros Hpost. rewrite <- Hpath.
  apply DedupMore.endpointByPath_found.
  - unfold catalogState. cbn [Catalog.endpoints]. by apply list_elem_of_fmap_2.
  - rewrite Hmethod. clear -Hpost.
    destruct (rawMethod (raw r)) as [|c1 [|c2 [|c3 [|c4 [|c5 m]]]]]; try discriminate.
    cbn in Hpost. injection Hpost as H1 H2 H3 H4.
    assert (Hone : forall c l, lower_char c = l ->
              l = "p"%char \/ l = "o"%char \/ l = "s"%char \/ l = "t"%char ->
              upper_char c = String (ascii_of_N (code l - 32)) EmptyString).
    { intros c l <- Hl.
      destruct c as [[] [] [] [] [] [] [] []]; vm_compute in Hl;
        vm_compute; try reflexivity;
        exfalso; repeat (destruct Hl as [Hl|Hl]; try discriminate). }
    cbn [toUpperCase].
    rewrite (Hone c1 _ H1), (Hone c2 _ H2), (Hone c3 _ H3), (Hone c4 _ H4) by tauto.
    reflexivity.
Qed.

End Normalized.

Lemma posted_endpoints_are_found_witness :
  let normalized :=
    normalizeCatalog (fun s => s) (fun _ => EmptyString) (fun _ _ => 0)
      (mkCatalogResponse None None
         [("openai", mkApi "OpenAI"
             [mkCatalogEndpoint "/v1/responses" "Post" flat None None None
                (Some 10%float) None])])
      "2026-01-01T00:00:00.000Z" in
  is_Some (endpointByPath (catalogState normalized) "/v1/responses").
Proof.
  intros normalized.
  pose proof (posted_endpoints_are_found (fun s => s) (fun _ => EmptyString)
                (fun _ _ => 0)
                (mkCatalogResponse None None
                   [("openai", mkApi "OpenAI"
                       [mkCatalogEndpoint "/v1/responses" "Post" flat None None None
                          (Some 10%float) None])])
                "2026-01-01T00:00:00.000Z") as H.
  cbv zeta in H. apply Forall_inv in H. by apply H.
Defined.

(** *** Model names and argument keys *)

(** The order of the default sort. *)
Definition code_le (a b : string) : Prop := code_lt b a = false.

Lemma code_lt_asym (a b : string) : code_lt a b = true -> code_lt b a = false.
Proof.
  revert b. induction a as [|x a IH]; intros [|y b]; cbn; try done.
  destruct (N.ltb_spec (code x) (code y)), (N.ltb_spec (code y) (code x)),
    (N.eqb_spec (code x) (code y)), (N.eqb_spec (code y) (code x));
    cbn; try done; try lia.
  apply IH.
Qed.

Lemma code_le_trans (a b c : string) : code_le a b -> code_le b c -> code_le a c.
Proof.
  unfold code_le. revert b c. induction a as [|x a IH]; intros [|y b] [|z c];
    cbn; try done.
  destruct (N.ltb_spec (code y) (code x)), (N.eqb_spec (code y) (code x)),
    (N.ltb_spec (code z) (code y)), (N.eqb_spec (code z) (code y)),
    (N.ltb_spec (code z) (code x)), (N.eqb_spec (code z) (code x));
    cbn; try done; try lia.
  apply IH.
Qed.

Lemma insert_string_perm (s : string) (l : list string) :
  insert_string s l ≡ₚ s :: l.
Proof.
  induction l as [|x l IH]; [done|]. cbn [insert_string].
  destruct (code_lt x s); [|done]. rewrite IH. apply Permutation_swap.
Qed.

Lemma sort_strings_perm (l : list string) : sort_strings l ≡ₚ l.
Proof.
  induction l as [|x l IH]; [done|]. unfold sort_strings. cbn [foldr].
  fold (sort_strings l). by rewrite insert_string_perm, IH.
Qed.

Lemma insert_string_sorted (s : string) (l : list string) :
  StronglySorted code_le l -> StronglySorted code_le (insert_string s l).
Proof.
  induction 1 as [|x l Hl IH Hx]; cbn [insert_string].
  - repeat constructor.
  - destruct (code_lt x s) eqn:E.
    + constructor; [done|]. rewrite insert_string_perm.
      constructor; [|done]. by apply code_lt_asym.
    + constructor; [by constructor|]. constructor; [done|].
      eapply Forall_impl; [exact Hx|]. intros y Hy. by eapply code_le_trans.
Qed.

Lemma sort_strings_sorted (l : list string) : StronglySorted code_le (sort_strings l).
Proof.
  induction l as [|x l IH]; [constructor|]. by apply insert_string_sorted.
Qed.

(** X20. The models of an endpoint record are the keys of the endpoint's
    model prices without [_default], sorted by code units; its default
    model is the first of them, which no other model name precedes in
    that order. The argument keys of a record hold none of the cosmetic
    keys of the catalog's examples. *)
Theorem record_models_are_sorted :
  forall (endpoint : CatalogEndpoint),
    (forall m, m ∈ modelKeys endpoint
               <-> m ∈ map fst (default [] (rawModels endpoint)) /\ m <> "_default")
    /\ StronglySorted (fun a b => code_lt b a = false) (modelKeys endpoint)
    /\ (forall sha256Hex JSON_stringify localeCompare apiKey api,
          let r := describeEndpoint sha256Hex JSON_stringify localeCompare
                     apiKey api endpoint in
          models (descriptor r) = modelKeys endpoint
          /\ defaultModel r = head (modelKeys endpoint)
          /\ Forall (fun m => forall d, defaultModel r = Some d -> code_lt m d = false)
               (modelKeys endpoint))
    /\ (forall contentType,
          Forall (fun key => key ∉ COSMETIC_ARG_KEYS)
            (extractArgumentKeys endpoint contentType)).
Proof.
  intros endpoint. split; [|split; [|split]].
  - intros m. unfold modelKeys. rewrite sort_strings_perm, list_elem_of_filter. tauto.
  - apply sort_strings_sorted.
  - intros sha256Hex JSON_stringify localeCompare apiKey api r.
    split; [done|]. split; [done|].
    unfold r, describeEndpoint. cbn [defaultModel].
    pose proof (sort_strings_sorted
                  (filter (fun model => model ≠ "_default")
                     (map fst (default [] (rawModels endpoint))))) as Hs.
    fold (modelKeys endpoint) in Hs.
    destruct (modelKeys endpoint) as [|d ms]; [constructor|].
    apply StronglySorted_inv in Hs as [_ Hd]. cbn [head].
    constructor.
    + intros d' [= <-]. clear. induction d as [|x d IH]; [done|]. cbn.
      rewrite N.ltb_irrefl, N.eqb_refl. exact IH.
    + eapply Forall_impl; [exact Hd|]. intros m Hm d' [= <-]. exact Hm.
  - intros contentType. unfold extractArgumentKeys. cbv zeta.
    match goal with |- context [match ?src with Some _ => _ | None => _ end] =>
      destruct src as [entries|] end; [|constructor].
    rewrite sort_strings_perm. apply Forall_forall.
    intros key Hkey. by apply list_elem_of_filter in Hkey as [Hkey _].
Qed.

End NormalizerSpec.

(** ** httpClient.ts and l402.ts: the header record of a response *)

Module HeadersSpec.
Import Js L402 Types HttpClient JsFacts L402Spec HeaderMore NormalizerSpec.
















End HeadersSpec.

(** ** catalog.ts: the catalog manager *)

Module ManagerSpec.
Import Js HttpClient Normalizer NormalizerSpec Manager.

Section Managed.
Variable JSON_parse : string -> option value.
Variable catalogSchema_parse : value -> string + CatalogResponse.
Variable sha256Hex : string -> string.
Variable JSON_stringify : value -> string.
Variable localeCompare : string -> string -> Z.
Variable options : ManagerOptions.

Abbreviation get :=
  (getState JSON_parse catalogSchema_parse sha256Hex JSON_stringify localeCompare
     options).

(** A state that is the normalization of a catalog which passed
    [parseCatalog]. *)
Definition validated (n : NormalizedCatalog) : Prop :=
  Forall (fun e => priced e = true) (allEndpoints (rawCatalog n))
  /\ n = normalizeCatalog sha256Hex JSON_stringify localeCompare
           (rawCatalog n) (fetchedAt n).

Lemma parseCatalog_priced (input : value) (catalog : CatalogResponse) :
  parseCatalog catalogSchema_parse input = inr catalog ->
  Forall (fun e => priced e = true) (allEndpoints catalog).
Proof.
  unfold parseCatalog. destruct (catalogSchema_parse input) as [m|parsed]; [done|].
  rewrite checkApis_flat. fold (allEndpoints parsed).
  destruct (checkEndpoints (allEndpoints parsed)) eqn:E; [done|].
  intros [= <-]. by apply checkEndpoints_None.
Qed.

Lemma fetchCatalog_priced fetchFn (baseUrl : string) (catalog : CatalogResponse) :
  fetchCatalog JSON_parse catalogSchema_parse fetchFn baseUrl = inr catalog ->
  Forall (fun e => priced e = true) (allEndpoints catalog).
Proof.
  unfold fetchCatalog. destruct fetchFn as [fetch|]; [|done].
  destruct (fetch _) as [response|e]; [|done].
  destruct (text response) as [bodyText|e]; [|done].
  destruct (negb _); [done|].
  destruct (if truthy bodyText then JSON_parse bodyText else Some (VObj []))
    as [parsedBody|]; [|done].
  destruct (parseCatalog catalogSchema_parse parsedBody) as [m|c] eqn:E; [done|].
  intros [= <-]. by eapply parseCatalog_priced.
Qed.

(** The calls of a client, with what each finds outside. *)
Inductive managerCall : Type :=
| CallGetState (refresh : bool) (outside : Outside)
| CallInitialize (outside : Outside)
| CallRefresh (outside : Outside).

Definition managerStep (m : CatalogManager) (c : managerCall) : CatalogManager :=
  match c with
  | CallGetState refresh outside => (get refresh outside m).1.2
  | CallInitialize outside =>
      (initialize JSON_parse catalogSchema_parse sha256Hex JSON_stringify
         localeCompare options outside m).1.2
  | CallRefresh outside =>
      (refresh JSON_parse catalogSchema_parse sha256Hex JSON_stringify
         localeCompare options outside m).1.2
  end.

Definition served (m : CatalogManager) : Prop :=
  forall n, snapshot m = Some n -> validated n.

Lemma getState_run (refresh : bool) (outside : Outside) (m : CatalogManager) :
  served m ->
  match get refresh outside m with
  | (inr n, m', requests) =>
      snapshot m' = Some n /\ validated n /\ served m'
      /\ (requests = 0%nat ->
          m' = m /\ refresh = false
          /\ nowStart outside - lastFetchMs m <= ttlMs options)
  | (inl failure, m', requests) => m' = m
  end.
Proof.
  intros Hm. unfold getState. cbv zeta.
  destruct (refresh || negb (bool_decide (is_Some (state m)))
            || (ttlMs options <? nowStart outside - lastFetchMs m)) eqn:E.
  - unfold fetchAndNormalize. cbv zeta.
    destruct (fetchCatalog _ _ (fetchFn outside) _) as [failure|rawCatalog] eqn:F; [done|].
    assert (Hv : validated (normalizeCatalog sha256Hex JSON_stringify localeCompare
                              rawCatalog (isoNow outside))).
    { split; [|done]. by eapply fetchCatalog_priced. }
    split; [done|]. split; [done|]. split.
    + intros n [= <-]. exact Hv.
    + destruct (fetchFn outside); [done|]. discriminate.
  - apply orb_false_elim in E as [[Hr Hs]%orb_false_elim Ht].
    destruct (state m) as [n|] eqn:S.
    + split; [done|]. split; [by apply Hm|]. split; [done|].
      intros _. split; [done|]. split; [done|]. by apply Z.ltb_ge in Ht.
    + exfalso. rewrite bool_decide_eq_false_2 in Hs; [done|]. by intros [? ?].
Qed.

Lemma managerStep_served (m : CatalogManager) (c : managerCall) :
  served m -> served (managerStep m c).
Proof.
  intros Hm. destruct c as [r outside|outside|outside]; cbn [managerStep].
  - pose proof (getState_run r outside m Hm) as H.
    destruct (get r outside m) as [[[failure|n] m'] requests]; cbn [fst snd].
    + by subst m'.
    + tauto.
  - unfold initialize. pose proof (getState_run true outside m Hm) as H.
    destruct (get true outside m) as [[[failure|n] m'] requests]; cbn [fst snd].
    + by subst m'.
    + tauto.
  - unfold refresh. cbv zeta. pose proof (getState_run true outside m Hm) as H.
    destruct (get true outside m) as [[[failure|n] m'] requests]; cbn [fst snd].
    + by subst m'.
    + tauto.
Qed.

Lemma lifetime_served (calls : list managerCall) :
  served (foldl managerStep newManager calls).
Proof.
  assert (H0 : served newManager) by (intros n; done).
  revert H0. generalize newManager.
  induction calls as [|c calls IH]; intros m Hm; [done|].
  cbn [foldl]. by apply IH, managerStep_served.
Qed.

End Managed.

(** X21. Over any sequence of [getState], [initialize] and [refresh]
    calls on a new catalog manager, each awaited before the next, and
    whatever the catalog server answers: the snapshot is either undefined
    or the normalization of a catalog that passed [parseCatalog], so every
    endpoint of it carries its price. A [getState] that resolves returns
    the snapshot it leaves behind; one that rejects leaves the manager as
    it was, the last good catalog included; and a [getState] that makes
    no request is one without [refresh] that found a state no older than
    the TTL. *)
Theorem catalog_manager_serves_validated_catalogs :
  forall JSON_parse catalogSchema_parse sha256Hex JSON_stringify localeCompare
         (options : ManagerOptions) (calls : list managerCall),
    let m :=
      foldl (managerStep JSON_parse catalogSchema_parse sha256Hex JSON_stringify
               localeCompare options)
        newManager calls in
    (forall n, snapshot m = Some n ->
       Forall (fun e => priced e = true) (allEndpoints (rawCatalog n))
       /\ n = normalizeCatalog sha256Hex JSON_stringify localeCompare
                (rawCatalog n) (fetchedAt n))
    /\ forall (refresh : bool) (outside : Outside),
         match getState JSON_parse catalogSchema_parse sha256Hex JSON_stringify
                 localeCompare options refresh outside m with
         | (inr n, m', requests) =>
             snapshot m' = Some n
             /\ Forall (fun e => priced e = true) (allEndpoints (rawCatalog n))
             /\ (requests = 0%nat ->
                 m' = m /\ refresh = false
                 /\ nowStart outside - lastFetchMs m <= ttlMs options)
         | (inl failure, m', requests) => m' = m
         end.
Proof.
  intros JSON_parse catalogSchema_parse sha256Hex JSON_stringify localeCompare
    options calls m.
  pose proof (lifetime_served JSON_parse catalogSchema_parse sha256Hex JSON_stringify
                localeCompare options calls) as Hm.
  fold m in Hm. split; [exact Hm|].
  intros refresh outside.
  pose proof (getState_run JSON_parse catalogSchema_parse sha256Hex JSON_stringify
                localeCompare options refresh outside m Hm) as H.
  destruct (getState _ _ _ _ _ _ _ _ _) as [[[failure|n] m'] requests]; [done|].
  destruct H as (H1 & [H2 _] & _ & H4). done.
Qed.

End ManagerSpec.

(** ** tools/registration.ts: the L402 pass-through of a tool call *)

Module RegistrationSpec.
Import Js L402 Types Results Catalog HttpClient Registration CacheSpec.

Section Passthrough.
Context {E : Type}.
Variable paymentHashFromPreimage : string -> string.
Variable String_of_number : float -> string.

Abbreviation call := (callback (E := E) paymentHashFromPreimage String_of_number).
Abbreviation answer := (respond String_of_number).

(** The outcome of the executor, as the callback hands it on. *)
Definition handedOn (outcome : E + AlbomToolResult) : E + ToolResponse :=
  match outcome with
  | inl rejection => inl rejection
  | inr result => inr (answer result)
  end.

Lemma run_outcome execute (tool : PlannedTool) (clock : Clock) (typedArgs : value)
    (l402Auth : option L402AuthCredentials) (l402Context : option L402TokenCache) :
  (run String_of_number execute tool clock typedArgs l402Auth l402Context).1
  = handedOn (execute tool typedArgs l402Auth).
Proof. unfold run. by destruct (execute tool typedArgs l402Auth). Qed.

Lemma get_stored (c : L402TokenCache) (n1 n2 now : Z) (challenge : L402Challenge) :
  now <= n2 + defaultTtlMs c ->
  exists entry,
    get now (paymentHash challenge) (set n1 n2 challenge None c)
    = (Some entry, set n1 n2 challenge None c)
    /\ entryMacaroon entry = macaroon challenge.
Proof.
  intros Hnow. eexists. unfold get.
  assert (Hget : map_get (paymentHash challenge) (entries (set n1 n2 challenge None c))
                 = Some (mkEntry (macaroon challenge) (invoice challenge)
                           (paymentHash challenge) (amountSats challenge)
                           (n2 + default (defaultTtlMs c) None))).
  { unfold set. cbv zeta. cbn [entries with_entries]. apply map_get_set. }
  rewrite Hget. cbn [expiresAt default].
  rewrite (proj2 (Z.ltb_ge _ _) Hnow). done.
Qed.

(** X22. The quote-then-pay round trip of the pass-through mode. A call
    of a paid tool without a preimage reaches the executor with
    [allow_l402_quote] forced to true and without credentials; when the
    executor answers with a 402 failure that carries a macaroon, a payment
    hash and an invoice, the answer is handed on and the macaroon is
    cached. A later call that carries a preimage whose hash is that
    payment hash, made before the default TTL has elapsed, reaches the
    executor with the cached macaroon and the preimage as credentials and
    with the preimage removed from its arguments. *)
Theorem quote_then_pay_round_trip :
  forall (first second :
            PlannedTool -> value -> option L402AuthCredentials -> E + AlbomToolResult)
         (tool : PlannedTool) (tokenCache : L402TokenCache) (clock1 clock2 : Clock)
         (args1 args2 : list (string * value)) (failure : AlbomError)
         (macaroon paymentHash invoice preimage : string),
    kind tool <> catalog_get ->
    (forall s, assoc "payment_preimage" args1 <> Some (VStr s)) ->
    first tool (VObj (map_set "allow_l402_quote" (VBool true) args1)) None
    = inr (NotOk failure) ->
    Types.errorStatus failure = 402 ->
    extractMacaroon (error failure) = Some macaroon ->
    extractString (error failure) "payment_hash" = Some paymentHash ->
    extractString (error failure) "invoice" = Some invoice ->
    assoc "payment_preimage" args2 = Some (VStr preimage) ->
    paymentHashFromPreimage preimage = paymentHash ->
    nowGet clock2 <= nowInsert clock1 + defaultTtlMs tokenCache ->
    exists cached,
      call first tool l402_passthrough (Some tokenCache) clock1 (VObj args1)
      = Some (inr (answer (NotOk failure)), Some cached)
      /\ fst <$> call second tool l402_passthrough (Some cached) clock2 (VObj args2)
         = Some (handedOn (second tool (VObj (without "payment_preimage" args2))
                             (Some (mkAuth macaroon preimage)))).
Proof.
  intros first second tool tokenCache clock1 clock2 args1 args2 failure
    macaroon paymentHash invoice preimage
    Hpaid Hnone Hfirst Hstatus Hmac Hhash Hinv Hpre Hph Hnow.
  set (challenge := mkChallenge macaroon invoice paymentHash
                      (default 0%float (extractNumber (error failure) "amount_sats"))).
  exists (set (nowPurge clock1) (nowInsert clock1) challenge None tokenCache).
  split.
  - unfold callback. cbn [asRecord isRecord].
    rewrite bool_decide_eq_true_2, bool_decide_eq_false_2 by done. cbn [andb negb].
    assert (Hrun : run String_of_number first tool clock1
                     (VObj (map_set "allow_l402_quote" (VBool true) args1)) None
                     (Some tokenCache)
                   = (inr (answer (NotOk failure)),
                      Some (set (nowPurge clock1) (nowInsert clock1) challenge None
                              tokenCache))).
    { unfold run. rewrite Hfirst. unfold cacheChallenge.
      rewrite Hstatus, Hmac, Hhash, Hinv. done. }
    destruct (assoc "payment_preimage" args1) as [[| | | |s| |]|]; try by rewrite Hrun.
    by destruct (Hnone s).
  - unfold callback. cbn [asRecord isRecord].
    rewrite bool_decide_eq_true_2, bool_decide_eq_false_2 by done. cbn [andb negb].
    rewrite Hpre, Hph.
    destruct (get_stored tokenCache (nowPurge clock1) (nowInsert clock1)
                (nowGet clock2) challenge Hnow) as (entry & Hget & Hentry).
    change (L402.paymentHash challenge) with paymentHash in Hget.
    rewrite Hget. cbn [fmap option_fmap option_map]. f_equal.
    rewrite run_outcome, Hentry. done.
Qed.

(** X23. In the pass-through mode a call of a paid tool that carries a
    preimage (any string, the empty one included) for which the cache holds
    no live token, or for which there is no cache at all, is answered with
    [unknown_payment] (status 400, flagged as an error) and never reaches
    the executor. In the other payment modes, and for the catalog tool in
    every mode, the arguments reach the executor as they are, a preimage
    among them included, and without credentials. *)
Theorem unknown_preimage_stops_the_call :
  forall (execute :
            PlannedTool -> value -> option L402AuthCredentials -> E + AlbomToolResult)
         (tool : PlannedTool) (paymentMode : PaymentMode)
         (l402Context : option L402TokenCache) (clock : Clock)
         (fields : list (string * value)),
    (forall preimage,
       paymentMode = l402_passthrough -> kind tool <> catalog_get ->
       assoc "payment_preimage" fields = Some (VStr preimage) ->
       match l402Context with
       | None =>
           call execute tool paymentMode l402Context clock (VObj fields)
           = Some (inr unknownPayment, None)
       | Some tokenCache =>
           let looked := get (nowGet clock) (paymentHashFromPreimage preimage) tokenCache in
           looked.1 = None ->
           call execute tool paymentMode l402Context clock (VObj fields)
           = Some (inr unknownPayment, Some looked.2)
       end)
    /\ (paymentMode <> l402_passthrough \/ kind tool = catalog_get ->
        call execute tool paymentMode l402Context clock (VObj fields)
        = Some (run String_of_number execute tool clock (VObj fields) None l402Context)).
Proof.
  intros execute tool paymentMode l402Context clock fields. split.
  - intros preimage -> Hpaid Hpre. unfold callback. cbn [asRecord isRecord].
    rewrite bool_decide_eq_true_2, bool_decide_eq_false_2 by done. cbn [andb negb].
    rewrite Hpre. destruct l402Context as [tokenCache|]; [|done].
    cbv zeta.
    destruct (get (nowGet clock) (paymentHashFromPreimage preimage) tokenCache)
      as [entry tokenCache']. cbn [fst snd]. by intros ->.
  - intros Hother. unfold callback. cbn [asRecord isRecord].
    destruct Hother as [Hmode|Hkind].
    + by rewrite (bool_decide_eq_false_2 (paymentMode = l402_passthrough)).
    + rewrite (bool_decide_eq_true_2 (kind tool = catalog_get)) by done.
      by rewrite andb_false_r.
Qed.

End Passthrough.

(** A 402 failure with a challenge, and the two calls around it. *)
Definition quoteFailure : AlbomError :=
  mkError 402 "/v1/responses" None
    (mkPayload "payment_required" "Payment required"
       [("invoice", VStr "lnbc100n"); ("payment_hash", VStr "ph_001");
        ("macaroon", VStr "mac_abc123")]).

Definition paidResult : AlbomToolResult :=
  Ok (mkSuccess 200 "/v1/responses" None None (VObj [("ok", VBool true)])).

Lemma quote_then_pay_round_trip_witness :
  let tool := DedupSpec.textTool "/v1/responses" in
  let quoting : PlannedTool -> value -> option L402AuthCredentials
                -> unit + AlbomToolResult := fun _ _ _ => inr (NotOk quoteFailure) in
  let paying : PlannedTool -> value -> option L402AuthCredentials
               -> unit + AlbomToolResult :=
    fun _ _ auth =>
      match auth with
      | Some _ => inr paidResult
      | None => inr (NotOk quoteFailure)
      end in
  exists cached,
    callback (fun _ => "ph_001") (fun _ => "0") quoting tool l402_passthrough
      (Some (newCache None None)) (mkClock 0 0 0) (VObj [("model", VStr "gpt-4o-mini")])
    = Some (inr (respond (fun _ => "0") (NotOk quoteFailure)), Some cached)
    /\ fst <$> callback (fun _ => "ph_001") (fun _ => "0") paying tool l402_passthrough
                 (Some cached) (mkClock 1000 1000 1000)
                 (VObj [("model", VStr "gpt-4o-mini"); ("payment_preimage", VStr "00ff")])
       = Some (handedOn (fun _ => "0")
                 (paying tool (VObj (without "payment_preimage"
                                       [("model", VStr "gpt-4o-mini");
                                        ("payment_preimage", VStr "00ff")]))
                    (Some (mkAuth "mac_abc123" "00ff")))).
Proof.
  intros tool quoting paying.
  apply (quote_then_pay_round_trip (fun _ => "ph_001") (fun _ => "0") quoting paying tool
           (newCache None None) (mkClock 0 0 0) (mkClock 1000 1000 1000)
           [("model", VStr "gpt-4o-mini")]
           [("model", VStr "gpt-4o-mini"); ("payment_preimage", VStr "00ff")]
           quoteFailure "mac_abc123" "ph_001" "lnbc100n" "00ff");
    try reflexivity; try discriminate.
Defined.

Lemma unknown_preimage_stops_the_call_witness :
  callback (E := unit) (fun _ => "ph_unknown") (fun _ => "0")
    (fun _ _ _ => inr paidResult) (DedupSpec.textTool "/v1/responses")
    l402_passthrough (Some (newCache None None)) (mkClock 0 0 0)
    (VObj [("payment_preimage", VStr EmptyString)])
  = Some (inr unknownPayment, Some (newCache None None)).
Proof.
  apply (proj1 (unknown_preimage_stops_the_call (E := unit) (fun _ => "ph_unknown")
                  (fun _ => "0") (fun _ _ _ => inr paidResult)
                  (DedupSpec.textTool "/v1/responses") l402_passthrough
                  (Some (newCache None None)) (mkClock 0 0 0)
                  [("payment_preimage", VStr EmptyString)]) EmptyString);
    try reflexivity. discriminate.
Defined.

End RegistrationSpec.

(** ** uploads.ts: what an upload is made of *)

Module UploadsSpec.
Import Js HttpClient Uploads.

Lemma trimmedOr_truthy (a : option string) (b : string) :
  truthy b = true -> truthy (trimmedOr a b) = true.
Proof.
  intros Hb. unfold trimmedOr. destruct a as [s|]; [|done].
  by destruct (truthy (trim s)) eqn:E.
Qed.

Lemma inferredMimeType_truthy extname (fileName : string) :
  truthy (inferredMimeType extname fileName) = true.
Proof.
  unfold inferredMimeType. cbv zeta.
  generalize (toLowerCase (extname fileName)). intros ext.
  unfold EXTENSION_TO_MIME. cbn [assoc].
  repeat (case_bool_decide; [done|]). done.
Qed.

(** The codes of the errors of [prepareUpload], with their statuses. *)
Definition uploadErrors : list (string * Z) :=
  [("missing_file", 400); ("invalid_file_input", 400); ("file_read_failed", 400);
   ("invalid_base64", 400); ("empty_upload", 400); ("file_too_large", 413)].

Section Prepared.
Variable extname : string -> string.
Variable basename : string -> string.
Variable fromBase64 : string -> string.
Variable readFileFn : string -> settled string.

Abbreviation prepare := (prepareUpload extname basename fromBase64 readFileFn).

Lemma validateUploadSize_None (sizeBytes : nat) (maxBytes : Z) (label : string) :
  validateUploadSize sizeBytes maxBytes label = None ->
  1 <= Z.of_nat sizeBytes <= maxBytes.
Proof.
  unfold validateUploadSize.
  destruct (Z.leb_spec (Z.of_nat sizeBytes) 0); [done|].
  destruct (Z.ltb_spec maxBytes (Z.of_nat sizeBytes)); [done|]. lia.
Qed.

Lemma validateUploadSize_Some (sizeBytes : nat) (maxBytes : Z) (label : string)
    (e : UploadError) :
  validateUploadSize sizeBytes maxBytes label = Some e ->
  (uploadCode e, uploadStatus e) ∈ uploadErrors.
Proof.
  unfold validateUploadSize, uploadErrors.
  destruct (Z.of_nat sizeBytes <=? 0); [intros [= <-]; cbn; set_solver|].
  destruct (maxBytes <? Z.of_nat sizeBytes); [intros [= <-]; cbn; set_solver|done].
Qed.

(** [prepareUpload] by its sources. *)
Definition fromFile (options : PrepareUploadOptions)
  : (UploadError + option Prepared) * list string :=
  let path := default EmptyString (filePath options) in
  match readFileFn path with
  | Rejects error =>
      (inl (mkUploadError "file_read_failed"
              ("Could not read " +:+ label options +:+ " from " +:+ path) 400
              [("cause", DetailText (errorMessage error))]), [path])
  | Resolves buffer =>
      match validateUploadSize (String.length buffer) (maxBytes options)
              (label options) with
      | Some error => (inl error, [path])
      | None =>
          (inr (Some (mkPrepared
                        (mkUpload (optFieldName options)
                           (trimmedOr (fileName options) (basename path))
                           (trimmedOr (mimeType options)
                              (inferredMimeType extname
                                 (trimmedOr (fileName options) (basename path))))
                           buffer)
                        (String.length buffer))), [path])
      end
  end.

Definition fromPayload (options : PrepareUploadOptions)
  : (UploadError + option Prepared) * list string :=
  let name := trimmedOr (fileName options) (optFieldName options +:+ ".bin") in
  match decodeBase64 fromBase64 (default EmptyString (fileBase64 options)) with
  | inl error => (inl error, [])
  | inr buffer =>
      match validateUploadSize (String.length buffer) (maxBytes options)
              (label options) with
      | Some error => (inl error, [])
      | None =>
          (inr (Some (mkPrepared
                        (mkUpload (optFieldName options) name
                           (trimmedOr (mimeType options) (inferredMimeType extname name))
                           buffer)
                        (String.length buffer))), [])
      end
  end.

Definition sourceError (code : string) (options : PrepareUploadOptions) : UploadError :=
  mkUploadError code
    (label options +:+ " requires exactly one of file_path or file_base64") 400 [].

Lemma prepare_by_source (options : PrepareUploadOptions) :
  prepare options
  = match truthy_opt (filePath options), truthy_opt (fileBase64 options) with
    | false, false =>
        if required options then (inl (sourceError "missing_file" options), [])
        else (inr None, [])
    | true, true => (inl (sourceError "invalid_file_input" options), [])
    | true, false => fromFile options
    | false, true => fromPayload options
    end.
Proof.
  unfold prepareUpload, fromFile, fromPayload, sourceError. cbv zeta.
  destruct (truthy_opt (filePath options)), (truthy_opt (fileBase64 options));
    cbv iota.
  - rewrite bool_decide_eq_false_2, bool_decide_eq_true_2 by lia. done.
  - rewrite !bool_decide_eq_false_2 by lia. done.
  - rewrite !bool_decide_eq_false_2 by lia. done.
  - rewrite bool_decide_eq_true_2 by lia. done.
Qed.

Lemma decodeBase64_error (value : string) (e : UploadError) :
  decodeBase64 fromBase64 value = inl e ->
  (uploadCode e, uploadStatus e) ∈ uploadErrors.
Proof.
  unfold decodeBase64, uploadErrors. cbv zeta.
  destruct (negb (truthy _)); [intros [= <-]; cbn; set_solver|].
  destruct (bool_decide (String.length _ = 0%nat)); [|done].
  intros [= <-]. cbn. set_solver.
Qed.

(** X24. An upload that [prepareUpload] returns comes from exactly one
    source (a file path or a base64 payload); its size is the length of
    its buffer, at least one byte and at most [maxBytes]; its field name
    is the one asked for and its MIME type is not empty; a file was read
    only when the source is a file path, and then that file alone. From a
    base64 payload the file name is not empty either. *)
Theorem prepared_upload_is_bounded :
  forall (options : PrepareUploadOptions) (prepared : Prepared) (reads : list string),
    prepare options = (inr (Some prepared), reads) ->
    truthy_opt (filePath options) = negb (truthy_opt (fileBase64 options))
    /\ sizeBytes prepared = String.length (buffer (upload prepared))
    /\ 1 <= Z.of_nat (sizeBytes prepared) <= maxBytes options
    /\ fieldName (upload prepared) = optFieldName options
    /\ truthy (uploadMimeType (upload prepared)) = true
    /\ reads = (if truthy_opt (filePath options)
                then [default EmptyString (filePath options)] else [])
    /\ (truthy_opt (fileBase64 options) = true ->
        truthy (uploadFileName (upload prepared)) = true).
Proof.
  intros options prepared reads. rewrite prepare_by_source.
  destruct (truthy_opt (filePath options)) eqn:Hp,
    (truthy_opt (fileBase64 options)) eqn:Hb.
  - discriminate.
  - unfold fromFile. cbv zeta.
    destruct (readFileFn _) as [bytes|e]; [|discriminate].
    destruct (validateUploadSize _ _ _) eqn:V; [discriminate|].
    intros [= <- <-]. apply validateUploadSize_None in V.
    cbn [upload sizeBytes buffer fieldName uploadMimeType uploadFileName negb].
    repeat split; try done; try lia.
    apply trimmedOr_truthy, inferredMimeType_truthy.
  - unfold fromPayload. cbv zeta.
    destruct (decodeBase64 fromBase64 _) as [e|bytes]; [discriminate|].
    destruct (validateUploadSize _ _ _) eqn:V; [discriminate|].
    intros [= <- <-]. apply validateUploadSize_None in V.
    cbn [upload sizeBytes buffer fieldName uploadMimeType uploadFileName negb].
    repeat split; try done; try lia.
    + apply trimmedOr_truthy, inferredMimeType_truthy.
    + intros _. apply trimmedOr_truthy. by destruct (optFieldName options).
  - destruct (required options); discriminate.
Qed.

Lemma prepareUpload_errors (options : PrepareUploadOptions) (e : UploadError)
    (reads : list string) :
  prepare options = (inl e, reads) ->
  (uploadCode e, uploadStatus e) ∈ uploadErrors.
Proof.
  rewrite prepare_by_source.
  destruct (truthy_opt (filePath options)), (truthy_opt (fileBase64 options)).
  - intros [= <- <-]. cbn. unfold uploadErrors. set_solver.
  - unfold fromFile. cbv zeta. destruct (readFileFn _) as [bytes|err].
    + destruct (validateUploadSize _ _ _) eqn:V; [|discriminate].
      intros [= <- <-]. by eapply validateUploadSize_Some.
    + intros [= <- <-]. cbn. unfold uploadErrors. set_solver.
  - unfold fromPayload. cbv zeta.
    destruct (decodeBase64 fromBase64 _) as [err|bytes] eqn:D.
    + intros [= <- <-]. by eapply decodeBase64_error.
    + destruct (validateUploadSize _ _ _) eqn:V; [|discriminate].
      intros [= <- <-]. by eapply validateUploadSize_Some.
  - destruct (required options); [|discriminate].
    intros [= <- <-]. cbn. unfold uploadErrors. set_solver.
Qed.

(** X25. The source rule of [prepareUpload] and its errors. With no
    source the result is undefined, or the error [missing_file] when the
    upload is required; with both sources it is the error
    [invalid_file_input]; in both cases nothing is read. Every error of
    [prepareUpload] is one of [missing_file], [invalid_file_input],
    [file_read_failed], [invalid_base64] and [empty_upload] with status
    400, and [file_too_large] with status 413; and without a file path no
    file is read. *)
Theorem upload_source_rule :
  forall (options : PrepareUploadOptions),
    (truthy_opt (filePath options) = false ->
     truthy_opt (fileBase64 options) = false ->
     prepare options
     = (if required options
        then inl (mkUploadError "missing_file"
                    (label options
                     +:+ " requires exactly one of file_path or file_base64") 400 [])
        else inr None, []))
    /\ (truthy_opt (filePath options) = true ->
        truthy_opt (fileBase64 options) = true ->
        prepare options
        = (inl (mkUploadError "invalid_file_input"
                  (label options
                   +:+ " requires exactly one of file_path or file_base64") 400 []),
           []))
    /\ (forall e reads,
          prepare options = (inl e, reads) ->
          (uploadCode e, uploadStatus e) ∈ uploadErrors)
    /\ (truthy_opt (filePath options) = false -> (prepare options).2 = []).
Proof.
  intros options. split; [|split; [|split]].
  - rewrite prepare_by_source. intros -> ->. by destruct (required options).
  - rewrite prepare_by_source. by intros -> ->.
  - apply prepareUpload_errors.
  - rewrite prepare_by_source. intros ->.
    destruct (truthy_opt (fileBase64 options)).
    + unfold fromPayload. cbv zeta.
      destruct (decodeBase64 fromBase64 _) as [e|bytes]; [done|].
      by destruct (validateUploadSize _ _ _).
    + by destruct (required options).
Qed.

End Prepared.

(** A runtime to run the examples in: a file system with one file. *)
Definition oneFile (path : string) : settled string :=
  if bool_decide (path = "/tmp/cat.png") then Resolves "PNGDATA"
  else Rejects (mkJsError false "ENOENT").

Lemma prepared_upload_is_bounded_witness :
  let options :=
    mkPrepare "image" "image" (Some "/tmp/cat.png") None None None 1024 true in
  let prepared :=
    mkPrepared (mkUpload "image" "cat.png" "image/png" "PNGDATA") 7 in
  truthy_opt (filePath options) = negb (truthy_opt (fileBase64 options))
  /\ sizeBytes prepared = String.length (buffer (upload prepared))
  /\ 1 <= Z.of_nat (sizeBytes prepared) <= maxBytes options
  /\ fieldName (upload prepared) = optFieldName options
  /\ truthy (uploadMimeType (upload prepared)) = true
  /\ ["/tmp/cat.png"] = (if truthy_opt (filePath options)
                         then [default EmptyString (filePath options)] else [])
  /\ (truthy_opt (fileBase64 options) = true ->
      truthy (uploadFileName (upload prepared)) = true).
Proof.
  intros options prepared.
  apply (prepared_upload_is_bounded (fun _ => ".png") (fun _ => "cat.png")
           (fun s => s) oneFile options prepared ["/tmp/cat.png"]).
  vm_compute. reflexivity.
Defined.

Lemma upload_source_rule_witness :
  prepareUpload (fun _ => ".png") (fun _ => "cat.png") (fun s => s) oneFile
    (mkPrepare "image" "image" (Some "/tmp/cat.png") (Some "AAAA") None None 1024 true)
  = (inl (mkUploadError "invalid_file_input"
            "image requires exactly one of file_path or file_base64" 400 []), []).
Proof.
  apply (proj1 (proj2 (upload_source_rule (fun _ => ".png") (fun _ => "cat.png")
                         (fun s => s) oneFile
                         (mkPrepare "image" "image" (Some "/tmp/cat.png") (Some "AAAA")
                            None None 1024 true))));
    reflexivity.
Defined.

End UploadsSpec.

(** ** config.ts: what a loaded configuration guarantees *)

Module ConfigSpec.
Import Js Catalog Uploads Config.

(** The last code unit is a slash. *)
Fixpoint ends_with_slash (s : string) : bool :=
  match s with
  | EmptyString => false
  | String c EmptyString => is_slash c
  | String _ s' => ends_with_slash s'
  end.

Lemma dropTrailingSlashes_end (s : string) :
  ends_with_slash (dropTrailingSlashes s) = false.
Proof.
  induction s as [|c s IH]; simpl; [done|].
  destruct (is_slash c) eqn:E; simpl.
  - destruct (dropTrailingSlashes s) as [|c' r] eqn:R; simpl; [done|]. exact IH.
  - destruct (dropTrailingSlashes s) as [|c' r] eqn:R; simpl; [exact E|]. exact IH.
Qed.

(** The words that [parseBoolean] reads, after trimming and lower-casing. *)
Definition booleanWords : list string :=
  ["1"; "true"; "yes"; "on"] ++ ["0"; "false"; "no"; "off"].

(** A number that [parseInteger] lets pass for a minimum. *)
Definition admitted (minimum x : float) : Prop :=
  isFinite x = true /\ PrimFloat.ltb x minimum = false.

Section Loaded.
Variable parseInt10 : string -> float.

Lemma parseBoolean_inr (value : option string) (parsed : option bool) :
  parseBoolean value = inr parsed ->
  match value with
  | None => parsed = None
  | Some v => is_Some parsed /\ toLowerCase (trim v) ∈ booleanWords
  end.
Proof.
  unfold parseBoolean, booleanWords. destruct value as [v|]; [|by intros [= <-]].
  cbv zeta. case_bool_decide as H1.
  - intros [= <-]. split; [by eexists|]. apply elem_of_app. by left.
  - case_bool_decide as H2; [|discriminate].
    intros [= <-]. split; [by eexists|]. apply elem_of_app. by right.
Qed.

Lemma parseInteger_inr (value : option string) (fallback minimum x : float) :
  admitted minimum fallback ->
  parseInteger parseInt10 value fallback minimum = inr x -> admitted minimum x.
Proof.
  intros Hf. unfold parseInteger. destruct value as [v|]; [|by intros [= <-]].
  cbv zeta. destruct (negb (isFinite (parseInt10 v))) eqn:F; [discriminate|].
  destruct (PrimFloat.is_nan (parseInt10 v)); [discriminate|].
  destruct (PrimFloat.ltb (parseInt10 v) minimum) eqn:L; [discriminate|].
  intros [= <-]. split; [by apply negb_false_iff in F|done].
Qed.

(** X26. A configuration that [loadConfig] returns is settled: its base
    URL does not end with a slash; its bearer token is absent or not
    empty; moderation and embeddings follow the profile (on for full, off
    for compact) unless the environment sets them, video is on and the raw
    tool off unless set; every boolean variable that is set holds one of
    the eight words 1, true, yes, on, 0, false, no, off (in any case, with
    white space around), so that a misspelt value is an error and never a
    default; and the four numbers are finite and not below their minimum
    (1000 ms for the two times, 0 retries, 1 byte). *)
Theorem loaded_configuration_is_settled :
  forall (env : gmap string string) (settings : AlbomSettings),
    loadConfig parseInt10 env = inr settings ->
    ends_with_slash (baseUrl settings) = false
    /\ match bearerToken settings with
       | Some token => truthy token = true
       | None => True
       end
    /\ (env !! "ALBOM_INCLUDE_MODERATION" = None ->
        includeModeration settings = bool_decide (toolProfile settings = full))
    /\ (env !! "ALBOM_INCLUDE_EMBEDDINGS" = None ->
        includeEmbeddings settings = bool_decide (toolProfile settings = full))
    /\ (env !! "ALBOM_INCLUDE_VIDEO" = None -> includeVideo settings = true)
    /\ (env !! "ALBOM_ALLOW_RAW_TOOL" = None -> allowRawTool settings = false)
    /\ Forall (fun name =>
                 forall v, env !! name = Some v ->
                           toLowerCase (trim v) ∈ booleanWords)
         ["ALBOM_INCLUDE_MODERATION"; "ALBOM_INCLUDE_EMBEDDINGS";
          "ALBOM_INCLUDE_VIDEO"; "ALBOM_ALLOW_RAW_TOOL"]
    /\ admitted 1000%float (catalogTtlMs settings)
    /\ admitted 1000%float (httpTimeoutMs settings)
    /\ admitted 0%float (maxRetries settings)
    /\ admitted 1%float (maxUploadBytes settings).
Proof.
  intros env settings. unfold loadConfig.
  destruct (parseToolProfile _) as [m|profile]; [discriminate|].
  destruct (parseBoolean (env !! "ALBOM_INCLUDE_MODERATION")) as [m|moderation] eqn:Hm;
    [discriminate|].
  destruct (parseBoolean (env !! "ALBOM_INCLUDE_EMBEDDINGS")) as [m|embeddings] eqn:He;
    [discriminate|].
  cbv zeta.
  destruct (parseBoolean (env !! "ALBOM_INCLUDE_VIDEO")) as [m|video] eqn:Hv;
    [discriminate|].
  destruct (parseBoolean (env !! "ALBOM_ALLOW_RAW_TOOL")) as [m|raw] eqn:Hr;
    [discriminate|].
  destruct (parseInteger _ (env !! "ALBOM_CATALOG_TTL_MS") _ _) as [m|ttl] eqn:H1;
    [discriminate|].
  destruct (parseInteger _ (env !! "ALBOM_HTTP_TIMEOUT_MS") _ _) as [m|timeout] eqn:H2;
    [discriminate|].
  destruct (parseInteger _ (env !! "ALBOM_MAX_RETRIES") _ _) as [m|retries] eqn:H3;
    [discriminate|].
  destruct (parseInteger _ (env !! "ALBOM_MAX_UPLOAD_BYTES") _ _) as [m|bytes] eqn:H4;
    [discriminate|].
  intros [= <-]. cbn [baseUrl bearerToken toolProfile includeModeration
                        includeEmbeddings includeVideo allowRawTool catalogTtlMs
                        httpTimeoutMs maxRetries maxUploadBytes].
  apply parseBoolean_inr in Hm, He, Hv, Hr.
  split; [apply dropTrailingSlashes_end|]. split.
  { destruct (env !! "ALBOM_BEARER_TOKEN") as [token|]; [|done].
    by destruct (truthy (trim token)) eqn:T. }
  split; [intros Hn; rewrite Hn in Hm; by subst|].
  split; [intros Hn; rewrite Hn in He; by subst|].
  split; [intros Hn; rewrite Hn in Hv; by subst|].
  split; [intros Hn; rewrite Hn in Hr; by subst|].
  split.
  { rewrite !Forall_cons. repeat split; [| | | |apply Forall_nil_2]; intros v Hn.
    - rewrite Hn in Hm. tauto.
    - rewrite Hn in He. tauto.
    - rewrite Hn in Hv. tauto.
    - rewrite Hn in Hr. tauto. }
  assert (Hdefaults : admitted 1000%float 300000%float
                      /\ admitted 1000%float 90000%float
                      /\ admitted 0%float 2%float
                      /\ admitted 1%float 26214400%float).
  { unfold admitted. vm_compute. tauto. }
  destruct Hdefaults as (D1 & D2 & D3 & D4).
  split; [exact (parseInteger_inr _ _ _ _ D1 H1)|].
  split; [exact (parseInteger_inr _ _ _ _ D2 H2)|].
  split; [exact (parseInteger_inr _ _ _ _ D3 H3)|].
  exact (parseInteger_inr _ _ _ _ D4 H4).
Qed.

End Loaded.

Lemma loaded_configuration_is_settled_witness :
  exists settings,
    loadConfig (fun _ => nan)
      {[ "ALBOM_BASE_URL" := " https://example.com// ";
         "ALBOM_TOOL_PROFILE" := "Full";
         "ALBOM_BEARER_TOKEN" := "  " ]} = inr settings
    /\ baseUrl settings = "https://example.com"
    /\ bearerToken settings = None
    /\ includeModeration settings = true
    /\ ends_with_slash (baseUrl settings) = false.
Proof.
  eexists. split; [vm_compute; reflexivity|].
  split; [reflexivity|]. split; [reflexivity|]. split; [reflexivity|].
  eapply (loaded_configuration_is_settled (fun _ => nan)
            {[ "ALBOM_BASE_URL" := " https://example.com// ";
               "ALBOM_TOOL_PROFILE" := "Full";
               "ALBOM_BEARER_TOKEN" := "  " ]}).
  vm_compute. reflexivity.
Defined.

End ConfigSpec.


(** ** tools/executor.ts: where a tool call can go *)

Module ExecutorSpec.
Import Js Types Results Catalog Dedup HttpClient Uploads Normalizer Executor.
Import HttpSpec DedupMore.

(** A request of the history goes to [url]. *)
Definition targets (url : string) (e : Event) : Prop :=
  match e with
  | Attempt _ u _ | Replay u _ => u = url
  | Sleep _ | Pay _ => True
  end.

Section Requests.
Variable options : HttpClientOptions.
Variable world : World.
Variable url : string.
Variable requestInit : RequestInit.

Lemma iteration_targets (n : nat) (h : History) :
  exists added,
    (iteration options world url requestInit n h).2 = h ++ added
    /\ Forall (targets url) added.
Proof.
  assert (Hcatch : forall e,
            exists added,
              (catchBlock options world n e (h ++ [Attempt n url requestInit])).2
              = h ++ added /\ Forall (targets url) added).
  { intros e. unfold catchBlock. cbv zeta. case_bool_decide.
    - eexists. cbn [snd]. rewrite <- app_assoc. split; [reflexivity|].
      repeat constructor.
    - eexists. split; [reflexivity|]. repeat constructor. }
  unfold iteration. cbv zeta.
  destruct (fetchFn world h url requestInit) as [r|e]; [|apply Hcatch].
  destruct (if responseStatus r =? 402 then l402Handler options else None)
    as [handler|].
  - destruct (parseResponseData world r) as [data|e]; [|apply Hcatch].
    unfold autoPay. cbv zeta.
    destruct (L402.parseL402Challenge _ data) as [ch|].
    2:{ eexists. split; [reflexivity|]. repeat constructor. }
    destruct (handler _ ch) as [preimage|e].
    2:{ eexists. cbn [snd]. rewrite <- app_assoc. split; [reflexivity|].
        repeat constructor. }
    match goal with |- context [fetchFn world ?h' url ?i] =>
      destruct (fetchFn world h' url i) as [r'|e] end.
    + destruct (parseResponseData world r');
        (eexists; cbn [snd]; rewrite <- !app_assoc; split; [reflexivity|];
         repeat constructor).
    + eexists. cbn [snd]. rewrite <- !app_assoc. split; [reflexivity|].
      repeat constructor.
  - destruct (isRetryableStatus (responseStatus r)
              && bool_decide (n < maxAttempts options - 1)%nat).
    + eexists. cbn [snd]. rewrite <- app_assoc. split; [reflexivity|].
      repeat constructor.
    + destruct (parseResponseData world r) as [data|e]; [|apply Hcatch].
      eexists. split; [reflexivity|]. repeat constructor.
Qed.

Lemma retryLoop_targets (todo n : nat) (h : History) :
  exists added,
    (retryLoop options world url requestInit todo n h).2 = h ++ added
    /\ Forall (targets url) added.
Proof.
  revert n h. induction todo as [|todo IH]; intros n h; cbn [retryLoop].
  - exists []. by rewrite app_nil_r.
  - destruct (iteration_targets n h) as (added & Hit & Hadded).
    destruct (iteration options world url requestInit n h) as [[result|] h1];
      cbn [snd] in Hit; subst h1.
    + by exists added.
    + destruct (IH (S n) (h ++ added)) as (more & -> & Hmore).
      exists (added ++ more). rewrite app_assoc. split; [done|].
      by apply Forall_app.
Qed.

End Requests.

Section Tool.
Context {F : Type}.
Variable JSON_stringify : value -> string.
Variable String_of : value -> string.
Variable options : HttpClientOptions.
Variable world : World.
Variable extname : string -> string.
Variable basename : string -> string.
Variable fromBase64 : string -> string.
Variable readFileFn : string -> settled string.
Variable maxUploadBytes : Z.
Variable getCatalogState : string + NormalizedCatalog.
Variable refreshCatalog : F + NormalizedCatalog.
Variable getToolState : option ToolState.
Variable catalogData : NormalizedCatalog -> option ToolState -> value.

Abbreviation run :=
  (execute (F := F) JSON_stringify String_of options world extname basename
     fromBase64 readFileFn maxUploadBytes getCatalogState refreshCatalog
     getToolState catalogData).

(** The codes of the errors that the executor throws of its own. *)
Definition executorErrors : list (string * Z) :=
  [("invalid_input", 400); ("endpoint_not_found", 404);
   ("endpoint_not_allowlisted", 400); ("missing_file", 400)].

(** What an outcome is allowed to be, for a call that started from the
    history [h] and may go to the paths in [allowed]. *)
Definition expected (rejection : Rejection F) : Prop :=
  match rejection with
  | RuntimeRejection e => (errorCode e, HttpClient.errorStatus e) ∈ executorErrors
  | UploadRejection e => (uploadCode e, uploadStatus e) ∈ UploadsSpec.uploadErrors
  | CatalogUnavailable message => getCatalogState = inl message
  | RefreshRejection reason => refreshCatalog = inl reason
  end.

Inductive Behaved (h : History) (allowed : string -> Prop) : Outcome (F := F) -> Prop :=
| behaved_rejected rejection :
    expected rejection -> Behaved h allowed (inl rejection, h)
| behaved_local result : Behaved h allowed (inr result, h)
| behaved_called p catalog record added result :
    allowed p ->
    getCatalogState = inr catalog ->
    recordByPath catalog p = Some record ->
    Forall (targets (composeEndpointUrl (baseUrl options) p)) added ->
    Behaved h allowed (inr result, h ++ added).

Lemma Behaved_impl h (allowed allowed' : string -> Prop) outcome :
  (forall p, allowed p -> allowed' p) ->
  Behaved h allowed outcome -> Behaved h allowed' outcome.
Proof.
  intros Himpl [r Hr|result|p catalog record added result Hp Hc Hrec Ht].
  - by constructor.
  - constructor.
  - econstructor; eauto.
Qed.

Lemma throwRuntime_behaved h allowed (code message : string) (status : Z) :
  (code, status) ∈ executorErrors ->
  Behaved h allowed (throwRuntime (F := F) code message status h).
Proof. intros Hin. unfold throwRuntime. by constructor. Qed.

Lemma requireString_behaved h allowed (args : value) (key : string) e :
  requireString args key = inl e ->
  Behaved h allowed (inl (RuntimeRejection e), h).
Proof.
  unfold requireString. destruct (asString _); [discriminate|].
  intros [= <-]. constructor. cbn. unfold executorErrors.
  apply elem_of_cons. by left.
Qed.

Lemma getEndpoint_inl (p : string) rejection :
  getEndpoint (F := F) getCatalogState p = inl rejection -> expected rejection.
Proof.
  unfold getEndpoint. destruct getCatalogState as [m|catalog] eqn:G.
  - by intros [= <-].
  - destruct (recordByPath catalog p); [discriminate|].
    intros [= <-]. cbn. unfold executorErrors. rewrite !elem_of_cons. tauto.
Qed.

Lemma getEndpoint_inr (p : string) endpoint :
  getEndpoint (F := F) getCatalogState p = inr endpoint ->
  exists catalog, getCatalogState = inr catalog
                  /\ recordByPath catalog p = Some endpoint.
Proof.
  unfold getEndpoint. destruct getCatalogState as [m|catalog] eqn:G; [discriminate|].
  destruct (recordByPath catalog p) eqn:R; [|discriminate].
  intros [= <-]. by exists catalog.
Qed.

Lemma settle_behaved h (allowed : string -> Prop) (p : string) catalog endpoint model
    (answer : completion NormalizedHttpResponse * History) added :
  allowed p ->
  getCatalogState = inr catalog ->
  recordByPath catalog p = Some endpoint ->
  answer.2 = h ++ added ->
  Forall (targets (composeEndpointUrl (baseUrl options) p)) added ->
  Behaved h allowed (settle (F := F) p endpoint model answer).
Proof.
  intros Hp Hc Hr Hh Ht. destruct answer as [[response|error] h']; cbn [snd] in Hh;
    subst h'; cbn [settle]; by econstructor.
Qed.

Lemma callJson_behaved h (allowed : string -> Prop) (p : string) body model allow :
  allowed p ->
  Behaved h allowed
    (callJson (F := F) JSON_stringify options world getCatalogState p body model
       allow h).
Proof.
  intros Hp. unfold callJson.
  destruct (getEndpoint getCatalogState p) as [rejection|endpoint] eqn:G.
  - constructor. by eapply getEndpoint_inl.
  - apply getEndpoint_inr in G as (catalog & Hc & Hr).
    pose proof (perform_unfold JSON_stringify String_of options world
                  (CallPostJson p body) (mkRequestOptions allow None) h) as Hu.
    cbn [perform endpointOf] in Hu.
    destruct (resolveHeaders options (mkRequestOptions allow None)) as [headers|e].
    + destruct Hu as (init & Hu & _). rewrite Hu. unfold requestWithRetries.
      destruct (retryLoop_targets options world
                  (composeEndpointUrl (baseUrl options) p) init
                  (maxAttempts options) 0 h) as (added & Hh & Ht).
      by eapply settle_behaved.
    + rewrite Hu. eapply (settle_behaved h allowed p catalog endpoint model _ []);
        try done. by rewrite app_nil_r.
Qed.

Lemma callMultipart_behaved h (allowed : string -> Prop) (p : string) fields uploads
    model allow :
  allowed p ->
  Behaved h allowed
    (callMultipart (F := F) JSON_stringify String_of options world getCatalogState p
       fields uploads model allow h).
Proof.
  intros Hp. unfold callMultipart.
  destruct (getEndpoint getCatalogState p) as [rejection|endpoint] eqn:G.
  - constructor. by eapply getEndpoint_inl.
  - apply getEndpoint_inr in G as (catalog & Hc & Hr).
    pose proof (perform_unfold JSON_stringify String_of options world
                  (CallPostMultipart p fields uploads)
                  (mkRequestOptions allow None) h) as Hu.
    cbn [perform endpointOf] in Hu.
    destruct (resolveHeaders options (mkRequestOptions allow None)) as [headers|e].
    + destruct Hu as (init & Hu & _). rewrite Hu. unfold requestWithRetries.
      destruct (retryLoop_targets options world
                  (composeEndpointUrl (baseUrl options) p) init
                  (maxAttempts options) 0 h) as (added & Hh & Ht).
      by eapply settle_behaved.
    + rewrite Hu. eapply (settle_behaved h allowed p catalog endpoint model _ []);
        try done. by rewrite app_nil_r.
Qed.

Lemma uploadFrom_inl (args : value) (prefix fieldName label : string)
    (required : bool) e :
  uploadFrom extname basename fromBase64 readFileFn maxUploadBytes args prefix
    fieldName label required = inl e ->
  (uploadCode e, uploadStatus e) ∈ UploadsSpec.uploadErrors.
Proof.
  unfold uploadFrom.
  match goal with |- context [prepareUpload ?a ?b ?c ?d ?o] =>
    pose proof (UploadsSpec.prepareUpload_errors a b c d o) as Hu;
    destruct (prepareUpload a b c d o) as [[err|prepared] reads] end;
    cbn [fst]; [|discriminate].
  intros [= <-]. by eapply Hu.
Qed.

Ltac require_string h :=
  match goal with
  | |- context [requireString ?args ?key] =>
      let E := fresh "E" in
      destruct (requireString args key) as [?e|?v] eqn:E;
      [by eapply requireString_behaved|]
  end.

Ltac upload_from :=
  match goal with
  | |- context [uploadFrom ?a ?b ?c ?d ?m ?args ?p ?f ?l ?r] =>
      let E := fresh "E" in
      destruct (uploadFrom a b c d m args p f l r) as [?e|?u] eqn:E;
      [constructor; by eapply uploadFrom_inl|]
  end.

Lemma callWithFile_behaved h (allowed : string -> Prop) (p : string)
    declared args model allow :
  allowed p ->
  Behaved h allowed
    (callWithFile (F := F) JSON_stringify String_of options world extname basename
       fromBase64 readFileFn maxUploadBytes getCatalogState p declared args model
       allow h).
Proof.
  intros Hp. unfold callWithFile. cbv zeta. upload_from.
  by apply callMultipart_behaved.
Qed.

Lemma handler_behaved (tool : PlannedTool) (rawArgs : value) (h : History)
    (outcome : Outcome (F := F)) :
  run tool rawArgs h = Some outcome ->
  Behaved h (fun p => kind tool = raw_call \/ p ∈ routes tool) outcome.
Proof.
  unfold execute. cbv zeta.
  set (args := asRecord rawArgs).
  assert (Hinput : forall allowed p,
            allowed p ->
            Behaved h allowed
              (handleInput (F := F) JSON_stringify options world getCatalogState
                 p args h)).
  { intros allowed p Hp. unfold handleInput.
    destruct (negb (has_prop args "input")).
    - apply throwRuntime_behaved. unfold executorErrors. apply elem_of_cons. by left.
    - by apply callJson_behaved. }
  assert (Hroute : forall p, endpointPath tool = Some p ->
            kind tool = raw_call \/ p ∈ routes tool).
  { intros p Hp. right. unfold routes. rewrite Hp. apply elem_of_app. left.
    apply elem_of_cons. by left. }
  destruct (kind tool) eqn:K.
  - (* catalog_get *)
    intros [= <-]. unfold handleCatalogGet. cbv zeta.
    destruct (asBoolean (prop args "refresh") false).
    + destruct refreshCatalog as [reason|catalog] eqn:R; [by constructor|constructor].
    + destruct getCatalogState as [m|catalog] eqn:G; [by constructor|constructor].
  - (* text_generate *)
    destruct (endpointPath tool) as [p|] eqn:P; [|discriminate]. intros [= <-].
    unfold handleTextGenerate. require_string h.
    destruct (negb (has_prop args "input")).
    + apply throwRuntime_behaved. unfold executorErrors. apply elem_of_cons. by left.
    + apply callJson_behaved. auto.
  - (* image_generate *)
    destruct (endpointPath tool) as [p|] eqn:P; [|discriminate]. intros [= <-].
    unfold handleImageGenerate. do 2 require_string h.
    apply callJson_behaved. auto.
  - (* image_edit *)
    destruct (endpointPath tool) as [p|] eqn:P; [|discriminate]. intros [= <-].
    unfold handleImageEdit. do 2 require_string h. do 2 upload_from.
    apply callMultipart_behaved. auto.
  - (* audio_transcribe *)
    destruct (endpointPath tool) as [p|] eqn:P; [|discriminate]. intros [= <-].
    unfold handleAudioTranscribe. cbv zeta. upload_from.
    destruct u as [audioUpload|].
    2:{ apply throwRuntime_behaved. unfold executorErrors. rewrite !elem_of_cons. tauto. }
    apply callMultipart_behaved. right.
    destruct (asBoolean _ false && truthy_opt (translationEndpointPath tool)) eqn:T.
    + apply andb_prop in T as [_ T].
      destruct (translationEndpointPath tool) as [t|] eqn:Ht; [|discriminate].
      unfold routes. rewrite Ht. apply elem_of_app. right. apply elem_of_cons. by left.
    + unfold routes. rewrite P. apply elem_of_app. left. apply elem_of_cons. by left.
  - (* audio_speech *)
    destruct (endpointPath tool) as [p|] eqn:P; [|discriminate]. intros [= <-].
    unfold handleAudioSpeech. do 3 require_string h.
    apply callJson_behaved. auto.
  - (* video_generate *)
    destruct (endpointPath tool) as [p|] eqn:P; [|discriminate]. intros [= <-].
    unfold handleVideoGenerate. do 2 require_string h.
    apply callJson_behaved. auto.
  - (* safety_moderate *)
    destruct (endpointPath tool) as [p|] eqn:P; [|discriminate]. intros [= <-].
    apply Hinput. auto.
  - (* embedding_create *)
    destruct (endpointPath tool) as [p|] eqn:P; [|discriminate]. intros [= <-].
    apply Hinput. auto.
  - (* full_endpoint *)
    destruct (endpointPath tool) as [p|] eqn:P; [|discriminate]. intros [= <-].
    unfold handleFullEndpoint. cbv zeta.
    destruct (toolContentType tool) as [[]|].
    + apply callJson_behaved. auto.
    + apply callWithFile_behaved. auto.
    + apply callWithFile_behaved. auto.
  - (* raw_call *)
    intros [= <-]. unfold handleRawCall. require_string h.
    clear Hinput.
    destruct getCatalogState as [m|catalog] eqn:G; [by constructor|].
    destruct (recordByPath catalog v) as [endpoint|] eqn:R.
    2:{ apply throwRuntime_behaved. unfold executorErrors. rewrite !elem_of_cons. tauto. }
    cbv zeta. rewrite <- G. case_bool_decide.
    + apply callJson_behaved. auto.
    + case_bool_decide; cbn [negb].
      * apply callWithFile_behaved. auto.
      * apply throwRuntime_behaved. unfold executorErrors. apply elem_of_cons. by left.
Qed.

Lemma recordByPath_view (catalog : NormalizedCatalog) (p : string) :
  endpointByPath (catalogState catalog) p = descriptor <$> recordByPath catalog p.
Proof.
  unfold endpointByPath, recordByPath, catalogState. cbn [endpoints].
  induction (records catalog) as [|r l IH]; [done|]. cbn [map find].
  destruct (bool_decide (path (descriptor r) = p)
            && bool_decide (method (descriptor r) = "POST")); [done|exact IH].
Qed.

(** X27. Whatever the arguments of a tool call are, the requests that
    [execute] makes all go to one URL, the URL of an endpoint path that
    the current catalog lists with the method POST; for every tool but
    the raw caller this path is one of the routes of the tool (its
    endpoint path or its translation path), and for the raw caller it is
    the path that the lookup in the catalog admitted. A call that makes a
    request resolves with a result: it does not reject. *)
Theorem tool_calls_stay_in_the_catalog :
  forall (tool : PlannedTool) (rawArgs : value) (h : History)
         (outcome : Rejection F + AlbomToolResult) (h' : History),
    run tool rawArgs h = Some (outcome, h') ->
    exists added,
      h' = h ++ added
      /\ (added = []
          \/ exists p catalog record result,
               outcome = inr result
               /\ getCatalogState = inr catalog
               /\ endpointByPath (catalogState catalog) p = Some (descriptor record)
               /\ (kind tool = raw_call \/ p ∈ routes tool)
               /\ Forall (targets (composeEndpointUrl (baseUrl options) p)) added).
Proof.
  intros tool rawArgs h outcome h' Hrun.
  apply handler_behaved in Hrun.
  inversion Hrun as [r Hr|result|p catalog record added result Hp Hc Hrec Ht]; subst.
  - exists []. rewrite app_nil_r. auto.
  - exists []. rewrite app_nil_r. auto.
  - exists added. split; [done|]. right. exists p, catalog, record, result.
    repeat split; try done. by rewrite recordByPath_view, Hrec.
Qed.

(** X28. [execute] rejects only before any request is made, and only
    with: [invalid_input] (400) for a required argument that is missing or
    a content type that is neither json nor multipart;
    [endpoint_not_found] (404) for a tool whose endpoint has left the
    catalog; [endpoint_not_allowlisted] (400) for a raw call to a path
    that the catalog does not list; [missing_file] (400); an error of
    [prepareUpload]; or the failure of the catalog getter or of the
    catalog refresh. What the HTTP client throws never rejects the
    call. *)
Theorem rejections_come_before_requests :
  forall (tool : PlannedTool) (rawArgs : value) (h : History)
         (rejection : Rejection F) (h' : History),
    run tool rawArgs h = Some (inl rejection, h') ->
    h' = h
    /\ match rejection with
       | RuntimeRejection e =>
           (errorCode e, HttpClient.errorStatus e)
           ∈ [("invalid_input", 400); ("endpoint_not_found", 404);
              ("endpoint_not_allowlisted", 400); ("missing_file", 400)]
       | UploadRejection e =>
           (uploadCode e, uploadStatus e)
           ∈ [("missing_file", 400); ("invalid_file_input", 400);
              ("file_read_failed", 400); ("invalid_base64", 400);
              ("empty_upload", 400); ("file_too_large", 413)]
       | CatalogUnavailable message => getCatalogState = inl message
       | RefreshRejection reason =>
           refreshCatalog = inl reason
       end.
Proof.
  intros tool rawArgs h rejection h' Hrun.
  apply handler_behaved in Hrun.
  inversion Hrun as [r Hr|result|p catalog record added result Hp Hc Hrec Ht]; subst.
  split; [done|]. by destruct rejection.
Qed.

End Tool.

(** *** The body of a text generation *)

Lemma assoc_Some_key {A} (k : string) (obj : list (string * A)) (x : A) :
  assoc k obj = Some x -> k ∈ map fst obj.
Proof.
  induction obj as [|[k' v'] obj IH]; cbn; [done|].
  case_bool_decide as E; [intros _; subst; apply elem_of_cons; by left|].
  intros Hk. apply elem_of_cons. right. by apply IH.
Qed.

Lemma assoc_absent {A} (k : string) (obj : list (string * A)) :
  k ∉ map fst obj -> assoc k obj = None.
Proof.
  induction obj as [|[k' v'] obj IH]; cbn; [done|].
  intros Hk. apply not_elem_of_cons in Hk as [Hne Hk].
  rewrite bool_decide_eq_false_2 by done. by apply IH.
Qed.

Lemma assoc_app_new {A} (k key : string) (v : A) (obj : list (string * A)) :
  assoc k (obj ++ [(key, v)])
  = match assoc k obj with
    | Some x => Some x
    | None => if bool_decide (key = k) then Some v else None
    end.
Proof.
  induction obj as [|[k' v'] obj IH]; cbn [assoc app]; [done|].
  destruct (bool_decide (k' = k)); [done|apply IH].
Qed.

Lemma assoc_insertIndexed {A} (n : N) (k key : string) (v : A)
    (obj : list (string * A)) :
  key ∉ map fst obj ->
  assoc k (insertIndexed n key v obj)
  = if bool_decide (key = k) then Some v else assoc k obj.
Proof.
  induction obj as [|[k' v'] obj IH]; cbn [insertIndexed]; [done|].
  intros Hk. apply not_elem_of_cons in Hk as [Hne Hk]. cbn [fst] in Hne.
  destruct (arrayIndex k') as [n'|]; [|done].
  destruct (n' <? n)%N; [|done].
  cbn [assoc]. rewrite (IH Hk).
  destruct (decide (k' = k)) as [->|Hk'].
  - rewrite (bool_decide_eq_true_2 (k = k)) by done.
    by rewrite bool_decide_eq_false_2.
  - by rewrite (bool_decide_eq_false_2 (k' = k)).
Qed.

Lemma assoc_map_set {A} (k key : string) (v : A) (obj : list (string * A)) :
  key ∈ map fst obj ->
  assoc k (L402.map_set key v obj)
  = if bool_decide (key = k) then Some v else assoc k obj.
Proof.
  induction obj as [|[k' v'] obj IH]; cbn [L402.map_set map fst].
  - intros H. by apply elem_of_nil in H.
  - intros H. destruct (decide (k' = key)) as [->|Hne].
    + rewrite (bool_decide_eq_true_2 (key = key)) by done. cbn [assoc].
      by destruct (bool_decide (key = k)).
    + rewrite (bool_decide_eq_false_2 (k' = key)) by done.
      apply elem_of_cons in H as [H|H]; [by destruct Hne|].
      cbn [assoc]. rewrite (IH H).
      destruct (decide (k' = k)) as [->|Hk'].
      * rewrite (bool_decide_eq_true_2 (k = k)) by done.
        by rewrite bool_decide_eq_false_2.
      * by rewrite (bool_decide_eq_false_2 (k' = k)).
Qed.

(** Reading an object after [obj[key] = v]. *)
Lemma assoc_setProperty {A} (k key : string) (v : A) (obj : list (string * A)) :
  assoc k (setProperty key v obj)
  = if bool_decide (key = k) then Some v else assoc k obj.
Proof.
  unfold setProperty. case_bool_decide as Hin; [by apply assoc_map_set|].
  destruct (arrayIndex key) as [n|]; [by apply assoc_insertIndexed|].
  rewrite assoc_app_new. case_bool_decide as E.
  - subst k. by rewrite (assoc_absent key obj Hin).
  - by destruct (assoc k obj).
Qed.

Lemma assoc_maybeAdd (k key : string) (v : option value)
    (target : list (string * value)) :
  key <> k -> assoc k (maybeAdd target key v) = assoc k target.
Proof.
  intros Hne. unfold maybeAdd. destruct v as [[]|]; try done;
    rewrite assoc_setProperty; by rewrite bool_decide_eq_false_2.
Qed.

Lemma assoc_maybeAdd_set (key : string) (v : value) (target : list (string * value)) :
  v <> VUndefined -> assoc key (maybeAdd target key (Some v)) = Some v.
Proof.
  intros Hv. unfold maybeAdd. destruct v; try done;
    rewrite assoc_setProperty; by rewrite bool_decide_eq_true_2.
Qed.

Lemma addExtra_kept (entries : list (string * value)) (body : list (string * value))
    (k : string) (x : value) :
  assoc k body = Some x ->
  assoc k (foldl (fun body kv => if inObject kv.1 body then body
                                 else setProperty kv.1 kv.2 body) body entries)
  = Some x.
Proof.
  revert body. induction entries as [|[k' v'] entries IH]; intros body Hk; [done|].
  cbn [foldl fst snd]. apply IH.
  destruct (inObject k' body) eqn:E; [done|].
  rewrite assoc_setProperty. case_bool_decide as E'; [|done]. subst k'.
  unfold inObject in E. apply orb_false_elim in E as [E _].
  apply bool_decide_eq_false_1 in E. destruct E. by eapply assoc_Some_key.
Qed.

Lemma addExtra_new (entries : list (string * value)) (body : list (string * value))
    (k : string) :
  assoc k body = None -> k ∉ inheritedKeys ->
  assoc k (foldl (fun body kv => if inObject kv.1 body then body
                                 else setProperty kv.1 kv.2 body) body entries)
  = assoc k entries.
Proof.
  revert body. induction entries as [|[k' v'] entries IH]; intros body Hk Hin; [done|].
  cbn [foldl fst snd assoc].
  destruct (inObject k' body) eqn:E.
  - case_bool_decide as E'; [|by apply IH]. subst k'. exfalso.
    unfold inObject in E. apply orb_prop in E as [E|E]; apply bool_decide_eq_true_1 in E.
    + apply list_elem_of_fmap in E as ([k0 x] & -> & Hx). cbn [fst] in Hk.
      clear -Hk Hx. induction body as [|[k1 v1] body IHb]; [by apply elem_of_nil in Hx|].
      cbn in Hk. case_bool_decide as E1; [discriminate|].
      apply elem_of_cons in Hx as [[= -> ->]|Hx]; [done|]. by apply IHb.
    + done.
  - case_bool_decide as E'.
    + subst k'. apply addExtra_kept. rewrite assoc_setProperty.
      by rewrite bool_decide_eq_true_2.
    + apply IH; [|done]. rewrite assoc_setProperty.
      by rewrite bool_decide_eq_false_2.
Qed.

Lemma addExtra_keys (entries : list (string * value)) (body : list (string * value))
    (k : string) (x : value) :
  assoc k (foldl (fun body kv => if inObject kv.1 body then body
                                 else setProperty kv.1 kv.2 body) body entries)
  = Some x ->
  k ∉ inheritedKeys \/ is_Some (assoc k body).
Proof.
  revert body. induction entries as [|[k' v'] entries IH]; intros body; cbn [foldl fst snd].
  - intros H. right. by eexists.
  - intros H. apply IH in H as [H|H]; [by left|].
    destruct (inObject k' body) eqn:E; [by right|].
    rewrite assoc_setProperty in H. case_bool_decide as E'; [|by right].
    subst k'. left. unfold inObject in E. apply orb_false_elim in E as [_ E].
    by apply bool_decide_eq_false_1 in E.
Qed.

(** The keys that [handleTextGenerate] sets itself. *)
Definition reservedKeys : list string :=
  ["model"; "input"; "instructions"; "max_output_tokens"; "temperature"].

(** X29. The body that [handleTextGenerate] sends holds the model and
    the input of the arguments, and the instructions, the token limit and
    the temperature whenever the arguments give them; the [extra] argument
    only adds: a key of [extra] that the body does not have becomes a
    property of the body, a key that the body has already, one of the
    five set ones or a name that every object inherits (such as
    [constructor] or [__proto__]) is left out. *)
Theorem text_body_keeps_its_own_keys :
  forall (model : string) (args : value),
    let body := textBody model args in
    let extra := entriesOf (asRecord (default VUndefined (prop args "extra"))) in
    assoc "model" body = Some (VStr model)
    /\ assoc "input" body = Some (default VUndefined (prop args "input"))
    /\ Forall (fun key =>
                 forall v, prop args key = Some v -> v <> VUndefined ->
                           assoc key body = Some v)
         ["instructions"; "max_output_tokens"; "temperature"]
    /\ (forall key, key ∉ reservedKeys -> key ∉ inheritedKeys ->
                    assoc key body = assoc key extra)
    /\ (forall key v, assoc key body = Some v -> key ∉ inheritedKeys).
Proof.
  intros model args body extra. unfold body, textBody, addExtra. cbv zeta.
  fold extra.
  set (b0 := [("model", VStr model); ("input", default VUndefined (prop args "input"))]).
  set (b1 := maybeAdd b0 "instructions" (prop args "instructions")).
  set (b2 := maybeAdd b1 "max_output_tokens" (prop args "max_output_tokens")).
  set (b3 := maybeAdd b2 "temperature" (prop args "temperature")).
  assert (Hmodel : assoc "model" b3 = Some (VStr model)).
  { unfold b3, b2, b1. by rewrite !assoc_maybeAdd. }
  assert (Hinput : assoc "input" b3
                   = Some (default VUndefined (prop args "input"))).
  { unfold b3, b2, b1. by rewrite !assoc_maybeAdd. }
  split; [by apply addExtra_kept|]. split; [by apply addExtra_kept|].
  split; [|split].
  - rewrite !Forall_cons. repeat split; [| | |apply Forall_nil_2]; intros v Hv Hu;
      apply addExtra_kept; unfold b3, b2, b1; rewrite Hv.
    + rewrite !assoc_maybeAdd by done. by apply assoc_maybeAdd_set.
    + rewrite assoc_maybeAdd by done. by apply assoc_maybeAdd_set.
    + by apply assoc_maybeAdd_set.
  - intros key Hres Hinh. apply addExtra_new; [|done].
    unfold reservedKeys in Hres. rewrite !not_elem_of_cons in Hres.
    destruct Hres as (H1 & H2 & H3 & H4 & H5 & _).
    unfold b3, b2, b1. rewrite !assoc_maybeAdd by done.
    unfold b0. cbn [assoc]. by rewrite !bool_decide_eq_false_2.
  - intros key v Hkey. apply addExtra_keys in Hkey as [Hkey|[x Hx]]; [done|].
    assert (Hin : key ∈ reservedKeys).
    { destruct (decide (key ∈ reservedKeys)) as [|Hout]; [done|]. exfalso.
      unfold reservedKeys in Hout. rewrite !not_elem_of_cons in Hout.
      destruct Hout as (H1 & H2 & H3 & H4 & H5 & _).
      revert Hx. unfold b3, b2, b1. rewrite !assoc_maybeAdd by done.
      unfold b0. cbn [assoc]. by rewrite !bool_decide_eq_false_2. }
    revert Hin. unfold reservedKeys. rewrite !elem_of_cons, elem_of_nil.
    intros [->|[->|[->|[->|[->|[]]]]]];
      apply (bool_decide_unpack _); vm_compute; exact I.
Qed.

Example textBody_extra_only_adds :
  textBody "gpt-4o-mini"
    (VObj [("model", VStr "gpt-4o-mini"); ("input", VStr "hello");
           ("extra", VObj [("model", VStr "other"); ("constructor", VStr "x");
                           ("seed", VNum 7%float)])])
  = [("model", VStr "gpt-4o-mini"); ("input", VStr "hello"); ("seed", VNum 7%float)].
Proof. vm_compute. reflexivity. Qed.

(** *** A call to run *)

Definition oneEndpoint : NormalizedCatalog :=
  normalizeCatalog (fun s => s) (fun _ => EmptyString) (fun _ _ => 0)
    (mkCatalogResponse None None
       [("openai", mkApi "OpenAI"
           [mkCatalogEndpoint "/v1/responses" "POST" flat None None None
              (Some 30%float) None])])
    "2026-01-01T00:00:00.000Z".

Lemma tool_calls_stay_in_the_catalog_witness :
  exists outcome h',
    execute (F := unit) (fun _ => "{}") (fun _ => EmptyString) plainOptions flakyWorld
      (fun _ => EmptyString) (fun p => p) (fun s => s) UploadsSpec.oneFile 1024
      (inr oneEndpoint) (inl tt) None (fun _ _ => VNull)
      (DedupSpec.textTool "/v1/responses")
      (VObj [("model", VStr "gpt-4o-mini"); ("input", VStr "hello")]) []
    = Some (outcome, h')
    /\ exists added,
         h' = [] ++ added
         /\ (added = []
             \/ exists p catalog record result,
                  outcome = inr result
                  /\ @inr string NormalizedCatalog oneEndpoint = inr catalog
                  /\ endpointByPath (catalogState catalog) p = Some (descriptor record)
                  /\ (kind (DedupSpec.textTool "/v1/responses") = raw_call
                      \/ p ∈ routes (DedupSpec.textTool "/v1/responses"))
                  /\ Forall (targets (composeEndpointUrl (baseUrl plainOptions) p))
                       added).
Proof.
  eexists _, _. split; [vm_compute; reflexivity|].
  eapply (tool_calls_stay_in_the_catalog (F := unit) (fun _ => "{}")
            (fun _ => EmptyString) plainOptions flakyWorld (fun _ => EmptyString)
            (fun p => p) (fun s => s) UploadsSpec.oneFile 1024 (inr oneEndpoint)
            (inl tt) None (fun _ _ => VNull) (DedupSpec.textTool "/v1/responses")
            (VObj [("model", VStr "gpt-4o-mini"); ("input", VStr "hello")]) []).
  vm_compute. reflexivity.
Defined.

Lemma rejections_come_before_requests_witness :
  exists rejection,
    execute (F := unit) (fun _ => "{}") (fun _ => EmptyString) plainOptions flakyWorld
      (fun _ => EmptyString) (fun p => p) (fun s => s) UploadsSpec.oneFile 1024
      (inr oneEndpoint) (inl tt) None (fun _ _ => VNull) rawCallTool
      (VObj [("endpoint", VStr "/v1/admin")]) []
    = Some (inl rejection, [])
    /\ rejection
       = RuntimeRejection
           (mkRuntimeError "endpoint_not_allowlisted"
              "Endpoint is not present in current catalog: /v1/admin" 400)
    /\ match rejection with
       | RuntimeRejection e =>
           (errorCode e, HttpClient.errorStatus e)
           ∈ [("invalid_input", 400); ("endpoint_not_found", 404);
              ("endpoint_not_allowlisted", 400); ("missing_file", 400)]
       | UploadRejection e =>
           (uploadCode e, uploadStatus e)
           ∈ [("missing_file", 400); ("invalid_file_input", 400);
              ("file_read_failed", 400); ("invalid_base64", 400);
              ("empty_upload", 400); ("file_too_large", 413)]
       | CatalogUnavailable message =>
           @inr string NormalizedCatalog oneEndpoint = inl message
       | RefreshRejection reason =>
           @inl unit NormalizedCatalog tt = inl reason
       end.
Proof.
  eexists. split; [vm_compute; reflexivity|]. split; [reflexivity|].
  destruct (rejections_come_before_requests (F := unit) (fun _ => "{}")
              (fun _ => EmptyString) plainOptions flakyWorld (fun _ => EmptyString)
              (fun p => p) (fun s => s) UploadsSpec.oneFile 1024 (inr oneEndpoint)
              (inl tt) None (fun _ _ => VNull) rawCallTool
              (VObj [("endpoint", VStr "/v1/admin")]) []
              (RuntimeRejection
                 (mkRuntimeError "endpoint_not_allowlisted"
                    "Endpoint is not present in current catalog: /v1/admin" 400))
              []) as [_ Hcode]; [vm_compute; reflexivity|exact Hcode].
Defined.

End ExecutorSpec.
